(** * Interaction event routing and manipulation: a shallow embedding

    This development embeds two components of the interaction toolkit,
    [Interactable] (hover / trigger / drag event routing with bitmask
    arbitration) and [InteractableManipulation] (single- and dual-interactor
    translate / rotate / scale solver), and states their properties.

    Conventions of the embedding.
    - A script [number] is a real number: arithmetic is exact.  Rounding,
      infinities and NaN of IEEE doubles are outside the model; division is
      [Rdiv], so a quotient by zero is not the script's [Infinity].
    - An input-type bitmask is an integer.  The script's [|], [&] and [~] work
      on 32-bit two's complement integers; on masks in that range they agree
      with [Z.lor], [Z.land] and [Z.lnot].
    - A method that mutates [this] becomes a function from the component state
      to the new state and the list of effects (events invoked, log lines) in
      the order the method performs them.  Subscribers of the events are not
      modelled.
    - An interactor is an object updated in place by the tracking provider;
      the manipulation component keeps references and reads the objects from
      the frame in which a handler runs.
    - [vec3], [quat] and the scene transform belong to the host engine.  Their
      algebraic operations are written out; the operations whose definition is
      a convention of the host (look-at, Euler angles, the smoothing filter's
      blend) are fields of a [Host] record. *)

From Stdlib Require Import Reals Lra ZArith Lia List String Bool DecimalString.
Import ListNotations.

Set Implicit Arguments.

(* ================================================================== *)
(** * Part I: definitions *)
(* ================================================================== *)

(** ** Host vectors and quaternions *)

Record vec3 : Type := mkVec3 { vx : R; vy : R; vz : R }.

Record quat : Type := mkQuat { qw : R; qx : R; qy : R; qz : R }.

Module Vec3.
Local Open Scope R_scope.

Definition zero : vec3 := mkVec3 0 0 0.
Definition one : vec3 := mkVec3 1 1 1.
Definition up : vec3 := mkVec3 0 1 0.
Definition right : vec3 := mkVec3 1 0 0.
Definition forward : vec3 := mkVec3 0 0 1.

Definition add (a b : vec3) : vec3 :=
  mkVec3 (vx a + vx b) (vy a + vy b) (vz a + vz b).

Definition sub (a b : vec3) : vec3 :=
  mkVec3 (vx a - vx b) (vy a - vy b) (vz a - vz b).

Definition uniformScale (a : vec3) (k : R) : vec3 :=
  mkVec3 (vx a * k) (vy a * k) (vz a * k).

Definition dot (a b : vec3) : R := vx a * vx b + vy a * vy b + vz a * vz b.

Definition length (a : vec3) : R := sqrt (dot a a).

Definition distance (a b : vec3) : R := length (sub a b).

(** [v.projectOnPlane(n)]: the component of [v] orthogonal to [n]. *)
Definition projectOnPlane (v n : vec3) : vec3 :=
  sub v (uniformScale n (dot v n / dot n n)).

End Vec3.

Module Quat.
Local Open Scope R_scope.

Definition quatIdentity : quat := mkQuat 1 0 0 0.

(** Hamilton product, [a.multiply(b)]. *)
Definition multiply (a b : quat) : quat :=
  mkQuat
    (qw a * qw b - qx a * qx b - qy a * qy b - qz a * qz b)
    (qw a * qx b + qx a * qw b + qy a * qz b - qz a * qy b)
    (qw a * qy b - qx a * qz b + qy a * qw b + qz a * qx b)
    (qw a * qz b + qx a * qy b - qy a * qx b + qz a * qw b).

Definition norm2 (a : quat) : R :=
  qw a * qw a + qx a * qx a + qy a * qy a + qz a * qz a.

(** [a.invert()]: the multiplicative inverse, conjugate over squared norm. *)
Definition invert (a : quat) : quat :=
  mkQuat (qw a / norm2 a) (- qx a / norm2 a)
         (- qy a / norm2 a) (- qz a / norm2 a).

(** [q.multiplyVec3(v)]: [v] rotated by [q], the vector part of
    [q * (0, v) * invert q]. *)
Definition multiplyVec3 (q : quat) (v : vec3) : vec3 :=
  let p := multiply (multiply q (mkQuat 0 (vx v) (vy v) (vz v))) (invert q) in
  mkVec3 (qx p) (qy p) (qz p).

End Quat.

Module MathUtils.
Local Open Scope R_scope.

Definition lerp (a b t : R) : R := a + (b - a) * t.

Definition clamp (v lo hi : R) : R := Rmax lo (Rmin v hi).

End MathUtils.

(** [Math.sign], [Math.min] of three numbers, and the truth values of the
    script's comparisons between numbers. *)
Module Num.
Local Open Scope R_scope.

Definition sign (x : R) : R :=
  if Rlt_dec 0 x then 1 else if Rlt_dec x 0 then -1 else 0.

Definition min3 (a b c : R) : R := Rmin (Rmin a b) c.

Definition ltb (a b : R) : bool := if Rlt_dec a b then true else false.

Definition eqb (a b : R) : bool := if Req_dec_T a b then true else false.

End Num.

(** ** Interactor snapshots *)

(** The interactor is read, never written, by the two components.  Only the
    fields they read are kept.  [inputType] is the bitmask of the source,
    with [0] for [InteractorInputType.None]. *)

Inductive TargetingMode : Type := TargetingNone | Direct | Indirect.

Inductive InteractorTriggerType : Type := TriggerNone | Pinch | Select.

Definition InteractorInputType : Type := Z.

(** The enumeration is not among the sources.  [None] is the empty mask; the
    other members are distinct bits, whose values no property depends on. *)
Module InputType.
Definition None : InteractorInputType := 0%Z.
Definition LeftHand : InteractorInputType := 1%Z.
Definition RightHand : InteractorInputType := 2%Z.
Definition Mobile : InteractorInputType := 4%Z.
End InputType.

Record Interactor : Type := mkInteractor {
  inputType : InteractorInputType;
  activeTargetingMode : TargetingMode;
  startPoint : option vec3;
  orientation : option quat;
  direction : option vec3;
  distanceToTarget : option R;
  maxRaycastDistance : R;
  currentTrigger : InteractorTriggerType;
  (** identity of the interactable the interactor currently targets *)
  currentInteractable : option nat;
  currentDragVector : option vec3;
  previousDragVector : option vec3;
  planecastDragVector : option vec3;
  (** only read on a mobile interactor *)
  touchpadDragVector : option vec3;
  isActive : bool
}.

(** An interactor is an object that the tracking provider updates in place
    every frame.  A component that keeps interactors keeps references; what a
    reference holds is read from the frame in which a handler runs. *)
Definition InteractorRef : Type := nat.

(** ** Interactable *)

Module Interactable.

(** [InteractableEventArgs]: the interactor event without its
    [interactable] field, which every handler fills with [this]. *)
Record InteractableEventArgs : Type := mkArgs { interactor : Interactor }.

Inductive EventName : Type :=
| onHoverEnter | onInteractorHoverEnter | onHoverUpdate
| onHoverExit | onInteractorHoverExit
| onTriggerStart | onInteractorTriggerStart | onTriggerUpdate
| onTriggerEnd | onInteractorTriggerEnd | onTriggerCanceled.

Inductive DragEventName : Type := onDragStart | onDragUpdate | onDragEnd.

(** What a handler does besides updating the two masks, in order. *)
Inductive Effect : Type :=
| Invoke (e : EventName) (args : InteractableEventArgs)
| InvokeDrag (e : DragEventName) (args : InteractableEventArgs)
             (dragVector : vec3) (planecastDragVector : option vec3)
| LogV (msg : string).

Record t : Type := mk {
  hoveringInteractor : InteractorInputType;
  triggeringInteractor : InteractorInputType
}.

(** A freshly constructed component. *)
Definition initial : t := mk InputType.None InputType.None.

Definition isNone (m : InteractorInputType) : bool := Z.eqb m InputType.None.

(** [m |= b] and [m &= ~b]. *)
Definition orIn (m b : InteractorInputType) : InteractorInputType := Z.lor m b.
Definition andNot (m b : InteractorInputType) : InteractorInputType :=
  Z.land m (Z.lnot b).

Definition hoverEnter (eventArgs : InteractableEventArgs) (this : t)
  : t * list Effect :=
  let first :=
    if isNone (hoveringInteractor this)
    then [Invoke onHoverEnter eventArgs;
          LogV "InteractionEvent : On Hover Enter Event"]
    else [] in
  (mk (orIn (hoveringInteractor this) (inputType (interactor eventArgs)))
      (triggeringInteractor this),
   first ++ [Invoke onInteractorHoverEnter eventArgs;
             LogV "InteractionEvent : On Interactor Hover Enter Event"]).

Definition hoverUpdate (eventArgs : InteractableEventArgs) (this : t)
  : t * list Effect :=
  if isNone (hoveringInteractor this) then (this, [])
  else (this, [Invoke onHoverUpdate eventArgs]).

Definition hoverExit (eventArgs : InteractableEventArgs) (this : t)
  : t * list Effect :=
  let hovering :=
    andNot (hoveringInteractor this) (inputType (interactor eventArgs)) in
  (mk hovering (triggeringInteractor this),
   [Invoke onInteractorHoverExit eventArgs;
    LogV "InteractionEvent : On Interactor Hover Exit Event"]
   ++ (if isNone hovering
       then [Invoke onHoverExit eventArgs;
             LogV "InteractionEvent : On Hover Exit Event"]
       else [])).

Definition dragStartOrUpdate (eventArgs : InteractableEventArgs)
  : list Effect :=
  match currentDragVector (interactor eventArgs) with
  | None => []
  | Some current =>
      let planecast := planecastDragVector (interactor eventArgs) in
      match previousDragVector (interactor eventArgs) with
      | None => [InvokeDrag onDragStart eventArgs current planecast;
                 LogV "InteractionEvent : On Drag Start Event"]
      | Some _ => [InvokeDrag onDragUpdate eventArgs current planecast]
      end
  end.

Definition dragEnd (eventArgs : InteractableEventArgs) : list Effect :=
  match previousDragVector (interactor eventArgs) with
  | None => []
  | Some previous =>
      [InvokeDrag onDragEnd eventArgs previous
                  (planecastDragVector (interactor eventArgs));
       LogV "InteractionEvent : On Drag End Event"]
  end.

Definition triggerStart (eventArgs : InteractableEventArgs) (this : t)
  : t * list Effect :=
  let first :=
    if isNone (triggeringInteractor this)
    then [Invoke onTriggerStart eventArgs;
          LogV "InteractionEvent : On Trigger Start Event"]
    else [] in
  (mk (hoveringInteractor this)
      (orIn (triggeringInteractor this) (inputType (interactor eventArgs))),
   first ++ [Invoke onInteractorTriggerStart eventArgs;
             LogV "InteractionEvent : On Interactor Trigger Start Event"]).

Definition triggerUpdate (eventArgs : InteractableEventArgs) (this : t)
  : t * list Effect :=
  (this, Invoke onTriggerUpdate eventArgs :: dragStartOrUpdate eventArgs).

Definition triggerEnd (eventArgs : InteractableEventArgs) (this : t)
  : t * list Effect :=
  let triggering :=
    andNot (triggeringInteractor this) (inputType (interactor eventArgs)) in
  (mk (hoveringInteractor this) triggering,
   [Invoke onInteractorTriggerEnd eventArgs;
    LogV "InteractionEvent : On Interactor Trigger End Event"]
   ++ (if isNone triggering
       then [Invoke onTriggerEnd eventArgs;
             LogV "InteractionEvent : On Trigger End Event"]
       else [])
   ++ dragEnd eventArgs).

Definition triggerCanceled (eventArgs : InteractableEventArgs) (this : t)
  : t * list Effect :=
  (mk (hoveringInteractor this) InputType.None,
   [Invoke onTriggerCanceled eventArgs;
    LogV "InteractionEvent : On Trigger Canceled Event"]
   ++ dragEnd eventArgs).

(** *** Sequences of hover calls *)

Inductive HoverCall : Type :=
| CallHoverEnter (eventArgs : InteractableEventArgs)
| CallHoverExit (eventArgs : InteractableEventArgs).

Definition callArgs (c : HoverCall) : InteractableEventArgs :=
  match c with CallHoverEnter a | CallHoverExit a => a end.

Definition hoverCall (c : HoverCall) (this : t) : t * list Effect :=
  match c with
  | CallHoverEnter a => hoverEnter a this
  | CallHoverExit a => hoverExit a this
  end.

(** One call of a sequence: the mask before it, the mask after it and what
    it emitted. *)
Record HoverStep : Type := mkStep {
  maskBefore : InteractorInputType;
  maskAfter : InteractorInputType;
  emitted : list Effect
}.

Fixpoint hoverRun (calls : list HoverCall) (this : t) : list HoverStep :=
  match calls with
  | [] => []
  | c :: rest =>
      let (next, effects) := hoverCall c this in
      mkStep (hoveringInteractor this) (hoveringInteractor next) effects
      :: hoverRun rest next
  end.

Definition eventNameEqb (a b : EventName) : bool :=
  match a, b with
  | onHoverEnter, onHoverEnter | onInteractorHoverEnter, onInteractorHoverEnter
  | onHoverUpdate, onHoverUpdate | onHoverExit, onHoverExit
  | onInteractorHoverExit, onInteractorHoverExit
  | onTriggerStart, onTriggerStart
  | onInteractorTriggerStart, onInteractorTriggerStart
  | onTriggerUpdate, onTriggerUpdate | onTriggerEnd, onTriggerEnd
  | onInteractorTriggerEnd, onInteractorTriggerEnd
  | onTriggerCanceled, onTriggerCanceled => true
  | _, _ => false
  end.

(** How many times [e] is invoked in a list of effects. *)
Fixpoint invocations (e : EventName) (effects : list Effect) : nat :=
  match effects with
  | [] => 0
  | Invoke e' _ :: rest =>
      (if eventNameEqb e e' then 1 else 0) + invocations e rest
  | _ :: rest => invocations e rest
  end.

(** No event of any kind, drag events included, is invoked by [effects]. *)
Fixpoint invokesNothing (effects : list Effect) : bool :=
  match effects with
  | [] => true
  | Invoke _ _ :: _ | InvokeDrag _ _ _ _ :: _ => false
  | LogV _ :: rest => invokesNothing rest
  end.

(** The step moves the hover mask from [None] to a non-empty mask. *)
Definition entersOccupancy (s : HoverStep) : bool :=
  isNone (maskBefore s) && negb (isNone (maskAfter s)).
(** The step moves the hover mask from a non-empty mask to [None]. *)
Definition leavesOccupancy (s : HoverStep) : bool :=
  negb (isNone (maskBefore s)) && isNone (maskAfter s).

Definition oneIf (b : bool) : nat := if b then 1 else 0.

(** The aggregate events of a step are exactly its occupancy transitions. *)
Definition aggregateMatchesTransition (s : HoverStep) : Prop :=
  invocations onHoverEnter (emitted s) = oneIf (entersOccupancy s) /\
  invocations onHoverExit (emitted s) = oneIf (leavesOccupancy s).

(** Every call of the sequence comes from a real source: its input type is
    not [None]. *)
Definition fromSources (calls : list HoverCall) : Prop :=
  Forall (fun c => inputType (interactor (callArgs c)) <> InputType.None)
         calls.

(** No [hoverExit] of the sequence is made while nothing hovers. *)
Fixpoint exitsWhileHovered (calls : list HoverCall) (this : t) : bool :=
  match calls with
  | [] => true
  | c :: rest =>
      match c with
      | CallHoverExit _ => negb (isNone (hoveringInteractor this))
      | CallHoverEnter _ => true
      end && exitsWhileHovered rest (fst (hoverCall c this))
  end.

Definition dragEventEqb (a b : DragEventName) : bool :=
  match a, b with
  | onDragStart, onDragStart | onDragUpdate, onDragUpdate
  | onDragEnd, onDragEnd => true
  | _, _ => false
  end.

(** How many times the drag event [e] is invoked in a list of effects. *)
Fixpoint dragInvocations (e : DragEventName) (effects : list Effect) : nat :=
  match effects with
  | [] => 0
  | InvokeDrag e' _ _ _ :: rest =>
      (if dragEventEqb e e' then 1 else 0) + dragInvocations e rest
  | _ :: rest => dragInvocations e rest
  end.

End Interactable.

(** ** One-euro filter *)

Module OneEuro.

Record Memory (A : Type) : Type := mkMemory {
  previousValue : A;
  previousDerivative : A;
  previousTime : R
}.

Definition OneEuroFilter (A : Type) : Type := option (Memory A).

(** Modelled from the spec: the filter classes [OneEuroFilterVec3] and
    [OneEuroFilterQuat] are not among the sources.  Reset clears all internal
    state. *)
Definition reset {A : Type} (f : OneEuroFilter A) : OneEuroFilter A := None.

(** Modelled from the spec: the filter classes are not among the sources.
    A filter keeps the previous filtered value, the previous derivative and
    the previous sample time; the first sample after a reset is returned
    unfiltered.  How a later sample is blended with the memory (adaptive
    cutoff, smoothing factor) is the [blend] argument, and [still] is the
    derivative of a signal at rest. *)
Definition filter {A : Type} (blend : Memory A -> A -> R -> A * A) (still : A)
    (f : OneEuroFilter A) (sample : A) (time : R) : A * OneEuroFilter A :=
  match f with
  | None => (sample, Some (mkMemory sample still time))
  | Some m =>
      let (value, derivative) := blend m sample time in
      (value, Some (mkMemory value derivative time))
  end.

End OneEuro.

(** ** InteractableManipulation *)

Module InteractableManipulation.
Local Open Scope R_scope.
Import OneEuro.

Module RotationAxis.
Inductive t : Type := All | X | Y | Z.
End RotationAxis.

(** A [mat4] is kept as the position, rotation and scale it composes. *)
Record mat4 : Type := compose {
  mPosition : vec3;
  mRotation : quat;
  mScale : vec3
}.

Record CachedTransform : Type := mkCached {
  transform : mat4;
  position : vec3;
  rotation : quat;
  scale : vec3
}.

(** The scene transform of the manipulated root, as far as the component reads
    and writes it. *)
Record Transform : Type := mkTransform {
  worldPosition : vec3;
  worldRotation : quat;
  localPosition : vec3;
  localRotation : quat;
  localScale : vec3
}.

(** Operations of the host whose definition is a convention of the engine. *)
Record Host : Type := mkHost {
  (** [quat.lookAt(forward, up)] *)
  lookAt : vec3 -> vec3 -> quat;
  toEulerAngles : quat -> vec3;
  fromEulerVec : vec3 -> quat;
  (** [quat.fromEulerAngles(0, -90, 0)] *)
  YAW_NEGATIVE_90 : quat;
  (** world scale of the root whose local scale is given *)
  worldScaleOf : vec3 -> vec3;
  (** blends of the one-euro filters built from the default configuration *)
  blendVec3 : Memory vec3 -> vec3 -> R -> vec3 * vec3;
  blendQuat : Memory quat -> quat -> R -> quat * quat
}.

(** What a handler reads from outside the component during one call. *)
Record Env : Type := mkEnv {
  getTime : R;
  getDeltaTime : R;
  (** [camera.getTransform().getWorldRotation()] *)
  cameraWorldRotation : quat;
  (** [z] of [camera.getTransform().getInvertedWorldTransform()
      .multiplyPoint(p)] *)
  cameraSpaceZ : vec3 -> R;
  (** the companion interactable, and its identity among interactables *)
  interactable : Interactable.t;
  interactableId : nat;
  (** [interactionManager.getInteractorsByType] *)
  getInteractorsByType : InteractorInputType -> list InteractorRef;
  (** the fields of an interactor object during the call *)
  interactorObject : InteractorRef -> Interactor
}.

Definition MOBILE_DRAG_MULTIPLIER : R := 5 / 10.
Definition STRETCH_SMOOTH_SPEED : R := 15.
Definition MAX_USER_ARM_EXTENSION_CM : R := 100.
Definition MIN_DRAG_DISTANCE_CM : R := 1 / 10000.

(** The inputs of the component that its handlers only read. *)
Record Config : Type := mkConfig {
  enabled : bool;
  minimumScaleFactor : R;
  maximumScaleFactor : R;
  enableTranslation : bool;
  enableRotation : bool;
  enableScale : bool;
  enableStretchZ : bool;
  zStretchFactorMin : R;
  zStretchFactorMax : R;
  useFilter : bool;
  enableXTranslation : bool;
  enableYTranslation : bool;
  enableZTranslation : bool;
  rotationAxis : RotationAxis.t
}.

(** Payload of the start / update / end events: the interactors and the start
    and current value of what the event is about.  The [interactable] field is
    always the companion interactable. *)
Record EventArg (A : Type) : Type := mkEventArg {
  argInteractors : list InteractorRef;
  startValue : A;
  currentValue : A
}.

Record ScaleLimitEventArg : Type := mkScaleLimitArg {
  limitInteractors : list InteractorRef;
  limitCurrentValue : vec3
}.

Inductive TranslateEvent : Type :=
  onTranslationStart | onTranslationUpdate | onTranslationEnd.
Inductive RotationEvent : Type :=
  onRotationStart | onRotationUpdate | onRotationEnd.
Inductive ScaleEvent : Type := onScaleStart | onScaleUpdate | onScaleEnd.
Inductive TransformEvent : Type :=
  onManipulationStart | onManipulationUpdate | onManipulationEnd.

Inductive Effect : Type :=
| InvokeTranslate (e : TranslateEvent) (arg : EventArg vec3)
| InvokeRotation (e : RotationEvent) (arg : EventArg quat)
| InvokeScale (e : ScaleEvent) (arg : EventArg vec3)
| InvokeTransform (e : TransformEvent) (arg : EventArg mat4)
| InvokeScaleLimitReached (arg : ScaleLimitEventArg)
| LogE (msg : string)
| LogW (msg : string)
| LogV (msg : string).

Record t : Type := mk {
  config : Config;
  manipulateRoot : Transform;
  originalWorldTransform : CachedTransform;
  originalLocalTransform : CachedTransform;
  startTransform : CachedTransform;
  offsetPosition : vec3;
  offsetRotation : quat;
  initialInteractorDistance : R;
  startStretchInteractorDistance : R;
  mobileStretch : R;
  smoothedStretch : R;
  initialObjectScale : vec3;
  hitPointToTransform : vec3;
  interactors : list InteractorRef;
  cachedTargetingMode : TargetingMode;
  currentRotationSign : R;
  currentUp : vec3;
  translateFilter : OneEuroFilter vec3;
  rotationFilter : OneEuroFilter quat;
  scaleFilter : OneEuroFilter vec3
}.

(** Assignment to one field of [this]. *)

Definition withManipulateRoot (v : Transform) (this : t) : t :=
  mk (config this) v (originalWorldTransform this)
     (originalLocalTransform this) (startTransform this) (offsetPosition this)
     (offsetRotation this) (initialInteractorDistance this)
     (startStretchInteractorDistance this) (mobileStretch this)
     (smoothedStretch this) (initialObjectScale this)
     (hitPointToTransform this) (interactors this) (cachedTargetingMode this)
     (currentRotationSign this) (currentUp this) (translateFilter this)
     (rotationFilter this) (scaleFilter this).

Definition withStartTransform (v : CachedTransform) (this : t) : t :=
  mk (config this) (manipulateRoot this) (originalWorldTransform this)
     (originalLocalTransform this) v (offsetPosition this)
     (offsetRotation this) (initialInteractorDistance this)
     (startStretchInteractorDistance this) (mobileStretch this)
     (smoothedStretch this) (initialObjectScale this)
     (hitPointToTransform this) (interactors this) (cachedTargetingMode this)
     (currentRotationSign this) (currentUp this) (translateFilter this)
     (rotationFilter this) (scaleFilter this).

Definition withOffsetPosition (v : vec3) (this : t) : t :=
  mk (config this) (manipulateRoot this) (originalWorldTransform this)
     (originalLocalTransform this) (startTransform this) v
     (offsetRotation this) (initialInteractorDistance this)
     (startStretchInteractorDistance this) (mobileStretch this)
     (smoothedStretch this) (initialObjectScale this)
     (hitPointToTransform this) (interactors this) (cachedTargetingMode this)
     (currentRotationSign this) (currentUp this) (translateFilter this)
     (rotationFilter this) (scaleFilter this).

Definition withOffsetRotation (v : quat) (this : t) : t :=
  mk (config this) (manipulateRoot this) (originalWorldTransform this)
     (originalLocalTransform this) (startTransform this) (offsetPosition this)
     v (initialInteractorDistance this) (startStretchInteractorDistance this)
     (mobileStretch this) (smoothedStretch this) (initialObjectScale this)
     (hitPointToTransform this) (interactors this) (cachedTargetingMode this)
     (currentRotationSign this) (currentUp this) (translateFilter this)
     (rotationFilter this) (scaleFilter this).

Definition withInitialInteractorDistance (v : R) (this : t) : t :=
  mk (config this) (manipulateRoot this) (originalWorldTransform this)
     (originalLocalTransform this) (startTransform this) (offsetPosition this)
     (offsetRotation this) v (startStretchInteractorDistance this)
     (mobileStretch this) (smoothedStretch this) (initialObjectScale this)
     (hitPointToTransform this) (interactors this) (cachedTargetingMode this)
     (currentRotationSign this) (currentUp this) (translateFilter this)
     (rotationFilter this) (scaleFilter this).

Definition withStartStretchInteractorDistance (v : R) (this : t) : t :=
  mk (config this) (manipulateRoot this) (originalWorldTransform this)
     (originalLocalTransform this) (startTransform this) (offsetPosition this)
     (offsetRotation this) (initialInteractorDistance this) v
     (mobileStretch this) (smoothedStretch this) (initialObjectScale this)
     (hitPointToTransform this) (interactors this) (cachedTargetingMode this)
     (currentRotationSign this) (currentUp this) (translateFilter this)
     (rotationFilter this) (scaleFilter this).

Definition withMobileStretch (v : R) (this : t) : t :=
  mk (config this) (manipulateRoot this) (originalWorldTransform this)
     (originalLocalTransform this) (startTransform this) (offsetPosition this)
     (offsetRotation this) (initialInteractorDistance this)
     (startStretchInteractorDistance this) v (smoothedStretch this)
     (initialObjectScale this) (hitPointToTransform this) (interactors this)
     (cachedTargetingMode this) (currentRotationSign this) (currentUp this)
     (translateFilter this) (rotationFilter this) (scaleFilter this).

Definition withSmoothedStretch (v : R) (this : t) : t :=
  mk (config this) (manipulateRoot this) (originalWorldTransform this)
     (originalLocalTransform this) (startTransform this) (offsetPosition this)
     (offsetRotation this) (initialInteractorDistance this)
     (startStretchInteractorDistance this) (mobileStretch this) v
     (initialObjectScale this) (hitPointToTransform this) (interactors this)
     (cachedTargetingMode this) (currentRotationSign this) (currentUp this)
     (translateFilter this) (rotationFilter this) (scaleFilter this).

Definition withInitialObjectScale (v : vec3) (this : t) : t :=
  mk (config this) (manipulateRoot this) (originalWorldTransform this)
     (originalLocalTransform this) (startTransform this) (offsetPosition this)
     (offsetRotation this) (initialInteractorDistance this)
     (startStretchInteractorDistance this) (mobileStretch this)
     (smoothedStretch this) v (hitPointToTransform this) (interactors this)
     (cachedTargetingMode this) (currentRotationSign this) (currentUp this)
     (translateFilter this) (rotationFilter this) (scaleFilter this).

Definition withHitPointToTransform (v : vec3) (this : t) : t :=
  mk (config this) (manipulateRoot this) (originalWorldTransform this)
     (originalLocalTransform this) (startTransform this) (offsetPosition this)
     (offsetRotation this) (initialInteractorDistance this)
     (startStretchInteractorDistance this) (mobileStretch this)
     (smoothedStretch this) (initialObjectScale this) v (interactors this)
     (cachedTargetingMode this) (currentRotationSign this) (currentUp this)
     (translateFilter this) (rotationFilter this) (scaleFilter this).

Definition withInteractors (v : list InteractorRef) (this : t) : t :=
  mk (config this) (manipulateRoot this) (originalWorldTransform this)
     (originalLocalTransform this) (startTransform this) (offsetPosition this)
     (offsetRotation this) (initialInteractorDistance this)
     (startStretchInteractorDistance this) (mobileStretch this)
     (smoothedStretch this) (initialObjectScale this)
     (hitPointToTransform this) v (cachedTargetingMode this)
     (currentRotationSign this) (currentUp this) (translateFilter this)
     (rotationFilter this) (scaleFilter this).

Definition withCachedTargetingMode (v : TargetingMode) (this : t) : t :=
  mk (config this) (manipulateRoot this) (originalWorldTransform this)
     (originalLocalTransform this) (startTransform this) (offsetPosition this)
     (offsetRotation this) (initialInteractorDistance this)
     (startStretchInteractorDistance this) (mobileStretch this)
     (smoothedStretch this) (initialObjectScale this)
     (hitPointToTransform this) (interactors this) v
     (currentRotationSign this) (currentUp this) (translateFilter this)
     (rotationFilter this) (scaleFilter this).

Definition withCurrentRotationSign (v : R) (this : t) : t :=
  mk (config this) (manipulateRoot this) (originalWorldTransform this)
     (originalLocalTransform this) (startTransform this) (offsetPosition this)
     (offsetRotation this) (initialInteractorDistance this)
     (startStretchInteractorDistance this) (mobileStretch this)
     (smoothedStretch this) (initialObjectScale this)
     (hitPointToTransform this) (interactors this) (cachedTargetingMode this)
     v (currentUp this) (translateFilter this) (rotationFilter this)
     (scaleFilter this).

Definition withCurrentUp (v : vec3) (this : t) : t :=
  mk (config this) (manipulateRoot this) (originalWorldTransform this)
     (originalLocalTransform this) (startTransform this) (offsetPosition this)
     (offsetRotation this) (initialInteractorDistance this)
     (startStretchInteractorDistance this) (mobileStretch this)
     (smoothedStretch this) (initialObjectScale this)
     (hitPointToTransform this) (interactors this) (cachedTargetingMode this)
     (currentRotationSign this) v (translateFilter this) (rotationFilter this)
     (scaleFilter this).

Definition withTranslateFilter (v : OneEuroFilter vec3) (this : t) : t :=
  mk (config this) (manipulateRoot this) (originalWorldTransform this)
     (originalLocalTransform this) (startTransform this) (offsetPosition this)
     (offsetRotation this) (initialInteractorDistance this)
     (startStretchInteractorDistance this) (mobileStretch this)
     (smoothedStretch this) (initialObjectScale this)
     (hitPointToTransform this) (interactors this) (cachedTargetingMode this)
     (currentRotationSign this) (currentUp this) v (rotationFilter this)
     (scaleFilter this).

Definition withRotationFilter (v : OneEuroFilter quat) (this : t) : t :=
  mk (config this) (manipulateRoot this) (originalWorldTransform this)
     (originalLocalTransform this) (startTransform this) (offsetPosition this)
     (offsetRotation this) (initialInteractorDistance this)
     (startStretchInteractorDistance this) (mobileStretch this)
     (smoothedStretch this) (initialObjectScale this)
     (hitPointToTransform this) (interactors this) (cachedTargetingMode this)
     (currentRotationSign this) (currentUp this) (translateFilter this) v
     (scaleFilter this).

Definition withScaleFilter (v : OneEuroFilter vec3) (this : t) : t :=
  mk (config this) (manipulateRoot this) (originalWorldTransform this)
     (originalLocalTransform this) (startTransform this) (offsetPosition this)
     (offsetRotation this) (initialInteractorDistance this)
     (startStretchInteractorDistance this) (mobileStretch this)
     (smoothedStretch this) (initialObjectScale this)
     (hitPointToTransform this) (interactors this) (cachedTargetingMode this)
     (currentRotationSign this) (currentUp this) (translateFilter this)
     (rotationFilter this) v.

(** *** Reads and writes of the root transform *)

Definition getWorldPosition (this : t) : vec3 := worldPosition (manipulateRoot this).
Definition getWorldRotation (this : t) : quat := worldRotation (manipulateRoot this).
Definition getLocalScale (this : t) : vec3 := localScale (manipulateRoot this).
Definition getWorldScale (h : Host) (this : t) : vec3 :=
  worldScaleOf h (localScale (manipulateRoot this)).
Definition getWorldTransform (h : Host) (this : t) : mat4 :=
  compose (getWorldPosition this) (getWorldRotation this) (getWorldScale h this).

Definition setWorldPosition (p : vec3) (this : t) : t :=
  let r := manipulateRoot this in
  withManipulateRoot
    (mkTransform p (worldRotation r) (localPosition r) (localRotation r)
                 (localScale r)) this.

Definition setWorldRotation (q : quat) (this : t) : t :=
  let r := manipulateRoot this in
  withManipulateRoot
    (mkTransform (worldPosition r) q (localPosition r) (localRotation r)
                 (localScale r)) this.

Definition setLocalScale (s : vec3) (this : t) : t :=
  let r := manipulateRoot this in
  withManipulateRoot
    (mkTransform (worldPosition r) (worldRotation r) (localPosition r)
                 (localRotation r) s) this.

Definition canTranslate (this : t) : bool := enableTranslation (config this).
Definition canRotate (this : t) : bool := enableRotation (config this).
Definition canScale (this : t) : bool := enableScale (config this).

(** [x ?? d] *)
Definition orElse {A : Type} (x : option A) (d : A) : A :=
  match x with Some a => a | None => d end.

Definition isSome {A : Type} (x : option A) : bool :=
  match x with Some _ => true | None => false end.


(** *** Event emission *)

(** [invokeEvents]: each argument is an event of the component or [null]. *)
Definition invokeEvents (h : Host)
    (translateEvent : option TranslateEvent)
    (rotationEvent : option RotationEvent)
    (scaleEvent : option ScaleEvent)
    (manipulationEvent : option TransformEvent) (this : t) : list Effect :=
  (match translateEvent with
   | Some e =>
       if canTranslate this
       then [InvokeTranslate e
               (mkEventArg (interactors this) (position (startTransform this))
                           (getWorldPosition this))]
       else []
   | None => []
   end)
  ++ (match rotationEvent with
      | Some e =>
          if canRotate this
          then [InvokeRotation e
                  (mkEventArg (interactors this)
                              (rotation (startTransform this))
                              (getWorldRotation this))]
          else []
      | None => []
      end)
  ++ (match scaleEvent with
      | Some e =>
          if canScale this
          then [InvokeScale e
                  (mkEventArg (interactors this) (scale (startTransform this))
                              (getWorldScale h this))]
          else []
      | None => []
      end)
  ++ (match manipulationEvent with
      | Some e =>
          if canTranslate this || canRotate this || canScale this
          then [InvokeTransform e
                  (mkEventArg (interactors this)
                              (transform (startTransform this))
                              (getWorldTransform h this))]
          else []
      | None => []
      end).

(** *** Validity of an interactor snapshot *)

(** An element of [interactors] is never [null], so the first conjunct of the
    source's test holds. *)
Definition isInteractorValid (interactor : Interactor) : bool :=
  isSome (startPoint interactor)
  && isSome (orientation interactor)
  && isSome (direction interactor)
  && isSome (distanceToTarget interactor)
  && isActive interactor.

Definition getRayPosition (interactor : Interactor) : vec3 :=
  if negb (isInteractorValid interactor) then Vec3.zero
  else
    let startPoint := orElse (startPoint interactor) Vec3.zero in
    let direction := orElse (direction interactor) Vec3.zero in
    let distanceToTarget := orElse (distanceToTarget interactor) 0 in
    Vec3.add startPoint (Vec3.uniformScale direction distanceToTarget).

Definition limitQuatRotation (h : Host) (rotation : quat) (this : t) : quat :=
  let euler := toEulerAngles h rotation in
  fromEulerVec h (if negb (canRotate this) then mkVec3 0 0 0 else euler).

(** [getDualInteractorDirection]: the new state (the persisted up vector and
    sign may flip), the direction or [null], and the log lines. *)
Definition getDualInteractorDirection (h : Host)
    (interactor1 interactor2 : Interactor) (this : t)
  : t * option quat * list Effect :=
  match startPoint interactor1, startPoint interactor2 with
  | Some p1, Some p2 =>
      let '(point1, point2, sign) :=
        match rotationAxis (config this) with
        | RotationAxis.All => (p1, p2, 0)
        | RotationAxis.X =>
            let point1 := Vec3.projectOnPlane p1 Vec3.right in
            let point2 := Vec3.projectOnPlane p2 Vec3.right in
            (point1, point2, Num.sign (vz point2 - vz point1))
        | RotationAxis.Y =>
            (Vec3.projectOnPlane p1 Vec3.up, Vec3.projectOnPlane p2 Vec3.up, 0)
        | RotationAxis.Z =>
            let point1 := Vec3.projectOnPlane p1 Vec3.forward in
            let point2 := Vec3.projectOnPlane p2 Vec3.forward in
            (point1, point2, Num.sign (vx point2 - vx point1))
        end in
      let this1 :=
        if Num.eqb sign (currentRotationSign this) then this
        else withCurrentRotationSign sign
               (withCurrentUp (Vec3.uniformScale (currentUp this) (-1)) this) in
      let rotation :=
        Quat.multiply (lookAt h (Vec3.sub point2 point1) (currentUp this1))
                      (YAW_NEGATIVE_90 h) in
      (this1, Some (limitQuatRotation h rotation this1), [])
  | _, _ =>
      (this, None,
       [LogE "Interactors and their start points should not be null for getDualInteractorDirection"])
  end.

(** *** Session start *)

Definition snapshot (h : Host) (this : t) : CachedTransform :=
  mkCached (getWorldTransform h this) (getWorldPosition this)
           (getWorldRotation this) (getWorldScale h this).

Definition isDirectMode (m : TargetingMode) : bool :=
  match m with Direct => true | _ => false end.

Definition updateStartValues (h : Host) (env : Env) (this : t)
  : t * list Effect :=
  let this :=
    withStartStretchInteractorDistance 0
      (withSmoothedStretch 0 (withMobileStretch 0 this)) in
  let this :=
    withScaleFilter (reset (scaleFilter this))
      (withRotationFilter (reset (rotationFilter this))
         (withTranslateFilter (reset (translateFilter this)) this)) in
  let this := withStartTransform (snapshot h this) this in
  let cameraRotation := cameraWorldRotation env in
  match interactors this with
  | [reference] =>
      let interactor := interactorObject env reference in
      if negb (isInteractorValid interactor)
      then (this,
            [LogE "Interactor must not be valid for setting initial values"])
      else
        let startPoint := orElse (startPoint interactor) Vec3.zero in
        let orientation := orElse (orientation interactor) Quat.quatIdentity in
        let this :=
          withCachedTargetingMode (activeTargetingMode interactor) this in
        if isDirectMode (activeTargetingMode interactor)
        then
          let this :=
            withOffsetPosition
              (Vec3.sub (position (startTransform this)) startPoint) this in
          (withOffsetRotation
             (Quat.multiply (Quat.invert orientation)
                            (rotation (startTransform this))) this, [])
        else
          let rayPosition := getRayPosition interactor in
          let this := withOffsetPosition (Vec3.sub rayPosition startPoint) this in
          let this :=
            withHitPointToTransform
              (Vec3.sub (position (startTransform this)) rayPosition) this in
          (withOffsetRotation
             (Quat.multiply (Quat.invert cameraRotation)
                            (rotation (startTransform this))) this, [])
  | [reference0; reference1] =>
      let interactor0 := interactorObject env reference0 in
      let interactor1 := interactorObject env reference1 in
      if negb (isInteractorValid interactor0)
         || negb (isInteractorValid interactor1)
      then (this,
            [LogE "Both interactors must be valid for setting initial values"])
      else
        let isDirect :=
          isDirectMode (activeTargetingMode interactor0)
          || isDirectMode (activeTargetingMode interactor1) in
        let this :=
          withCachedTargetingMode (if isDirect then Direct else Indirect) this in
        let firstStartPoint := orElse (startPoint interactor0) Vec3.zero in
        let secondStartPoint := orElse (startPoint interactor1) Vec3.zero in
        let interactorMidPoint :=
          Vec3.uniformScale (Vec3.add firstStartPoint secondStartPoint) (5 / 10) in
        let this := withCurrentRotationSign 0 (withCurrentUp Vec3.up this) in
        let '(this, dualInteractorDirection, log) :=
          getDualInteractorDirection h interactor0 interactor1 this in
        let this :=
          withInitialInteractorDistance
            (Vec3.distance firstStartPoint secondStartPoint) this in
        let this := withInitialObjectScale (getLocalScale this) this in
        match dualInteractorDirection with
        | None => (this, log)
        | Some dualInteractorDirection =>
            let this :=
              withOffsetRotation
                (Quat.multiply (Quat.invert dualInteractorDirection)
                               (rotation (startTransform this))) this in
            if isDirect
            then
              (withOffsetPosition
                 (Vec3.sub (position (startTransform this)) interactorMidPoint)
                 this, log)
            else
              let firstRayPosition := getRayPosition interactor0 in
              let secondRayPosition := getRayPosition interactor1 in
              let dualRayPosition :=
                Vec3.uniformScale (Vec3.add firstRayPosition secondRayPosition)
                                  (5 / 10) in
              let this :=
                withOffsetPosition
                  (Vec3.sub dualRayPosition interactorMidPoint) this in
              (withHitPointToTransform
                 (Vec3.sub (position (startTransform this)) dualRayPosition)
                 this, log)
        end
  | _ => (this, [])
  end.

(** *** The trigger-toggle handler *)

Definition isTriggerNone (x : InteractorTriggerType) : bool :=
  match x with TriggerNone => true | _ => false end.

Definition targets (id : nat) (interactor : Interactor) : bool :=
  match currentInteractable interactor with
  | Some other => Nat.eqb other id
  | None => false
  end.

(** [filter] never returns [null]: the source's branch on a [null] result
    cannot be taken and is left out. *)
Definition getTriggeringInteractors (env : Env) : list InteractorRef :=
  List.filter
    (fun reference =>
       let interactor := interactorObject env reference in
       targets (interactableId env) interactor
       && negb (isTriggerNone (currentTrigger interactor)))
    (getInteractorsByType env
       (Interactable.triggeringInteractor (interactable env))).

(** The guard that opens both handlers: the component is disabled, or it can
    neither translate nor rotate nor scale. *)
Definition offDuty (this : t) : bool :=
  negb (enabled (config this))
  || (negb (canTranslate this) && negb (canRotate this)
      && negb (canScale this)).

(** The End event set and its log line; the handler has this call at two
    places, with the same arguments. *)
Definition endEvents (h : Host) (wasScaling : bool) (this : t) : list Effect :=
  invokeEvents h (Some onTranslationEnd) (Some onRotationEnd)
               (if wasScaling then Some onScaleEnd else None)
               (Some onManipulationEnd) this
  ++ [LogV "InteractionEvent : On Manipulation End Event"].

(** The Start event set and its log line. *)
Definition startEvents (h : Host) (isScaling : bool) (this : t) : list Effect :=
  invokeEvents h (Some onTranslationStart) (Some onRotationStart)
               (if isScaling then Some onScaleStart else None)
               (Some onManipulationStart) this
  ++ [LogV "InteractionEvent : On Manipulation Start Event"].

Definition onTriggerToggle (h : Host) (env : Env) (this : t)
  : t * list Effect :=
  if offDuty this then (this, [])
  else
    let previousInteractors := interactors this in
    let previousInteractorsCount := List.length previousInteractors in
    let currentInteractors := getTriggeringInteractors env in
    let currentInteractorsCount := List.length currentInteractors in
    let wasManipulating := Nat.ltb 0 previousInteractorsCount in
    let isManipulating := Nat.ltb 0 currentInteractorsCount in
    let countChanged :=
      negb (Nat.eqb previousInteractorsCount currentInteractorsCount) in
    let wasScaling := Nat.eqb previousInteractorsCount 2 in
    let isScaling := Nat.eqb currentInteractorsCount 2 in
    if isManipulating then
      let ended :=
        if wasManipulating && countChanged then endEvents h wasScaling this
        else [] in
      let this := withInteractors currentInteractors this in
      let (this, log) := updateStartValues h env this in
      (this, ended ++ log ++ startEvents h isScaling this)
    else if wasManipulating then
      (withInteractors currentInteractors this, endEvents h wasScaling this)
    else (withInteractors currentInteractors this, []).

(** *** Writing the solved transform *)

(** [newPosition] and [newRotation] are never [null] at the call sites. *)
Definition updatePosition (h : Host) (env : Env) (newPosition : vec3)
    (useFilter : bool) (this : t) : t :=
  let c := config this in
  let newPosition :=
    mkVec3
      (if negb (enableXTranslation c) then vx (getWorldPosition this)
       else vx newPosition)
      (if negb (enableYTranslation c) then vy (getWorldPosition this)
       else vy newPosition)
      (if negb (enableZTranslation c) then vz (getWorldPosition this)
       else vz newPosition) in
  if useFilter then
    let (filtered, memory) :=
      filter (blendVec3 h) Vec3.zero (translateFilter this) newPosition
             (getTime env) in
    setWorldPosition filtered (withTranslateFilter memory this)
  else setWorldPosition newPosition this.

Definition updateRotation (h : Host) (env : Env) (newRotation : quat)
    (useFilter : bool) (this : t) : t :=
  if useFilter then
    let (filtered, memory) :=
      filter (blendQuat h) Quat.quatIdentity (rotationFilter this) newRotation
             (getTime env) in
    setWorldRotation filtered (withRotationFilter memory this)
  else setWorldRotation newRotation this.

Definition isMobile (interactor : Interactor) : bool :=
  negb (Z.eqb (Z.land (inputType interactor) InputType.Mobile) 0).

Definition calculateStretchFactor (env : Env) (interactor : Interactor)
    (this : t) : t * R :=
  if negb (enableStretchZ (config this)) then (this, 1)
  else
    let startPoint := orElse (startPoint interactor) Vec3.zero in
    let interactorDistance := cameraSpaceZ env startPoint * -1 in
    let this :=
      if Num.eqb (startStretchInteractorDistance this) 0
      then withStartStretchInteractorDistance interactorDistance this
      else this in
    let dragAmount := interactorDistance - startStretchInteractorDistance this in
    let maxDragDistance :=
      Rmax MIN_DRAG_DISTANCE_CM
           (maxRaycastDistance interactor - MAX_USER_ARM_EXTENSION_CM) in
    let currDistance := orElse (distanceToTarget interactor) 0 in
    let distanceFactor :=
      zStretchFactorMax (config this) / maxDragDistance * currDistance
      + zStretchFactorMin (config this) in
    let minStretch := - Vec3.length (offsetPosition this) + 1 in
    let maxStretch :=
      Rmax minStretch (- Vec3.length (offsetPosition this) + maxDragDistance - 1) in
    let finalStretchAmount :=
      MathUtils.clamp (dragAmount * distanceFactor) minStretch maxStretch in
    if isMobile interactor then
      let mobileDragVector := orElse (touchpadDragVector interactor) Vec3.zero in
      let mobileMoveAmount :=
        if Num.eqb (vz mobileDragVector) 0
        then vy mobileDragVector * MOBILE_DRAG_MULTIPLIER else 0 in
      let accumulated := mobileStretch this + mobileMoveAmount * distanceFactor in
      let bounded :=
        Rmin (maxStretch - finalStretchAmount)
             (Rmax (minStretch - finalStretchAmount) accumulated) in
      (withMobileStretch bounded this, finalStretchAmount + bounded)
    else (this, finalStretchAmount).

(** [clampUniformScale]: the clamped scale, and whether it is a new object.
    [uniformScale] builds a new vector, so the result is the argument itself
    exactly when neither branch runs; [setScale] compares the two by
    identity. *)
Definition clampUniformScale (scale minScale maxScale : vec3) : vec3 * bool :=
  let minRatio :=
    Num.min3 (vx scale / vx minScale) (vy scale / vy minScale)
             (vz scale / vz minScale) in
  let maxRatio :=
    Num.min3 (vx scale / vx maxScale) (vy scale / vy maxScale)
             (vz scale / vz maxScale) in
  let (finalScale, renewed) :=
    if Num.ltb minRatio 1
    then (Vec3.uniformScale scale (1 / minRatio), true)
    else (scale, false) in
  if Num.ltb 1 maxRatio
  then (Vec3.uniformScale finalScale (1 / maxRatio), true)
  else (finalScale, renewed).

Definition setScale (h : Host) (env : Env) (newScale : vec3)
    (useFilter : bool) (this : t) : t * list Effect :=
  if negb (canScale this) then (this, [])
  else
    let minScale :=
      Vec3.uniformScale (scale (originalLocalTransform this))
                        (minimumScaleFactor (config this)) in
    let maxScale :=
      Vec3.uniformScale (scale (originalLocalTransform this))
                        (maximumScaleFactor (config this)) in
    let (finalScale, renewed) := clampUniformScale newScale minScale maxScale in
    let limit :=
      if renewed
      then [InvokeScaleLimitReached
              (mkScaleLimitArg (interactors this) finalScale)]
      else [] in
    if useFilter then
      let (filtered, memory) :=
        filter (blendVec3 h) Vec3.zero (scaleFilter this) finalScale
               (getTime env) in
      (setLocalScale filtered (withScaleFilter memory this), limit)
    else (setLocalScale finalScale this, limit).

(** *** Per-frame solving *)

Definition isAll (a : RotationAxis.t) : bool :=
  match a with RotationAxis.All => true | _ => false end.

Definition singleInteractorTransform (h : Host) (env : Env)
    (interactor : Interactor) (this : t) : t * list Effect :=
  if negb (isInteractorValid interactor)
  then (this, [LogE "Interactor must be valid"])
  else
    let startPoint := orElse (startPoint interactor) Vec3.zero in
    let orientation := orElse (orientation interactor) Quat.quatIdentity in
    let direction := orElse (direction interactor) Vec3.zero in
    let limitRotation :=
      Quat.multiply (limitQuatRotation h orientation this)
                    (offsetRotation this) in
    let deltaRotation :=
      if isAll (rotationAxis (config this))
      then Quat.multiply limitRotation (Quat.invert (getWorldRotation this))
      else Quat.quatIdentity in
    let (this, deltaRotation) :=
      if enableTranslation (config this) then
        if isDirectMode (cachedTargetingMode this) then
          let newPosition :=
            Vec3.add startPoint
              (if canRotate this
               then Quat.multiplyVec3
                      (Quat.multiply limitRotation
                         (Quat.invert (rotation (startTransform this))))
                      (offsetPosition this)
               else offsetPosition this) in
          (updatePosition h env newPosition (useFilter (config this)) this,
           deltaRotation)
        else
          let smoothedBefore := smoothedStretch this in
          let (this, stretchFactor) :=
            calculateStretchFactor env interactor this in
          let this :=
            withSmoothedStretch
              (MathUtils.lerp smoothedBefore stretchFactor
                              (getDeltaTime env * STRETCH_SMOOTH_SPEED)) this in
          let offset :=
            Vec3.add
              (Vec3.uniformScale direction (Vec3.length (offsetPosition this)))
              (hitPointToTransform this) in
          let newPosition :=
            Vec3.add (Vec3.add startPoint offset)
                     (Vec3.uniformScale direction (smoothedStretch this)) in
          (updatePosition h env newPosition (useFilter (config this)) this,
           Quat.quatIdentity)
      else (this, deltaRotation) in
    if canRotate this && isDirectMode (cachedTargetingMode this)
    then
      let newRotation := Quat.multiply deltaRotation (getWorldRotation this) in
      (updateRotation h env newRotation (useFilter (config this)) this, [])
    else (this, []).

(** The scale block that ends [dualInteractorsTransform]. *)
Definition updatedObjectScale (dualDistance : R) (this : t) : vec3 :=
  let distanceDifference := dualDistance - initialInteractorDistance this in
  let uniformScalingFactor :=
    1 + distanceDifference / initialInteractorDistance this in
  Vec3.uniformScale (initialObjectScale this) uniformScalingFactor.

Definition dualScale (h : Host) (env : Env) (dualDistance : R) (this : t)
  : t * list Effect :=
  if canScale this && negb (Num.eqb (initialInteractorDistance this) 0) then
    let (this, limit) :=
      setScale h env (updatedObjectScale dualDistance this)
               (useFilter (config this)) this in
    (this,
     limit ++ [InvokeScale onScaleUpdate
                 (mkEventArg (interactors this) (scale (startTransform this))
                             (getWorldScale h this))])
  else (this, []).

(** The translation block of [dualInteractorsTransform]. *)
Definition dualTranslation (h : Host) (env : Env)
    (interactor0 interactor1 : Interactor) (interactorMidPoint : vec3)
    (this : t) : t :=
  if enableTranslation (config this) then
    if isDirectMode (cachedTargetingMode this) then
      let newPosition :=
        if canRotate this && isDirectMode (cachedTargetingMode this)
        then Vec3.add interactorMidPoint
               (Quat.multiplyVec3
                  (Quat.multiply (getWorldRotation this)
                     (Quat.invert (rotation (startTransform this))))
                  (offsetPosition this))
        else Vec3.add interactorMidPoint (offsetPosition this) in
      updatePosition h env newPosition (useFilter (config this)) this
    else
      let dualRaycastDistance :=
        (maxRaycastDistance interactor0 + maxRaycastDistance interactor1)
        * (5 / 10) in
      let zDistance :=
        Rmin dualRaycastDistance (Vec3.length (offsetPosition this)) in
      let direction1 := orElse (direction interactor0) Vec3.zero in
      let direction2 := orElse (direction interactor1) Vec3.zero in
      let dualDirection :=
        Vec3.uniformScale (Vec3.add direction1 direction2) (5 / 10) in
      let finalOffset :=
        Vec3.add (Vec3.uniformScale dualDirection zDistance)
                 (hitPointToTransform this) in
      let newPosition := Vec3.add interactorMidPoint finalOffset in
      updatePosition h env newPosition (useFilter (config this)) this
  else this.

(** [dualInteractorsTransform]: [None] when the call throws, which happens
    when the array has fewer than two elements: the complaint is logged and
    then an element that does not exist is dereferenced. *)
Definition dualInteractorsTransform (h : Host) (env : Env)
    (interactors : list InteractorRef) (this : t) : option (t * list Effect) :=
  match interactors with
  | reference0 :: reference1 :: _ =>
      let interactor0 := interactorObject env reference0 in
      let interactor1 := interactorObject env reference1 in
      let complaint :=
        if Nat.ltb (List.length interactors) 2
           || negb (isInteractorValid interactor0)
           || negb (isInteractorValid interactor1)
        then [LogE "There should be two valid interactors for dualInteractorsTransform"]
        else [] in
      match startPoint interactor0, startPoint interactor1 with
      | Some startPoint1, Some startPoint2 =>
          let interactorMidPoint :=
            Vec3.uniformScale (Vec3.add startPoint1 startPoint2) (5 / 10) in
          let '(this, dualDirection, log) :=
            getDualInteractorDirection h interactor0 interactor1 this in
          match dualDirection with
          | None => Some (this, complaint ++ log)
          | Some dualDirection =>
              let dualDistance := Vec3.distance startPoint1 startPoint2 in
              let this :=
                if canRotate this
                then updateRotation h env
                       (Quat.multiply dualDirection (offsetRotation this))
                       (useFilter (config this)) this
                else this in
              let this :=
                dualTranslation h env interactor0 interactor1
                                interactorMidPoint this in
              let (this, scaled) := dualScale h env dualDistance this in
              Some (this, complaint ++ log ++ scaled)
          end
      | _, _ =>
          Some (this,
                complaint
                ++ [LogE "Both start points should be valid for dualInteractorsTransform"])
      end
  | _ => None
  end.

Definition countText (n : nat) : string :=
  NilZero.string_of_uint (Nat.to_uint n).

(** [onTriggerUpdate]: [None] when the call throws. *)
Definition onTriggerUpdate (h : Host) (env : Env) (this : t)
  : option (t * list Effect) :=
  if offDuty this then Some (this, [])
  else
    let updates (r : t * list Effect) :=
      (fst r,
       snd r ++ invokeEvents h (Some onTranslationUpdate)
                  (Some onRotationUpdate) None (Some onManipulationUpdate)
                  (fst r)) in
    match interactors this with
    | [reference] =>
        Some (updates (singleInteractorTransform h env
                         (interactorObject env reference) this))
    | [_; _] =>
        option_map updates
          (dualInteractorsTransform h env (interactors this) this)
    | _ =>
        Some (this,
              [LogW (countText (List.length (interactors this))
                     ++ " interactors found for onTriggerUpdate. This is not supported.")])
    end.

(** The parts of the state that the scale block reads. *)
Definition sameScaleInputs (a b : t) : Prop :=
  config a = config b /\
  interactors a = interactors b /\
  originalLocalTransform a = originalLocalTransform b /\
  startTransform a = startTransform b /\
  initialInteractorDistance a = initialInteractorDistance b /\
  initialObjectScale a = initialObjectScale b /\
  scaleFilter a = scaleFilter b /\
  getLocalScale a = getLocalScale b.

(** *** Construction *)

(** The component after [onAwake]: the field initialisers of the class, the
    root transform cached by [cacheTransform], and three new filters. *)
Definition CachedTransformDefault : CachedTransform :=
  mkCached (compose Vec3.zero Quat.quatIdentity Vec3.one) Vec3.zero
           Quat.quatIdentity Vec3.one.

Definition awake (h : Host) (c : Config) (root : Transform) : t :=
  mk c root
     (mkCached (compose (worldPosition root) (worldRotation root)
                        (worldScaleOf h (localScale root)))
               (worldPosition root) (worldRotation root)
               (worldScaleOf h (localScale root)))
     (mkCached (compose (localPosition root) (localRotation root)
                        (localScale root))
               (localPosition root) (localRotation root) (localScale root))
     CachedTransformDefault
     Vec3.zero Quat.quatIdentity 0 0 0 0 Vec3.zero Vec3.zero []
     TargetingNone 0 Vec3.zero None None None.

(** The states the component can be in: after [onAwake], and after any
    trigger-toggle or trigger-update call that returns. *)
Inductive reachable (h : Host) : t -> Prop :=
| reach_awake : forall c root, reachable h (awake h c root)
| reach_toggle : forall env this,
    reachable h this -> reachable h (fst (onTriggerToggle h env this))
| reach_update : forall env this next effects,
    reachable h this ->
    onTriggerUpdate h env this = Some (next, effects) ->
    reachable h next.

(** *** Reading a list of effects *)

Inductive EventName : Type :=
| Translation (e : TranslateEvent)
| Rotation (e : RotationEvent)
| Scale (e : ScaleEvent)
| Manipulation (e : TransformEvent)
| onScaleLimitReached.

Definition eventCode (n : EventName) : nat :=
  match n with
  | Translation onTranslationStart => 0
  | Translation onTranslationUpdate => 1
  | Translation onTranslationEnd => 2
  | Rotation onRotationStart => 3
  | Rotation onRotationUpdate => 4
  | Rotation onRotationEnd => 5
  | Scale onScaleStart => 6
  | Scale onScaleUpdate => 7
  | Scale onScaleEnd => 8
  | Manipulation onManipulationStart => 9
  | Manipulation onManipulationUpdate => 10
  | Manipulation onManipulationEnd => 11
  | onScaleLimitReached => 12
  end.

Definition eventNameEqb (a b : EventName) : bool :=
  Nat.eqb (eventCode a) (eventCode b).

Definition nameOf (e : Effect) : option EventName :=
  match e with
  | InvokeTranslate n _ => Some (Translation n)
  | InvokeRotation n _ => Some (Rotation n)
  | InvokeScale n _ => Some (Scale n)
  | InvokeTransform n _ => Some (Manipulation n)
  | InvokeScaleLimitReached _ => Some onScaleLimitReached
  | LogE _ | LogW _ | LogV _ => None
  end.

(** How many times the event [n] is invoked in a list of effects. *)
Fixpoint invocations (n : EventName) (effects : list Effect) : nat :=
  match effects with
  | [] => 0
  | e :: rest =>
      match nameOf e with
      | Some n' => if eventNameEqb n n' then 1 else 0
      | None => 0
      end + invocations n rest
  end.

Inductive Phase : Type := Start | Update | End | Limit.

Definition phaseOfName (n : EventName) : Phase :=
  match n with
  | Translation onTranslationStart | Rotation onRotationStart
  | Scale onScaleStart | Manipulation onManipulationStart => Start
  | Translation onTranslationUpdate | Rotation onRotationUpdate
  | Scale onScaleUpdate | Manipulation onManipulationUpdate => Update
  | Translation onTranslationEnd | Rotation onRotationEnd
  | Scale onScaleEnd | Manipulation onManipulationEnd => End
  | onScaleLimitReached => Limit
  end.

(** Every event invoked by [effects] belongs to phase [p]. *)
Definition onlyPhase (p : Phase) (effects : list Effect) : Prop :=
  Forall (fun e => match nameOf e with
                   | Some n => phaseOfName n = p
                   | None => True
                   end) effects.

(** No event is invoked by [effects]: they are log lines. *)
Definition onlyLogs (effects : list Effect) : Prop :=
  Forall (fun e => nameOf e = None) effects.

Definition effectInteractors (e : Effect) : option (list InteractorRef) :=
  match e with
  | InvokeTranslate _ a => Some (argInteractors a)
  | InvokeRotation _ a => Some (argInteractors a)
  | InvokeScale _ a => Some (argInteractors a)
  | InvokeTransform _ a => Some (argInteractors a)
  | InvokeScaleLimitReached a => Some (limitInteractors a)
  | LogE _ | LogW _ | LogV _ => None
  end.

(** Every event invoked by [effects] carries the interactor list [l]. *)
Definition carries (l : list InteractorRef) (effects : list Effect) : Prop :=
  Forall (fun e => match effectInteractors e with
                   | Some l' => l' = l
                   | None => True
                   end) effects.

Definition oneIf (b : bool) : nat := if b then 1 else 0.

End InteractableManipulation.

(** ** Sample data *)

Module Sample.
Local Open Scope R_scope.
Import Interactable.

(** A hand that hovers or triggers and reports no pose. *)
Definition source (inputType : InteractorInputType) : Interactor :=
  mkInteractor inputType Indirect None None None None 0 Pinch (Some 0%nat)
               None None None None true.

Definition leftHand : InteractableEventArgs := mkArgs (source InputType.LeftHand).
Definition rightHand : InteractableEventArgs := mkArgs (source InputType.RightHand).

(** A host for concrete runs: rotations are charted by the vector part of
    their unit quaternion, the root has no parent, and the filters do not
    smooth. *)
Definition host : InteractableManipulation.Host :=
  InteractableManipulation.mkHost
    (fun _ _ => Quat.quatIdentity)
    (fun q => mkVec3 (qx q) (qy q) (qz q))
    (fun v => mkQuat (sqrt (1 - Vec3.dot v v)) (vx v) (vy v) (vz v))
    Quat.quatIdentity
    (fun s => s)
    (fun _ sample _ => (sample, Vec3.zero))
    (fun _ sample _ => (sample, Quat.quatIdentity)).

(** The default inputs of the component. *)
Definition config : InteractableManipulation.Config :=
  InteractableManipulation.mkConfig
    true (25 / 100) 20 true true true true 1 12 true true true true
    InteractableManipulation.RotationAxis.All.

Definition root : InteractableManipulation.Transform :=
  InteractableManipulation.mkTransform
    Vec3.zero Quat.quatIdentity Vec3.zero Quat.quatIdentity Vec3.one.

Definition awake : InteractableManipulation.t :=
  InteractableManipulation.awake host config root.

(** A hand of the given type pinching interactable [0] from [point]. *)
Definition pinching (inputType : InteractorInputType) (mode : TargetingMode)
    (point : vec3) : Interactor :=
  mkInteractor inputType mode (Some point) (Some Quat.quatIdentity)
               (Some Vec3.forward) (Some 0) 500 Pinch (Some 0%nat)
               None None None None true.

(** A frame in which the interactor objects are [hands], referred to by
    their position in the list; the interaction manager reports all of them,
    and all are recorded in the trigger mask of the companion interactable. *)
Definition frame (hands : list Interactor) : InteractableManipulation.Env :=
  InteractableManipulation.mkEnv
    0 (1 / 60) Quat.quatIdentity (fun p => - vz p)
    (mk InputType.None
        (fold_right (fun i m => orIn m (inputType i)) InputType.None hands))
    0%nat
    (fun _ => seq 0 (List.length hands))
    (fun reference => nth reference hands (source InputType.None)).

Definition left : Interactor :=
  pinching InputType.LeftHand Direct (mkVec3 0 0 0).
Definition right : Interactor :=
  pinching InputType.RightHand Direct (mkVec3 10 0 0).
Definition mobile : Interactor :=
  pinching InputType.Mobile Indirect (mkVec3 0 10 0).

(** The right hand moved away from the left one. *)
Definition rightMoved : Interactor :=
  pinching InputType.RightHand Direct (mkVec3 20 0 0).

(** The left hand when its orientation cannot be resolved. *)
Definition leftUnoriented : Interactor :=
  mkInteractor InputType.LeftHand Direct (Some (mkVec3 0 0 0)) None
               (Some Vec3.forward) (Some 0) 500 Pinch (Some 0%nat)
               None None None None true.

(** The component after its first toggle, holding the left hand, and after
    a toggle that observes three hands. *)
Definition holdingLeft : InteractableManipulation.t :=
  fst (InteractableManipulation.onTriggerToggle host (frame [left]) awake).

Definition holdingThree : InteractableManipulation.t :=
  fst (InteractableManipulation.onTriggerToggle host
         (frame [left; right; mobile]) awake).

(** A dual Direct session on the unit root: the component as it stands
    when two hands 10 apart have grabbed the root, with the start transform
    captured, the filters reset, the initial distance 10 and the initial
    object scale [(1, 1, 1)]. *)
Definition grabbedBoth : InteractableManipulation.t :=
  InteractableManipulation.mk
    config root
    (InteractableManipulation.originalWorldTransform awake)
    (InteractableManipulation.originalLocalTransform awake)
    (InteractableManipulation.mkCached
       (InteractableManipulation.compose Vec3.zero Quat.quatIdentity Vec3.one)
       Vec3.zero Quat.quatIdentity Vec3.one)
    (mkVec3 (-5) 0 0) Quat.quatIdentity 10 0 0 0 Vec3.one Vec3.zero
    [0%nat; 1%nat] Direct 0 Vec3.up None None None.

(** The same session on a root whose local scale another script has set to
    [(1, 2, 1)] before the grab; the original local scale, cached by
    [onAwake], is still [(1, 1, 1)]. *)
Definition grabbedStretched : InteractableManipulation.t :=
  InteractableManipulation.mk
    config
    (InteractableManipulation.mkTransform
       Vec3.zero Quat.quatIdentity Vec3.zero Quat.quatIdentity (mkVec3 1 2 1))
    (InteractableManipulation.originalWorldTransform awake)
    (InteractableManipulation.originalLocalTransform awake)
    (InteractableManipulation.mkCached
       (InteractableManipulation.compose Vec3.zero Quat.quatIdentity
          (mkVec3 1 2 1))
       Vec3.zero Quat.quatIdentity (mkVec3 1 2 1))
    (mkVec3 (-5) 0 0) Quat.quatIdentity 10 0 0 0 (mkVec3 1 2 1) Vec3.zero
    [0%nat; 1%nat] Direct 0 Vec3.up None None None.

(** The right hand 160 away from the left one. *)
Definition rightFar : Interactor :=
  pinching InputType.RightHand Direct (mkVec3 160 0 0).

End Sample.

(** ** Sequences of calls on an interactable *)

Module InteractableRuns.
Import Interactable.

(** The seven notifications an interaction manager sends. *)
Inductive Call : Type :=
| HoverEnter (eventArgs : InteractableEventArgs)
| HoverUpdate (eventArgs : InteractableEventArgs)
| HoverExit (eventArgs : InteractableEventArgs)
| TriggerStart (eventArgs : InteractableEventArgs)
| TriggerUpdate (eventArgs : InteractableEventArgs)
| TriggerEnd (eventArgs : InteractableEventArgs)
| TriggerCanceled (eventArgs : InteractableEventArgs).

Definition argsOf (c : Call) : InteractableEventArgs :=
  match c with
  | HoverEnter a | HoverUpdate a | HoverExit a
  | TriggerStart a | TriggerUpdate a | TriggerEnd a | TriggerCanceled a => a
  end.

Definition handle (c : Call) (this : t) : t * list Effect :=
  match c with
  | HoverEnter a => hoverEnter a this
  | HoverUpdate a => hoverUpdate a this
  | HoverExit a => hoverExit a this
  | TriggerStart a => triggerStart a this
  | TriggerUpdate a => triggerUpdate a this
  | TriggerEnd a => triggerEnd a this
  | TriggerCanceled a => triggerCanceled a this
  end.

(** The component after the calls, and everything they emitted, in order. *)
Fixpoint run (calls : list Call) (this : t) : t * list Effect :=
  match calls with
  | [] => (this, [])
  | c :: rest =>
      let (next, effects) := handle c this in
      let (final, later) := run rest next in
      (final, effects ++ later)
  end.

Definition isHoverCall (c : Call) : bool :=
  match c with
  | HoverEnter _ | HoverUpdate _ | HoverExit _ => true
  | _ => false
  end.

Definition isTriggerCall (c : Call) : bool := negb (isHoverCall c).

(** One call of a sequence with the state around it. *)
Record Step : Type := mkStep {
  call : Call;
  before : t;
  after : t;
  emitted : list Effect
}.

Fixpoint steps (calls : list Call) (this : t) : list Step :=
  match calls with
  | [] => []
  | c :: rest =>
      let (next, effects) := handle c this in
      mkStep c this next effects :: steps rest next
  end.

(** No [triggerEnd] of the sequence is made while nothing triggers. *)
Fixpoint endsWhileTriggered (calls : list Call) (this : t) : bool :=
  match calls with
  | [] => true
  | c :: rest =>
      match c with
      | TriggerEnd _ => negb (isNone (triggeringInteractor this))
      | _ => true
      end && endsWhileTriggered rest (fst (handle c this))
  end.

Definition callsFromSources (calls : list Call) : Prop :=
  Forall (fun c => inputType (interactor (argsOf c)) <> InputType.None) calls.

(** How many drag events of any name a list of effects invokes. *)
Definition dragEvents (effects : list Effect) : nat :=
  dragInvocations onDragStart effects + dragInvocations onDragUpdate effects
  + dragInvocations onDragEnd effects.

(** What a step owes the aggregate trigger events: a cancellation empties the
    mask and invokes [onTriggerCanceled] but neither aggregate event; any
    other call invokes [onTriggerStart] once if it moves the trigger mask from
    [None] to non-[None], [onTriggerEnd] once if it moves it from non-[None]
    to [None], and neither otherwise. *)
Definition triggerAggregateMatches (s : Step) : Prop :=
  let maskBefore := triggeringInteractor (before s) in
  let maskAfter := triggeringInteractor (after s) in
  match call s with
  | TriggerCanceled _ =>
      maskAfter = InputType.None /\
      invocations onTriggerCanceled (emitted s) = 1 /\
      invocations onTriggerStart (emitted s) = 0 /\
      invocations onTriggerEnd (emitted s) = 0
  | _ =>
      invocations onTriggerCanceled (emitted s) = 0 /\
      invocations onTriggerStart (emitted s)
        = oneIf (isNone maskBefore && negb (isNone maskAfter)) /\
      invocations onTriggerEnd (emitted s)
        = oneIf (negb (isNone maskBefore) && isNone maskAfter)
  end.

(** The drag event a call owes, read off the interactor alone. *)
Definition dragOwed (c : Call) : option DragEventName :=
  match c with
  | TriggerUpdate a =>
      match currentDragVector (interactor a),
            previousDragVector (interactor a) with
      | Some _, None => Some onDragStart
      | Some _, Some _ => Some onDragUpdate
      | None, _ => None
      end
  | TriggerEnd a | TriggerCanceled a =>
      match previousDragVector (interactor a) with
      | Some _ => Some onDragEnd
      | None => None
      end
  | _ => None
  end.

Definition owes (c : Call) (e : DragEventName) : bool :=
  match dragOwed c with
  | Some e' => dragEventEqb e e'
  | None => false
  end.

End InteractableRuns.

(** ** Sequences of calls on a manipulation component *)

Module ManipulationRuns.
Import InteractableManipulation OneEuro.
Local Open Scope R_scope.

(** The two handlers the component subscribes: the trigger-toggle handler
    (on interactor trigger start, trigger end and trigger canceled) and the
    trigger-update handler, each in the frame it runs in. *)
Inductive Call : Type :=
| CallToggle (env : Env)
| CallUpdate (env : Env).

(** A call that throws is abandoned: the component stays as it is. *)
Definition handle (h : Host) (c : Call) (this : t) : t * list Effect :=
  match c with
  | CallToggle env => onTriggerToggle h env this
  | CallUpdate env =>
      match onTriggerUpdate h env this with
      | Some result => result
      | None => (this, [])
      end
  end.

Fixpoint run (h : Host) (calls : list Call) (this : t) : t * list Effect :=
  match calls with
  | [] => (this, [])
  | c :: rest =>
      let (next, effects) := handle h c this in
      let (final, later) := run h rest next in
      (final, effects ++ later)
  end.

(** [wasManipulating] and [isManipulating] of the toggle handler. *)
Definition manipulating (this : t) : bool :=
  Nat.ltb 0 (List.length (interactors this)).

(** [resetPosition()] and [resetRotation()], with the default [local = false],
    and [resetScale(true)]. *)
Definition resetPosition (this : t) : t :=
  setWorldPosition (position (originalWorldTransform this)) this.

Definition resetRotation (this : t) : t :=
  setWorldRotation (rotation (originalWorldTransform this)) this.

Definition resetScaleLocal (this : t) : t :=
  setLocalScale (scale (originalLocalTransform this)) this.

(** What a manipulation session holds from its start to its end: the inputs,
    the interactors, the cached transforms and the grab offsets. *)
Definition sameSession (a b : t) : Prop :=
  config a = config b /\
  interactors a = interactors b /\
  originalWorldTransform a = originalWorldTransform b /\
  originalLocalTransform a = originalLocalTransform b /\
  startTransform a = startTransform b /\
  offsetPosition a = offsetPosition b /\
  offsetRotation a = offsetRotation b /\
  hitPointToTransform a = hitPointToTransform b /\
  initialInteractorDistance a = initialInteractorDistance b /\
  initialObjectScale a = initialObjectScale b /\
  cachedTargetingMode a = cachedTargetingMode b.

(** The capability an event belongs to is turned on. *)
Definition capabilityOn (this : t) (n : EventName) : bool :=
  match n with
  | Translation _ => canTranslate this
  | Rotation _ => canRotate this
  | Scale _ | onScaleLimitReached => canScale this
  | Manipulation _ => canTranslate this || canRotate this || canScale this
  end.

(** Every event invoked by [effects] belongs to a capability that is on. *)
Definition withinCapabilities (this : t) (effects : list Effect) : Prop :=
  Forall (fun e => match nameOf e with
                   | Some n => capabilityOn this n = true
                   | None => True
                   end) effects.

(** Every event invoked by [effects] is an update or the scale limit. *)
Definition onlyUpdates (effects : list Effect) : Prop :=
  Forall (fun e => match nameOf e with
                   | Some n => phaseOfName n = Update \/ phaseOfName n = Limit
                   | None => True
                   end) effects.

(** An axis of translation that is locked has the same coordinate before
    and after. *)
Definition keepsLockedAxes (c : Config) (before after : vec3) : Prop :=
  (enableXTranslation c = false -> vx after = vx before) /\
  (enableYTranslation c = false -> vy after = vy before) /\
  (enableZTranslation c = false -> vz after = vz before).

(** What a step from [this] to [next] keeps: the session, and each part of
    the root transform whose capability is off; with the filter off, each
    locked coordinate too. *)
Definition partsKept (this next : t) : Prop :=
  sameSession next this /\
  (canTranslate this = false ->
   getWorldPosition next = getWorldPosition this) /\
  (canRotate this = false -> getWorldRotation next = getWorldRotation this) /\
  (canScale this = false -> getLocalScale next = getLocalScale this) /\
  (useFilter (config this) = false ->
   keepsLockedAxes (config this) (getWorldPosition this)
                   (getWorldPosition next)).

End ManipulationRuns.

(** ** Sample sessions with part of the component turned off *)

Module Scenes.
Import InteractableManipulation.
Local Open Scope R_scope.

(** Translation only, unfiltered. *)
Definition translateOnly : Config :=
  mkConfig true (25 / 100) 20 true false false true 1 12 false true true true
           RotationAxis.All.

(** Everything on, unfiltered, with translation along [x] locked. *)
Definition lockedX : Config :=
  mkConfig true (25 / 100) 20 true true true true 1 12 false false true true
           RotationAxis.All.

(** Rotation and scale only. *)
Definition inPlace : Config :=
  mkConfig true (25 / 100) 20 false true true true 1 12 true true true true
           RotationAxis.All.

(** Everything on, with rotation constrained to the [y] axis. *)
Definition aboutY : Config :=
  mkConfig true (25 / 100) 20 true true true true 1 12 true true true true
           RotationAxis.Y.

(** Everything on but the stretch along the ray. *)
Definition rigid : Config :=
  mkConfig true (25 / 100) 20 true true true false 1 12 true true true true
           RotationAxis.All.

(** Enabled, with the three capabilities off. *)
Definition idle : Config :=
  mkConfig true (25 / 100) 20 false false false true 1 12 true true true true
           RotationAxis.All.

(** The component after its first toggle on the left hand. *)
Definition held (c : Config) : t :=
  fst (onTriggerToggle Sample.host (Sample.frame [Sample.left])
         (awake Sample.host c Sample.root)).

(** The component after its first toggle on the right hand, which pinches
    directly from [(10, 0, 0)]. *)
Definition holdingRight : t :=
  fst (onTriggerToggle Sample.host (Sample.frame [Sample.right])
         Sample.awake).

(** The left hand moved to [(3, 4, 5)]. *)
Definition leftMoved : Interactor :=
  Sample.pinching InputType.LeftHand Direct (mkVec3 3 4 5).

(** The left hand pointing from afar. *)
Definition leftPointing : Interactor :=
  Sample.pinching InputType.LeftHand Indirect (mkVec3 0 0 0).

End Scenes.

(* ================================================================== *)
(** * Part II: properties *)
(* ================================================================== *)

(** ** Interactable *)

Module InteractableFacts.
Import Interactable.

Lemma isNone_true (m : InteractorInputType) : isNone m = true <-> m = InputType.None.
Proof. unfold isNone. apply Z.eqb_eq. Qed.

Lemma isNone_false (m : InteractorInputType) : isNone m = false <-> m <> InputType.None.
Proof. unfold isNone. apply Z.eqb_neq. Qed.

(** OR-ing a real source into a mask leaves a non-empty mask. *)
Lemma orIn_occupied (m b : InteractorInputType) :
  b <> InputType.None -> isNone (orIn m b) = false.
Proof.
  intros Hb. apply isNone_false. unfold orIn, InputType.None in *.
  intros H. apply Z.lor_eq_0_iff in H. tauto.
Qed.

(** Clearing bits of the empty mask leaves it empty. *)
Lemma andNot_of_None (b : InteractorInputType) :
  andNot InputType.None b = InputType.None.
Proof. unfold andNot, InputType.None. apply Z.land_0_l. Qed.

Lemma hoverEnter_step (a : InteractableEventArgs) (this : t) :
  inputType (interactor a) <> InputType.None ->
  let (next, effects) := hoverEnter a this in
  aggregateMatchesTransition
    (mkStep (hoveringInteractor this) (hoveringInteractor next) effects).
Proof.
  intros Hsrc. unfold hoverEnter, aggregateMatchesTransition,
    entersOccupancy, leavesOccupancy. cbn [maskBefore maskAfter emitted hoveringInteractor].
  rewrite (orIn_occupied _ Hsrc).
  destruct (isNone (hoveringInteractor this)); cbn; auto.
Qed.

Lemma hoverExit_step (a : InteractableEventArgs) (this : t) :
  isNone (hoveringInteractor this) = false ->
  let (next, effects) := hoverExit a this in
  aggregateMatchesTransition
    (mkStep (hoveringInteractor this) (hoveringInteractor next) effects).
Proof.
  intros Hocc. unfold hoverExit, aggregateMatchesTransition,
    entersOccupancy, leavesOccupancy. cbn [maskBefore maskAfter emitted hoveringInteractor].
  rewrite Hocc.
  destruct (isNone (andNot _ _)); cbn; auto.
Qed.

(** C1, as amended.  In every sequence of [hoverEnter] and [hoverExit] calls
    made by real sources (input type not [None]) in which no [hoverExit] is
    made while the hover mask is [None], from any starting mask, each call
    invokes the aggregate [onHoverEnter] once if it moves the mask from [None]
    to non-[None] and not at all otherwise, and invokes the aggregate
    [onHoverExit] once if it moves the mask from non-[None] to [None] and not
    at all otherwise. *)
Theorem hover_aggregate_once_per_transition :
  forall (calls : list HoverCall) (this : t),
    fromSources calls ->
    exitsWhileHovered calls this = true ->
    Forall aggregateMatchesTransition (hoverRun calls this).
Proof.
  induction calls as [|c rest IH]; intros this Hsrc Hexit; cbn [hoverRun].
  - constructor.
  - inversion Hsrc as [|? ? Hc Hrest]; subst.
    cbn [exitsWhileHovered] in Hexit. apply andb_prop in Hexit.
    destruct Hexit as [Hnow Hlater].
    destruct (hoverCall c this) as [next effects] eqn:Hcall.
    cbn [fst] in Hlater. constructor.
    + destruct c as [a|a]; cbn [hoverCall callArgs] in *.
      * pose proof (hoverEnter_step a this Hc) as H. rewrite Hcall in H. exact H.
      * apply negb_true_iff in Hnow.
        pose proof (hoverExit_step a this Hnow) as H. rewrite Hcall in H. exact H.
    + apply IH; assumption.
Qed.

(** A sequence to which the theorem applies: both hands enter, then both
    leave. *)
Lemma hover_aggregate_once_per_transition_witness :
  Forall aggregateMatchesTransition
    (hoverRun [CallHoverEnter Sample.leftHand; CallHoverEnter Sample.rightHand;
               CallHoverExit Sample.leftHand; CallHoverExit Sample.rightHand]
              initial).
Proof.
  apply hover_aggregate_once_per_transition.
  - repeat constructor; cbn; discriminate.
  - reflexivity.
Defined.

(** C1 as stated fails: a [hoverExit] on an interactable that nothing hovers
    invokes the aggregate [onHoverExit] although the mask stays [None]. *)
Lemma hover_exit_fires_without_transition :
  fromSources [CallHoverExit Sample.leftHand] /\
  ~ Forall aggregateMatchesTransition
      (hoverRun [CallHoverExit Sample.leftHand] initial).
Proof.
  split.
  - repeat constructor; cbn; discriminate.
  - intros H. inversion H as [|? ? [_ Hexit] _]; subst.
    cbn in Hexit. discriminate.
Qed.

(** C5.  Whatever the trigger mask holds, [triggerCanceled] leaves it [None]
    (the whole mask, not only the caller's bit) and the hover mask untouched;
    it invokes [onTriggerCanceled] once, first, and then evaluates drag end:
    [onDragEnd] is invoked, once and with the previous drag vector, exactly
    when the calling interactor's [previousDragVector] is not [null]. *)
Theorem triggerCanceled_resets_whole_mask :
  forall (a : InteractableEventArgs) (this : t),
    let next := fst (triggerCanceled a this) in
    let effects := snd (triggerCanceled a this) in
    triggeringInteractor next = InputType.None /\
    hoveringInteractor next = hoveringInteractor this /\
    effects =
      [Invoke onTriggerCanceled a;
       LogV "InteractionEvent : On Trigger Canceled Event"] ++ dragEnd a /\
    invocations onTriggerCanceled effects = 1%nat /\
    dragInvocations onDragEnd effects
      = oneIf (match previousDragVector (interactor a) with
               | Some _ => true | None => false end) /\
    (forall previous, previousDragVector (interactor a) = Some previous ->
       In (InvokeDrag onDragEnd a previous
             (planecastDragVector (interactor a))) effects).
Proof.
  intros a this. unfold triggerCanceled, dragEnd. cbn [fst snd triggeringInteractor hoveringInteractor].
  repeat split.
  - destruct (previousDragVector (interactor a)); reflexivity.
  - destruct (previousDragVector (interactor a)); reflexivity.
  - intros previous ->. cbn. auto.
Qed.

(** C6, the code at the failing input.  On an interactable whose trigger mask
    is [None], [triggerUpdate] still invokes [onTriggerUpdate] (and a drag
    event when the interactor reports a drag vector), whereas [hoverUpdate]
    on an interactable whose hover mask is [None] does nothing. *)
Theorem triggerUpdate_has_no_guard :
  forall (a : InteractableEventArgs),
    triggeringInteractor initial = InputType.None /\
    hoveringInteractor initial = InputType.None /\
    hoverUpdate a initial = (initial, []) /\
    triggerUpdate a initial
      = (initial, Invoke onTriggerUpdate a :: dragStartOrUpdate a) /\
    invocations onTriggerUpdate (snd (triggerUpdate a initial)) = 1%nat /\
    invokesNothing (snd (triggerUpdate a initial)) = false.
Proof.
  intros a. repeat split.
  unfold triggerUpdate, dragStartOrUpdate. cbn [snd].
  destruct (currentDragVector (interactor a)); [|reflexivity].
  destruct (previousDragVector (interactor a)); reflexivity.
Qed.

End InteractableFacts.

(** ** InteractableManipulation: the trigger-toggle handler *)

Module ToggleFacts.
Import InteractableManipulation OneEuro.
Local Open Scope R_scope.

Ltac split_branches :=
  repeat match goal with
         | |- context [match ?x with _ => _ end] => destruct x eqn:?
         end.

(** What [getDualInteractorDirection] leaves alone: everything but the
    persisted up vector and sign. *)
Lemma getDualInteractorDirection_frame h i1 i2 this :
  let next := fst (fst (getDualInteractorDirection h i1 i2 this)) in
  config next = config this /\ interactors next = interactors this /\
  manipulateRoot next = manipulateRoot this /\
  originalLocalTransform next = originalLocalTransform this /\
  startTransform next = startTransform this /\
  translateFilter next = translateFilter this /\
  rotationFilter next = rotationFilter this /\
  scaleFilter next = scaleFilter this /\
  offsetPosition next = offsetPosition this /\
  offsetRotation next = offsetRotation this /\
  initialInteractorDistance next = initialInteractorDistance this /\
  initialObjectScale next = initialObjectScale this /\
  cachedTargetingMode next = cachedTargetingMode this /\
  hitPointToTransform next = hitPointToTransform this /\
  mobileStretch next = mobileStretch this /\
  smoothedStretch next = smoothedStretch this /\
  startStretchInteractorDistance next = startStretchInteractorDistance this.
Proof.
  unfold getDualInteractorDirection.
  destruct (startPoint i1), (startPoint i2); cbn; try tauto.
  destruct (rotationAxis (config this)); cbn;
    match goal with
    | |- context [Num.eqb ?a ?b] => destruct (Num.eqb a b)
    end; cbn; tauto.
Qed.

Lemma getDualInteractorDirection_logs h i1 i2 this :
  onlyLogs (snd (getDualInteractorDirection h i1 i2 this)).
Proof.
  unfold getDualInteractorDirection, onlyLogs.
  destruct (startPoint i1), (startPoint i2); cbn; repeat constructor.
  destruct (rotationAxis (config this)); cbn; constructor.
Qed.

(** [updateStartValues] resets the three filters and the stretch state and
    recaptures [startTransform]; it leaves the inputs, the interactor list and
    the root transform alone. *)
Lemma updateStartValues_frame h env this :
  let next := fst (updateStartValues h env this) in
  config next = config this /\ interactors next = interactors this /\
  manipulateRoot next = manipulateRoot this /\
  originalLocalTransform next = originalLocalTransform this /\
  translateFilter next = None /\ rotationFilter next = None /\
  scaleFilter next = None /\ startTransform next = snapshot h this /\
  mobileStretch next = 0 /\ smoothedStretch next = 0 /\
  startStretchInteractorDistance next = 0.
Proof.
  unfold updateStartValues.
  cbn [interactors withStartTransform withScaleFilter withRotationFilter
       withTranslateFilter withStartStretchInteractorDistance
       withSmoothedStretch withMobileStretch].
  destruct (interactors this) as [|i0 [|i1 [|i2 rest]]] eqn:Hlist; cbn.
  - repeat split; assumption.
  - split_branches; cbn; repeat split; assumption.
  - destruct (negb (isInteractorValid (interactorObject env i0))
              || negb (isInteractorValid (interactorObject env i1)));
      cbn; [repeat split; assumption|].
    match goal with
    | |- context [getDualInteractorDirection ?h ?a ?b ?s] =>
        pose proof (getDualInteractorDirection_frame h a b s) as F;
        destruct (getDualInteractorDirection h a b s) as [[s' d] l]
    end.
    cbn in F. decompose [and] F. clear F.
    split_branches; cbn; repeat split; try congruence;
      (etransitivity; [eassumption|reflexivity]).
  - repeat split; assumption.
Qed.

Lemma updateStartValues_logs h env this :
  onlyLogs (snd (updateStartValues h env this)).
Proof.
  unfold updateStartValues.
  cbn [interactors withStartTransform withScaleFilter withRotationFilter
       withTranslateFilter withStartStretchInteractorDistance
       withSmoothedStretch withMobileStretch].
  destruct (interactors this) as [|i0 [|i1 [|i2 rest]]]; cbn;
    try (constructor; fail).
  - split_branches; cbn; repeat constructor.
  - destruct (negb (isInteractorValid (interactorObject env i0))
              || negb (isInteractorValid (interactorObject env i1)));
      cbn; [repeat constructor|].
    match goal with
    | |- context [getDualInteractorDirection ?h ?a ?b ?s] =>
        pose proof (getDualInteractorDirection_logs h a b s) as L;
        destruct (getDualInteractorDirection h a b s) as [[s' d] l]
    end.
    cbn in L. split_branches; cbn; exact L.
Qed.

Lemma offDuty_false this :
  offDuty this = false ->
  enabled (config this) = true /\
  (canTranslate this || canRotate this || canScale this) = true.
Proof.
  unfold offDuty.
  destruct (enabled (config this)), (canTranslate this), (canRotate this),
    (canScale this); cbn; intros; try discriminate; auto.
Qed.

(** The End event set: translation, rotation and manipulation end as far as
    the capability is enabled, and scale end only out of a dual
    configuration; nothing of another phase; the interactors of [this]. *)
Lemma endEvents_set h wasScaling this :
  let effects := endEvents h wasScaling this in
  invocations (Translation onTranslationEnd) effects
    = oneIf (canTranslate this) /\
  invocations (Rotation onRotationEnd) effects = oneIf (canRotate this) /\
  invocations (Scale onScaleEnd) effects
    = oneIf (canScale this && wasScaling) /\
  invocations (Manipulation onManipulationEnd) effects
    = oneIf (canTranslate this || canRotate this || canScale this) /\
  onlyPhase End effects /\
  carries (interactors this) effects.
Proof.
  unfold endEvents, invokeEvents, onlyPhase, carries.
  destruct wasScaling, (canTranslate this), (canRotate this), (canScale this);
    cbn; repeat split; repeat constructor.
Qed.

Lemma startEvents_set h isScaling this :
  let effects := startEvents h isScaling this in
  invocations (Translation onTranslationStart) effects
    = oneIf (canTranslate this) /\
  invocations (Rotation onRotationStart) effects = oneIf (canRotate this) /\
  invocations (Scale onScaleStart) effects
    = oneIf (canScale this && isScaling) /\
  invocations (Manipulation onManipulationStart) effects
    = oneIf (canTranslate this || canRotate this || canScale this) /\
  onlyPhase Start effects /\
  carries (interactors this) effects.
Proof.
  unfold startEvents, invokeEvents, onlyPhase, carries.
  destruct isScaling, (canTranslate this), (canRotate this), (canScale this);
    cbn; repeat split; repeat constructor.
Qed.

(** The handler on a component that is on duty and observes at least one
    triggering interactor. *)
Lemma onTriggerToggle_manipulating h env this :
  offDuty this = false ->
  getTriggeringInteractors env <> [] ->
  let previous := List.length (interactors this) in
  let current := getTriggeringInteractors env in
  let restart := updateStartValues h env (withInteractors current this) in
  onTriggerToggle h env this =
    (fst restart,
     (if Nat.ltb 0 previous && negb (Nat.eqb previous (List.length current))
      then endEvents h (Nat.eqb previous 2) this else [])
     ++ snd restart
     ++ startEvents h (Nat.eqb (List.length current) 2) (fst restart)).
Proof.
  intros Hduty Hsome. unfold onTriggerToggle. rewrite Hduty.
  destruct (getTriggeringInteractors env) as [|i rest] eqn:Hcur;
    [congruence|].
  cbn [List.length Nat.ltb Nat.leb].
  destruct (updateStartValues h env (withInteractors (i :: rest) this))
    as [next log]; reflexivity.
Qed.

Lemma offDuty_config a b : config a = config b -> offDuty a = offDuty b.
Proof.
  unfold offDuty, canTranslate, canRotate, canScale. intros ->. reflexivity.
Qed.

(** At a single valid Direct interactor, [updateStartValues] captures the
    grab offsets from the root transform and the interactor pose. *)
Lemma updateStartValues_single_direct h env this reference interactor p o :
  interactors this = [reference] ->
  interactorObject env reference = interactor ->
  isInteractorValid interactor = true ->
  startPoint interactor = Some p ->
  orientation interactor = Some o ->
  activeTargetingMode interactor = Direct ->
  let next := fst (updateStartValues h env this) in
  cachedTargetingMode next = Direct /\
  offsetPosition next = Vec3.sub (getWorldPosition this) p /\
  offsetRotation next = Quat.multiply (Quat.invert o) (getWorldRotation this).
Proof.
  intros Hlist Hobject Hvalid Hp Ho Hmode. unfold updateStartValues.
  cbn [interactors withStartTransform withScaleFilter withRotationFilter
       withTranslateFilter withStartStretchInteractorDistance
       withSmoothedStretch withMobileStretch].
  rewrite Hlist. cbn zeta. rewrite Hobject, Hvalid, Hmode, Hp, Ho. cbn.
  repeat split.
Qed.

(** The restart of a toggle: [updateStartValues] on the observed list. *)
Lemma restart_facts h env this current :
  let restart := updateStartValues h env (withInteractors current this) in
  config (fst restart) = config this /\
  (onlyLogs (snd restart) /\
   interactors (fst restart) = current /\
   startTransform (fst restart) = snapshot h this /\
   translateFilter (fst restart) = None /\
   rotationFilter (fst restart) = None /\
   scaleFilter (fst restart) = None).
Proof.
  intros restart.
  pose proof (updateStartValues_frame h env (withInteractors current this))
    as F. cbn zeta in F. fold restart in F.
  destruct F as (Fc & Fi & _ & _ & Ft & Fr & Fs & Fst & _).
  cbn [config interactors withInteractors] in Fc, Fi.
  repeat split; try assumption. apply updateStartValues_logs.
Qed.

(** The Start event set of a component that is on duty. *)
Lemma startEvents_on_duty h isScaling this next current :
  offDuty this = false ->
  config next = config this ->
  interactors next = current ->
  let begun := startEvents h isScaling next in
  invocations (Translation onTranslationStart) begun
    = oneIf (canTranslate this) /\
  invocations (Rotation onRotationStart) begun = oneIf (canRotate this) /\
  invocations (Scale onScaleStart) begun
    = oneIf (canScale this && isScaling) /\
  invocations (Manipulation onManipulationStart) begun = 1%nat /\
  onlyPhase Start begun /\ carries current begun.
Proof.
  intros Hduty Hc Hi begun.
  destruct (offDuty_false this Hduty) as [_ Hany].
  pose proof (startEvents_set h isScaling next) as S.
  cbn zeta in S. fold begun in S.
  unfold canTranslate, canRotate, canScale in *.
  rewrite Hc, Hi in S. rewrite Hany in S. exact S.
Qed.

(** C2.  On a component that is on duty, a trigger toggle that takes the
    interactor count from 1 to 2 or from 2 to 1 emits, in this order: the End
    event set of the outgoing configuration (translation, rotation and
    manipulation end as far as enabled, scale end only if the outgoing count
    is 2), carrying the outgoing interactors; the log lines of
    [updateStartValues], which recomputes the start values; the Start event
    set of the incoming configuration (scale start only if the incoming
    count is 2), carrying the incoming interactors.  The interactor list goes
    from the outgoing list to the incoming one without being empty in
    between. *)
Theorem toggle_between_single_and_dual :
  forall h env this,
    offDuty this = false ->
    let previous := interactors this in
    let current := getTriggeringInteractors env in
    (List.length previous = 1%nat /\ List.length current = 2%nat) \/
    (List.length previous = 2%nat /\ List.length current = 1%nat) ->
    let restart := updateStartValues h env (withInteractors current this) in
    let ended := endEvents h (Nat.eqb (List.length previous) 2) this in
    let begun :=
      startEvents h (Nat.eqb (List.length current) 2) (fst restart) in
    onTriggerToggle h env this = (fst restart, ended ++ snd restart ++ begun) /\
    (invocations (Translation onTranslationEnd) ended
       = oneIf (canTranslate this) /\
     invocations (Rotation onRotationEnd) ended = oneIf (canRotate this) /\
     invocations (Scale onScaleEnd) ended
       = oneIf (canScale this && Nat.eqb (List.length previous) 2) /\
     invocations (Manipulation onManipulationEnd) ended = 1%nat /\
     onlyPhase End ended /\ carries previous ended) /\
    (onlyLogs (snd restart) /\
     interactors (fst restart) = current /\
     startTransform (fst restart) = snapshot h this /\
     translateFilter (fst restart) = None /\
     rotationFilter (fst restart) = None /\
     scaleFilter (fst restart) = None) /\
    (invocations (Translation onTranslationStart) begun
       = oneIf (canTranslate this) /\
     invocations (Rotation onRotationStart) begun = oneIf (canRotate this) /\
     invocations (Scale onScaleStart) begun
       = oneIf (canScale this && Nat.eqb (List.length current) 2) /\
     invocations (Manipulation onManipulationStart) begun = 1%nat /\
     onlyPhase Start begun /\ carries current begun).
Proof.
  intros h env this Hduty previous current Hcount restart ended begun.
  assert (Hsome : getTriggeringInteractors env <> []).
  { fold current. destruct current; cbn in Hcount; [|discriminate].
    destruct Hcount as [[_ H]|[_ H]]; discriminate. }
  pose proof (onTriggerToggle_manipulating h env this Hduty Hsome) as Hrun.
  cbn zeta in Hrun. fold current previous restart in Hrun.
  assert (Hchanged : Nat.ltb 0 (List.length previous)
                     && negb (Nat.eqb (List.length previous)
                                      (List.length current)) = true).
  { destruct Hcount as [[-> ->]|[-> ->]]; reflexivity. }
  rewrite Hchanged in Hrun.
  destruct (offDuty_false this Hduty) as [_ Hany].
  destruct (restart_facts h env this current) as [Fc F].
  fold restart in Fc, F.
  pose proof (endEvents_set h (Nat.eqb (List.length previous) 2) this) as E.
  cbn zeta in E. fold ended in E. rewrite Hany in E.
  split; [exact Hrun|]. split; [exact E|]. split; [exact F|].
  destruct F as (_ & Fi & _).
  apply startEvents_on_duty; assumption.
Qed.

Lemma toggle_between_single_and_dual_witness :
  offDuty Sample.holdingLeft = false /\
  List.length (interactors Sample.holdingLeft) = 1%nat /\
  List.length (getTriggeringInteractors
                 (Sample.frame [Sample.left; Sample.right])) = 2%nat /\
  invocations (Scale onScaleStart)
    (startEvents Sample.host true
       (fst (updateStartValues Sample.host
               (Sample.frame [Sample.left; Sample.right])
               (withInteractors [0%nat; 1%nat] Sample.holdingLeft))))
  = 1%nat.
Proof.
  assert (Hduty : offDuty Sample.holdingLeft = false) by reflexivity.
  assert (Hone : List.length (interactors Sample.holdingLeft) = 1%nat)
    by reflexivity.
  assert (Htwo : List.length (getTriggeringInteractors
                                (Sample.frame [Sample.left; Sample.right]))
                 = 2%nat) by reflexivity.
  repeat split; try assumption.
  destruct (toggle_between_single_and_dual Sample.host
              (Sample.frame [Sample.left; Sample.right]) Sample.holdingLeft
              Hduty (or_introl (conj Hone Htwo)))
    as (_ & _ & _ & (_ & _ & Hscale & _)).
  exact Hscale.
Defined.


(** A toggle that observes the list the component already holds. *)
Lemma onTriggerToggle_again h env this :
  offDuty this = false ->
  getTriggeringInteractors env <> [] ->
  interactors this = getTriggeringInteractors env ->
  onTriggerToggle h env this =
    (fst (updateStartValues h env
            (withInteractors (getTriggeringInteractors env) this)),
     snd (updateStartValues h env
            (withInteractors (getTriggeringInteractors env) this))
     ++ startEvents h
          (Nat.eqb (List.length (getTriggeringInteractors env)) 2)
          (fst (updateStartValues h env
                  (withInteractors (getTriggeringInteractors env) this)))).
Proof.
  intros Hduty Hsome Hsame. unfold onTriggerToggle. rewrite Hduty, Hsame.
  destruct (getTriggeringInteractors env) as [|i rest] eqn:Hcur;
    [congruence|].
  rewrite Nat.eqb_refl, andb_false_r.
  cbn [List.length Nat.ltb Nat.leb negb app].
  destruct (updateStartValues h env (withInteractors (i :: rest) this))
    as [next log]; reflexivity.
Qed.

(** The restart of a session.  On a component that is on duty, a trigger
    toggle that observes a non-empty set of triggering interactors re-runs
    [updateStartValues] on the observed list (the three filters are reset,
    [startTransform] is recaptured from the root, and at a valid Direct
    interactor the grab offsets are recaptured) and then emits the full Start
    event set, also when the count is unchanged.  The End event set comes
    first only when the component was manipulating and the count changed; a
    second toggle under the same observation emits a second Start set with no
    End event. *)
Lemma onTriggerToggle_restart :
  forall h env this,
    offDuty this = false ->
    getTriggeringInteractors env <> [] ->
    let previous := List.length (interactors this) in
    let current := getTriggeringInteractors env in
    let restart := updateStartValues h env (withInteractors current this) in
    let begun :=
      startEvents h (Nat.eqb (List.length current) 2) (fst restart) in
    onTriggerToggle h env this =
      (fst restart,
       (if Nat.ltb 0 previous && negb (Nat.eqb previous (List.length current))
        then endEvents h (Nat.eqb previous 2) this else [])
       ++ snd restart ++ begun) /\
    (onlyLogs (snd restart) /\
     interactors (fst restart) = current /\
     startTransform (fst restart) = snapshot h this /\
     translateFilter (fst restart) = None /\
     rotationFilter (fst restart) = None /\
     scaleFilter (fst restart) = None) /\
    (forall reference interactor p o,
       current = [reference] ->
       interactorObject env reference = interactor ->
       isInteractorValid interactor = true ->
       startPoint interactor = Some p ->
       orientation interactor = Some o ->
       activeTargetingMode interactor = Direct ->
       offsetPosition (fst restart) = Vec3.sub (getWorldPosition this) p /\
       offsetRotation (fst restart)
         = Quat.multiply (Quat.invert o) (getWorldRotation this)) /\
    (invocations (Translation onTranslationStart) begun
       = oneIf (canTranslate this) /\
     invocations (Rotation onRotationStart) begun = oneIf (canRotate this) /\
     invocations (Scale onScaleStart) begun
       = oneIf (canScale this && Nat.eqb (List.length current) 2) /\
     invocations (Manipulation onManipulationStart) begun = 1%nat /\
     onlyPhase Start begun /\ carries current begun) /\
    (exists again log,
       onTriggerToggle h env (fst restart)
         = (again,
            log ++ startEvents h (Nat.eqb (List.length current) 2) again) /\
       onlyLogs log /\
       invocations (Manipulation onManipulationStart)
         (startEvents h (Nat.eqb (List.length current) 2) again) = 1%nat).
Proof.
  intros h env this Hduty Hsome previous current restart begun.
  destruct (restart_facts h env this current) as [Fc F].
  assert (Fi : interactors (fst restart) = current)
    by (destruct F as (_ & Fi & _); exact Fi).
  split; [exact (onTriggerToggle_manipulating h env this Hduty Hsome)|].
  split; [exact F|]. split.
  { intros reference interactor p o Hone Hobject Hvalid Hp Ho Hmode.
    apply (@updateStartValues_single_direct h env
             (withInteractors current this) reference interactor p o);
      assumption. }
  split; [apply startEvents_on_duty; assumption|].
  assert (Hduty' : offDuty (fst restart) = false).
  { rewrite (offDuty_config (fst restart) this Fc). exact Hduty. }
  destruct (restart_facts h env (fst restart) current) as [Gc G].
  exists (fst (updateStartValues h env (withInteractors current (fst restart)))),
         (snd (updateStartValues h env (withInteractors current (fst restart)))).
  split; [exact (onTriggerToggle_again h env (fst restart) Hduty' Hsome Fi)|].
  split; [destruct G as (G & _); exact G|].
  assert (Hc : config (fst (updateStartValues h env
                               (withInteractors current (fst restart))))
               = config this) by (rewrite Gc; exact Fc).
  destruct (startEvents_on_duty h (Nat.eqb (List.length current) 2)
              this _ Hduty Hc eq_refl) as (_ & _ & _ & S & _).
  exact S.
Qed.



(** C9, as amended.  On a component that is on duty, whose interactor list
    holds more than two interactors, [onTriggerUpdate] returns, changes
    nothing and only logs the warning that names the count; and whatever the
    list holds, the next trigger toggle replaces it by the triggering
    interactors it observes, so a list of one or two comes back as soon as
    one or two interactors are observed. *)
Theorem oversized_list_skips_update_until_next_toggle :
  forall h env this,
    offDuty this = false ->
    (2 < List.length (interactors this))%nat ->
    onTriggerUpdate h env this =
      Some (this,
            [LogW (countText (List.length (interactors this))
                   ++ " interactors found for onTriggerUpdate. This is not supported.")]) /\
    (forall env',
       interactors (fst (onTriggerToggle h env' this))
       = getTriggeringInteractors env').
Proof.
  intros h env this Hduty Hmany. split.
  - unfold onTriggerUpdate. rewrite Hduty.
    destruct (interactors this) as [|i0 [|i1 [|i2 rest]]];
      cbn in Hmany; try lia. reflexivity.
  - intros env'. unfold onTriggerToggle. rewrite Hduty.
    destruct (Nat.ltb 0 (List.length (getTriggeringInteractors env'))).
    + pose proof (updateStartValues_frame h env'
                    (withInteractors (getTriggeringInteractors env') this))
        as F.
      cbn zeta in F. destruct F as (_ & Fi & _).
      destruct (updateStartValues h env'
                  (withInteractors (getTriggeringInteractors env') this)).
      exact Fi.
    + destruct (Nat.ltb 0 (List.length (interactors this))); reflexivity.
Qed.

Lemma oversized_list_skips_update_until_next_toggle_witness :
  offDuty Sample.holdingThree = false /\
  (2 < List.length (interactors Sample.holdingThree))%nat /\
  onTriggerUpdate Sample.host (Sample.frame [Sample.left; Sample.right; Sample.mobile])
    Sample.holdingThree
  = Some (Sample.holdingThree,
          [LogW "3 interactors found for onTriggerUpdate. This is not supported."]) /\
  interactors (fst (onTriggerToggle Sample.host
                      (Sample.frame [Sample.left; Sample.right])
                      Sample.holdingThree))
  = [0%nat; 1%nat].
Proof.
  assert (Hduty : offDuty Sample.holdingThree = false) by reflexivity.
  assert (Hmany : (2 < List.length (interactors Sample.holdingThree))%nat)
    by (cbn; lia).
  destruct (oversized_list_skips_update_until_next_toggle Sample.host
              (Sample.frame [Sample.left; Sample.right; Sample.mobile])
              Sample.holdingThree Hduty Hmany) as [Hskip Hnext].
  split; [exact Hduty|]. split; [exact Hmany|]. split; [exact Hskip|].
  exact (Hnext (Sample.frame [Sample.left; Sample.right])).
Defined.

(** C9 as stated fails: the list is whatever the last toggle observed.  When
    three hands trigger the interactable, the first toggle after [onAwake]
    leaves a reachable state whose list holds three interactors. *)
Lemma three_interactors_exceed_invariant :
  ~ (forall this,
       reachable Sample.host this ->
       (List.length (interactors this) <= 2)%nat).
Proof.
  intros H.
  specialize (H Sample.holdingThree
                (reach_toggle
                   (Sample.frame [Sample.left; Sample.right; Sample.mobile])
                   (reach_awake Sample.host Sample.config Sample.root))).
  cbn in H. lia.
Qed.

End ToggleFacts.

(** ** InteractableManipulation: the per-frame solver *)

Module SolverFacts.
Import InteractableManipulation OneEuro.
Local Open Scope R_scope.

(** *** Vector and quaternion algebra *)

Lemma vec3_eq (x y z x' y' z' : R) :
  x = x' -> y = y' -> z = z' -> mkVec3 x y z = mkVec3 x' y' z'.
Proof. intros -> -> ->. reflexivity. Qed.


Lemma multiplyVec3_identity (v : vec3) :
  Quat.multiplyVec3 Quat.quatIdentity v = v.
Proof.
  destruct v. unfold Quat.multiplyVec3, Quat.multiply, Quat.invert,
    Quat.norm2, Quat.quatIdentity. cbn. f_equal; field.
Qed.

(** Rotating by [o] after undoing [o] and then undoing [s] leaves nothing:
    [(o * (o^-1 * s)) * s^-1 = 1]. *)
Lemma grab_rotation_cancels (o s : quat) :
  Quat.norm2 o <> 0 -> Quat.norm2 s <> 0 ->
  Quat.multiply (Quat.multiply o (Quat.multiply (Quat.invert o) s))
                (Quat.invert s) = Quat.quatIdentity.
Proof.
  destruct o as [ow ox oy oz], s as [sw sx sy sz].
  unfold Quat.multiply, Quat.invert, Quat.norm2, Quat.quatIdentity. cbn.
  intros Ho Hs. f_equal; field; split; assumption.
Qed.

Lemma distance_0_10 : Vec3.distance (mkVec3 0 0 0) (mkVec3 10 0 0) = 10.
Proof.
  unfold Vec3.distance, Vec3.length, Vec3.dot, Vec3.sub. cbn.
  replace ((0 - 10) * (0 - 10) + (0 - 0) * (0 - 0) + (0 - 0) * (0 - 0))
    with (10 * 10) by ring.
  apply sqrt_square. lra.
Qed.

Lemma distance_0_160 : Vec3.distance (mkVec3 0 0 0) (mkVec3 160 0 0) = 160.
Proof.
  unfold Vec3.distance, Vec3.length, Vec3.dot, Vec3.sub. cbn.
  replace ((0 - 160) * (0 - 160) + (0 - 0) * (0 - 0) + (0 - 0) * (0 - 0))
    with (160 * 160) by ring.
  apply sqrt_square. lra.
Qed.

Lemma distance_0_20 : Vec3.distance (mkVec3 0 0 0) (mkVec3 20 0 0) = 20.
Proof.
  unfold Vec3.distance, Vec3.length, Vec3.dot, Vec3.sub. cbn.
  replace ((0 - 20) * (0 - 20) + (0 - 0) * (0 - 0) + (0 - 0) * (0 - 0))
    with (20 * 20) by ring.
  apply sqrt_square. lra.
Qed.

(** *** What the writes leave alone *)

Lemma updatePosition_position h env p useFilter this :
  translateFilter this = None \/ useFilter = false ->
  getWorldPosition (updatePosition h env p useFilter this)
  = mkVec3
      (if negb (enableXTranslation (config this))
       then vx (getWorldPosition this) else vx p)
      (if negb (enableYTranslation (config this))
       then vy (getWorldPosition this) else vy p)
      (if negb (enableZTranslation (config this))
       then vz (getWorldPosition this) else vz p).
Proof.
  intros Hfresh. unfold updatePosition, filter.
  destruct useFilter; [|reflexivity].
  destruct Hfresh as [-> | H]; [reflexivity|discriminate].
Qed.


Lemma updateRotation_position h env q useFilter this :
  getWorldPosition (updateRotation h env q useFilter this)
  = getWorldPosition this.
Proof.
  unfold updateRotation.
  destruct useFilter; [|reflexivity].
  destruct (filter _ _ _ _ _); reflexivity.
Qed.




(** *** Dual scale *)

(** *** Dual scale *)

Lemma eqb_false (a b : R) : a <> b -> Num.eqb a b = false.
Proof. unfold Num.eqb. destruct (Req_dec_T a b); congruence. Qed.

Lemma eqb_true (a : R) : Num.eqb a a = true.
Proof. unfold Num.eqb. destruct (Req_dec_T a a); congruence. Qed.

Lemma sameScaleInputs_refl this : sameScaleInputs this this.
Proof. unfold sameScaleInputs. tauto. Qed.

Lemma sameScaleInputs_trans a b c :
  sameScaleInputs a b -> sameScaleInputs b c -> sameScaleInputs a c.
Proof.
  unfold sameScaleInputs.
  intros (A1 & A2 & A3 & A4 & A5 & A6 & A7 & A8)
         (B1 & B2 & B3 & B4 & B5 & B6 & B7 & B8).
  repeat split; congruence.
Qed.

Lemma updatePosition_scaleInputs h env p useFilter this :
  sameScaleInputs (updatePosition h env p useFilter this) this.
Proof.
  unfold updatePosition, sameScaleInputs.
  destruct useFilter; [destruct (filter _ _ _ _ _)|]; cbn; tauto.
Qed.

Lemma updateRotation_scaleInputs h env q useFilter this :
  sameScaleInputs (updateRotation h env q useFilter this) this.
Proof.
  unfold updateRotation, sameScaleInputs.
  destruct useFilter; [destruct (filter _ _ _ _ _)|]; cbn; tauto.
Qed.

Lemma getDualInteractorDirection_scaleInputs h i1 i2 this :
  sameScaleInputs (fst (fst (getDualInteractorDirection h i1 i2 this))) this.
Proof.
  pose proof (ToggleFacts.getDualInteractorDirection_frame h i1 i2 this) as F.
  cbn zeta in F. unfold sameScaleInputs, getLocalScale.
  decompose [and] F. repeat split; congruence.
Qed.

Lemma dualTranslation_scaleInputs h env i0 i1 mid this :
  sameScaleInputs (dualTranslation h env i0 i1 mid this) this.
Proof.
  unfold dualTranslation.
  destruct (enableTranslation (config this));
    [|apply sameScaleInputs_refl].
  destruct (isDirectMode (cachedTargetingMode this));
    apply updatePosition_scaleInputs.
Qed.

(** What [setScale] leaves alone. *)
Lemma setScale_frame h env s useFilter this :
  let next := fst (setScale h env s useFilter this) in
  interactors next = interactors this /\
  startTransform next = startTransform this.
Proof.
  unfold setScale. destruct (negb (canScale this)); [cbn; tauto|].
  destruct (clampUniformScale _ _ _) as [finalScale renewed].
  destruct useFilter; [destruct (filter _ _ _ _ _)|]; cbn; tauto.
Qed.

(** The scale block, when scaling is enabled and the initial distance is not
    zero: [setScale] on the proposed scale, then the scale update event. *)
Lemma dualScale_enabled h env dualDistance this :
  canScale this = true ->
  initialInteractorDistance this <> 0 ->
  let scaled :=
    setScale h env (updatedObjectScale dualDistance this)
             (useFilter (config this)) this in
  dualScale h env dualDistance this =
    (fst scaled,
     snd scaled
     ++ [InvokeScale onScaleUpdate
           (mkEventArg (interactors this) (scale (startTransform this))
                       (getWorldScale h (fst scaled)))]).
Proof.
  intros Hcan Hdist scaled. unfold dualScale.
  rewrite Hcan, (eqb_false Hdist). cbn [andb negb].
  pose proof (setScale_frame h env (updatedObjectScale dualDistance this)
                (useFilter (config this)) this) as F.
  cbn zeta in F. subst scaled.
  destruct (setScale h env (updatedObjectScale dualDistance this)
              (useFilter (config this)) this) as [next limit].
  cbn [fst snd] in *. destruct F as [Fi Fs]. rewrite Fi, Fs. reflexivity.
Qed.

(** A dual frame with both start points known, scaling enabled and a
    non-zero initial distance: the call returns; the rotation and translation
    blocks leave the inputs of the scale block alone; the scale block runs
    [setScale] on the proposed scale and invokes the scale update event.
    Validity of the interactors is not asked for. *)
Lemma dualInteractorsTransform_scales h env reference0 reference1 p1 p2 this :
  startPoint (interactorObject env reference0) = Some p1 ->
  startPoint (interactorObject env reference1) = Some p2 ->
  canScale this = true ->
  initialInteractorDistance this <> 0 ->
  exists before log,
    sameScaleInputs before this /\
    onlyLogs log /\
    (isInteractorValid (interactorObject env reference0)
     && isInteractorValid (interactorObject env reference1) = false ->
     In (LogE "There should be two valid interactors for dualInteractorsTransform")
        log) /\
    let scaled :=
      setScale h env (updatedObjectScale (Vec3.distance p1 p2) this)
               (useFilter (config this)) before in
    dualInteractorsTransform h env [reference0; reference1] this
    = Some (fst scaled,
            log ++ snd scaled
            ++ [InvokeScale onScaleUpdate
                  (mkEventArg (interactors this)
                              (scale (startTransform this))
                              (getWorldScale h (fst scaled)))]).
Proof.
  intros Hp1 Hp2 Hcan Hdist.
  rename reference0 into r0, reference1 into r1.
  unfold dualInteractorsTransform. cbn zeta. rewrite Hp1, Hp2.
  pose proof (getDualInteractorDirection_scaleInputs h
                (interactorObject env r0) (interactorObject env r1) this)
    as Hdual.
  pose proof (ToggleFacts.getDualInteractorDirection_logs h
                (interactorObject env r0) (interactorObject env r1) this)
    as Hlog.
  assert (Hsome : exists d,
            snd (fst (getDualInteractorDirection h
                        (interactorObject env r0)
                        (interactorObject env r1) this)) = Some d).
  { unfold getDualInteractorDirection. rewrite Hp1, Hp2.
    destruct (rotationAxis (config this)); cbn; eexists; reflexivity. }
  destruct (getDualInteractorDirection h (interactorObject env r0)
              (interactorObject env r1) this) as [[this1 direction] log].
  cbn [fst snd] in Hdual, Hlog, Hsome. destruct Hsome as [d ->].
  set (rotated :=
         if canRotate this1
         then updateRotation h env (Quat.multiply d (offsetRotation this1))
                (useFilter (config this1)) this1
         else this1).
  assert (Hrot : sameScaleInputs rotated this).
  { subst rotated. destruct (canRotate this1); [|exact Hdual].
    eapply sameScaleInputs_trans;
      [apply updateRotation_scaleInputs|exact Hdual]. }
  set (before :=
         dualTranslation h env (interactorObject env r0)
           (interactorObject env r1)
           (Vec3.uniformScale (Vec3.add p1 p2) (5 / 10)) rotated).
  assert (Hbefore : sameScaleInputs before this).
  { eapply sameScaleInputs_trans;
      [apply dualTranslation_scaleInputs|exact Hrot]. }
  clearbody before. clear rotated Hrot.
  destruct Hbefore as (Bc & Bi & Bo & Bs & Bd & Bk & Bf & Bl).
  assert (Hcan' : canScale before = true)
    by (unfold canScale; rewrite Bc; exact Hcan).
  assert (Hdist' : initialInteractorDistance before <> 0)
    by (rewrite Bd; exact Hdist).
  rewrite (@dualScale_enabled h env (Vec3.distance p1 p2) before
             Hcan' Hdist').
  assert (Hprop : updatedObjectScale (Vec3.distance p1 p2) before
                  = updatedObjectScale (Vec3.distance p1 p2) this).
  { unfold updatedObjectScale. rewrite Bd, Bk. reflexivity. }
  rewrite Hprop, Bc, Bi, Bs.
  exists before.
  match goal with
  | |- context [Some (_, ?complaint ++ log ++ _)] =>
      exists (complaint ++ log)
  end.
  split; [unfold sameScaleInputs; tauto|].
  split; [|split; [|cbn zeta; rewrite <- app_assoc; reflexivity]].
  - unfold onlyLogs in *. apply Forall_app. split; [|exact Hlog].
    destruct (_ || _); repeat constructor.
  - intros Hinvalid. apply in_or_app. left.
    cbn [List.length Nat.ltb Nat.leb orb].
    destruct (isInteractorValid (interactorObject env r0)),
      (isInteractorValid (interactorObject env r1));
      cbn in *; try discriminate; auto.
Qed.

(** At two valid interactors, [updateStartValues] captures the distance
    between the two start points and the local scale of the root. *)
Lemma updateStartValues_dual h env this reference0 reference1 p1 p2 :
  interactors this = [reference0; reference1] ->
  isInteractorValid (interactorObject env reference0) = true ->
  isInteractorValid (interactorObject env reference1) = true ->
  startPoint (interactorObject env reference0) = Some p1 ->
  startPoint (interactorObject env reference1) = Some p2 ->
  let next := fst (updateStartValues h env this) in
  initialInteractorDistance next = Vec3.distance p1 p2 /\
  initialObjectScale next = getLocalScale this.
Proof.
  intros Hlist Hv0 Hv1 Hp1 Hp2. unfold updateStartValues.
  cbn [interactors withStartTransform withScaleFilter withRotationFilter
       withTranslateFilter withStartStretchInteractorDistance
       withSmoothedStretch withMobileStretch].
  rewrite Hlist. cbn zeta. rewrite Hv0, Hv1, Hp1, Hp2.
  cbn [negb orb orElse].
  match goal with
  | |- context [getDualInteractorDirection ?h ?a ?b ?s] =>
      pose proof (ToggleFacts.getDualInteractorDirection_frame h a b s) as F;
      destruct (getDualInteractorDirection h a b s) as [[s' d] l]
  end.
  cbn zeta in F. cbn [fst] in F.
  destruct F as (_ & _ & Froot & _).
  unfold getLocalScale.
  destruct d; [destruct (_ || _)|]; cbn; rewrite Froot; split; reflexivity.
Qed.

(** *** Clamping *)

Lemma ratio_ge_1 (s m : R) : 0 < m -> m <= s -> 1 <= s / m.
Proof.
  intros Hm Hs. unfold Rdiv.
  pose proof (Rinv_0_lt_compat m Hm) as Hi.
  assert (Hone : m * / m = 1) by (apply Rinv_r; lra).
  nra.
Qed.

Lemma ratio_le_1 (s m : R) : 0 < m -> s <= m -> s / m <= 1.
Proof.
  intros Hm Hs. unfold Rdiv.
  pose proof (Rinv_0_lt_compat m Hm) as Hi.
  assert (Hone : m * / m = 1) by (apply Rinv_r; lra).
  nra.
Qed.

Lemma min3_glb (a b c x : R) :
  x <= a -> x <= b -> x <= c -> x <= Num.min3 a b c.
Proof. intros. unfold Num.min3. repeat apply Rmin_glb; assumption. Qed.

Lemma min3_le_first (a b c : R) : Num.min3 a b c <= a.
Proof.
  unfold Num.min3.
  eapply Rle_trans; [apply Rmin_l|apply Rmin_l].
Qed.

Lemma ltb_false (a b : R) : b <= a -> Num.ltb a b = false.
Proof. intros H. unfold Num.ltb. destruct (Rlt_dec a b); [lra|reflexivity]. Qed.

Lemma ltb_true (a b : R) : a < b -> Num.ltb a b = true.
Proof. intros H. unfold Num.ltb. destruct (Rlt_dec a b); [reflexivity|lra]. Qed.

(** The clamp returns its argument, the same object, when the smallest ratio
    to the minimum is at least 1 and the smallest ratio to the maximum is at
    most 1. *)
Lemma clampUniformScale_untouched (s lo hi : vec3) :
  1 <= Num.min3 (vx s / vx lo) (vy s / vy lo) (vz s / vz lo) ->
  Num.min3 (vx s / vx hi) (vy s / vy hi) (vz s / vz hi) <= 1 ->
  clampUniformScale s lo hi = (s, false).
Proof.
  intros Hlo Hhi. unfold clampUniformScale.
  rewrite (ltb_false Hlo), (ltb_false Hhi). reflexivity.
Qed.

(** [setScale] on a scale that the clamp returns untouched, through a scale
    filter that has just been reset or with filtering off: the scale is
    applied as it is and no limit event is invoked. *)
Lemma setScale_untouched h env s useFilter this :
  canScale this = true ->
  clampUniformScale s
    (Vec3.uniformScale (scale (originalLocalTransform this))
                       (minimumScaleFactor (config this)))
    (Vec3.uniformScale (scale (originalLocalTransform this))
                       (maximumScaleFactor (config this))) = (s, false) ->
  scaleFilter this = None \/ useFilter = false ->
  getLocalScale (fst (setScale h env s useFilter this)) = s /\
  snd (setScale h env s useFilter this) = [].
Proof.
  intros Hcan Hclamp Hfresh. unfold setScale. rewrite Hcan, Hclamp.
  cbn [negb]. destruct useFilter; [|split; reflexivity].
  destruct Hfresh as [-> | H]; [split; reflexivity|discriminate].
Qed.

(** C7.  In a dual-interactor frame where both start points are known,
    scaling is enabled and [initialInteractorDistance] is not zero,
    [dualInteractorsTransform] returns, and the scale it hands to [setScale]
    (after the rotation and translation blocks, which leave the inputs of
    the scale block alone) is [initialObjectScale] times
    [1 + (currentInteractorDistance - initialInteractorDistance)
         / initialInteractorDistance]; the scale update event follows.  With
    an initial distance of 10 and a current distance of 20 the proposed
    scale is twice [initialObjectScale] on every axis. *)
Theorem dual_update_proposes_uniform_scale :
  forall h env reference0 reference1 p1 p2 this,
    startPoint (interactorObject env reference0) = Some p1 ->
    startPoint (interactorObject env reference1) = Some p2 ->
    canScale this = true ->
    initialInteractorDistance this <> 0 ->
    let currentInteractorDistance := Vec3.distance p1 p2 in
    let proposed :=
      Vec3.uniformScale (initialObjectScale this)
        (1 + (currentInteractorDistance - initialInteractorDistance this)
             / initialInteractorDistance this) in
    (exists before log,
       sameScaleInputs before this /\
       onlyLogs log /\
       let scaled :=
         setScale h env proposed (useFilter (config this)) before in
       dualInteractorsTransform h env [reference0; reference1] this
       = Some (fst scaled,
               log ++ snd scaled
               ++ [InvokeScale onScaleUpdate
                     (mkEventArg (interactors this)
                                 (scale (startTransform this))
                                 (getWorldScale h (fst scaled)))])) /\
    (initialInteractorDistance this = 10 ->
     currentInteractorDistance = 20 ->
     proposed = mkVec3 (2 * vx (initialObjectScale this))
                       (2 * vy (initialObjectScale this))
                       (2 * vz (initialObjectScale this))).
Proof.
  intros h env r0 r1 p1 p2 this Hp1 Hp2 Hcan Hdist current proposed.
  split.
  - destruct (@dualInteractorsTransform_scales h env r0 r1 p1 p2 this
                Hp1 Hp2 Hcan Hdist)
      as (before & log & Hsame & Hlog & _ & Hrun).
    exists before, log. split; [exact Hsame|]. split; [exact Hlog|].
    exact Hrun.
  - intros H10 H20. unfold proposed. rewrite H10, H20.
    unfold Vec3.uniformScale. f_equal; field.
Qed.

Lemma dual_update_proposes_uniform_scale_witness :
  Vec3.uniformScale (initialObjectScale Sample.grabbedBoth)
    (1 + (Vec3.distance (mkVec3 0 0 0) (mkVec3 20 0 0)
          - initialInteractorDistance Sample.grabbedBoth)
         / initialInteractorDistance Sample.grabbedBoth)
  = mkVec3 (2 * vx (initialObjectScale Sample.grabbedBoth))
           (2 * vy (initialObjectScale Sample.grabbedBoth))
           (2 * vz (initialObjectScale Sample.grabbedBoth)).
Proof.
  assert (Hdist : initialInteractorDistance Sample.grabbedBoth <> 0)
    by (cbn; lra).
  exact (proj2 (@dual_update_proposes_uniform_scale Sample.host
                  (Sample.frame [Sample.left; Sample.rightMoved])
                  0%nat 1%nat (mkVec3 0 0 0) (mkVec3 20 0 0)
                  Sample.grabbedBoth eq_refl eq_refl eq_refl Hdist)
               eq_refl distance_0_20).
Defined.


(** *** The sample session *)

Lemma invocations_app n (a b : list Effect) :
  invocations n (a ++ b) = (invocations n a + invocations n b)%nat.
Proof.
  induction a as [|e a IH]; cbn [app invocations]; [reflexivity|].
  rewrite IH. apply Nat.add_assoc.
Qed.

Lemma invocations_logs n (log : list Effect) :
  onlyLogs log -> invocations n log = 0%nat.
Proof.
  unfold onlyLogs. induction 1 as [|e log He _ IH]; cbn [invocations];
    [reflexivity|].
  rewrite He, IH. reflexivity.
Qed.

(** A dual frame whose proposed scale the clamp returns untouched, through a
    scale filter that has just been reset or with filtering off: the call
    returns, the proposed scale is the new local scale, and no limit event
    is invoked.  The interactors need not be valid; if one is not, the
    complaint is among the effects. *)
Lemma dualInteractorsTransform_unclamped h env r0 r1 p1 p2 this :
  startPoint (interactorObject env r0) = Some p1 ->
  startPoint (interactorObject env r1) = Some p2 ->
  canScale this = true ->
  initialInteractorDistance this <> 0 ->
  scaleFilter this = None \/ useFilter (config this) = false ->
  clampUniformScale (updatedObjectScale (Vec3.distance p1 p2) this)
    (Vec3.uniformScale (scale (originalLocalTransform this))
                       (minimumScaleFactor (config this)))
    (Vec3.uniformScale (scale (originalLocalTransform this))
                       (maximumScaleFactor (config this)))
  = (updatedObjectScale (Vec3.distance p1 p2) this, false) ->
  exists next effects,
    dualInteractorsTransform h env [r0; r1] this = Some (next, effects) /\
    getLocalScale next = updatedObjectScale (Vec3.distance p1 p2) this /\
    invocations onScaleLimitReached effects = 0%nat /\
    (isInteractorValid (interactorObject env r0)
     && isInteractorValid (interactorObject env r1) = false ->
     In (LogE "There should be two valid interactors for dualInteractorsTransform")
        effects).
Proof.
  intros Hp1 Hp2 Hcan Hdist Hfresh Hclamp.
  destruct (@dualInteractorsTransform_scales h env r0 r1 p1 p2 this
              Hp1 Hp2 Hcan Hdist)
    as (before & log & Hsame & Hlog & Hcomplaint & Hrun).
  cbn zeta in Hrun.
  destruct Hsame as (Bc & _ & Bo & _ & _ & _ & Bf & _).
  destruct (@setScale_untouched h env
              (updatedObjectScale (Vec3.distance p1 p2) this)
              (useFilter (config this)) before) as [Hscale Hquiet].
  - unfold canScale. rewrite Bc. exact Hcan.
  - rewrite Bc, Bo. exact Hclamp.
  - rewrite Bf. exact Hfresh.
  - eexists _, _. split; [exact Hrun|]. split; [exact Hscale|]. split.
    + rewrite Hquiet, invocations_app, (invocations_logs _ Hlog).
      reflexivity.
    + intros Hinvalid. apply in_or_app. left. exact (Hcomplaint Hinvalid).
Qed.

(** The sample dual session after the right hand moved to distance 20, with
    whatever validity the left hand has: the local scale doubles. *)
Lemma sample_dual_update (leftHand : Interactor) :
  startPoint leftHand = Some (mkVec3 0 0 0) ->
  exists next effects,
    dualInteractorsTransform Sample.host
      (Sample.frame [leftHand; Sample.rightMoved]) [0%nat; 1%nat]
      Sample.grabbedBoth = Some (next, effects) /\
    getLocalScale next = mkVec3 2 2 2 /\
    (isInteractorValid leftHand = false ->
     In (LogE "There should be two valid interactors for dualInteractorsTransform")
        effects).
Proof.
  intros Hstart.
  assert (Hdist : initialInteractorDistance Sample.grabbedBoth <> 0)
    by (cbn; lra).
  assert (Hprop : updatedObjectScale
                    (Vec3.distance (mkVec3 0 0 0) (mkVec3 20 0 0))
                    Sample.grabbedBoth = mkVec3 2 2 2).
  { unfold updatedObjectScale. rewrite distance_0_20. cbn.
    unfold Vec3.uniformScale. cbn. apply vec3_eq; field. }
  destruct (@dualInteractorsTransform_unclamped Sample.host
              (Sample.frame [leftHand; Sample.rightMoved]) 0%nat 1%nat
              (mkVec3 0 0 0) (mkVec3 20 0 0) Sample.grabbedBoth
              Hstart eq_refl eq_refl Hdist (or_introl eq_refl))
    as (next & effects & Hrun & Hscale & _ & Hcomplaint).
  - rewrite Hprop. apply clampUniformScale_untouched; cbn.
    + apply min3_glb; apply ratio_ge_1; lra.
    + eapply Rle_trans; [apply min3_le_first|]. apply ratio_le_1; lra.
  - exists next, effects. split; [exact Hrun|].
    split; [rewrite Hscale; exact Hprop|].
    intros Hinvalid. apply Hcomplaint. cbn. rewrite Hinvalid. reflexivity.
Qed.

(** The single-interactor solver skips an invalid interactor: it logs and
    changes nothing. *)
Lemma singleInteractorTransform_invalid h env interactor this :
  isInteractorValid interactor = false ->
  singleInteractorTransform h env interactor this
  = (this, [LogE "Interactor must be valid"]).
Proof.
  intros Hinvalid. unfold singleInteractorTransform. rewrite Hinvalid.
  reflexivity.
Qed.

(** The dual solver skips a frame in which a start point is missing. *)
Lemma dualInteractorsTransform_without_start_point h env r0 r1 this :
  startPoint (interactorObject env r0) = None \/
  startPoint (interactorObject env r1) = None ->
  exists log,
    dualInteractorsTransform h env [r0; r1] this = Some (this, log) /\
    onlyLogs log.
Proof.
  intros Hnone. unfold dualInteractorsTransform. cbn zeta.
  destruct (startPoint (interactorObject env r0)),
    (startPoint (interactorObject env r1));
    try (destruct Hnone; discriminate);
    eexists; (split; [reflexivity|]);
    unfold onlyLogs; apply Forall_app; split;
    try (destruct (_ || _)); repeat constructor.
Qed.

(** C8, the code at the failing input.  The left hand of the sample dual
    session has no orientation, so it is not valid, and the right hand has
    moved to distance 20.  [dualInteractorsTransform] logs its complaint and
    goes on: the call returns with the local scale of the root doubled.  The
    single-interactor solver on the same hand logs and changes nothing. *)
Theorem dual_solver_updates_on_invalid_interactor :
  isInteractorValid Sample.leftUnoriented = false /\
  getLocalScale Sample.grabbedBoth = mkVec3 1 1 1 /\
  (exists next effects,
     dualInteractorsTransform Sample.host
       (Sample.frame [Sample.leftUnoriented; Sample.rightMoved])
       [0%nat; 1%nat] Sample.grabbedBoth = Some (next, effects) /\
     getLocalScale next = mkVec3 2 2 2 /\
     In (LogE "There should be two valid interactors for dualInteractorsTransform")
        effects) /\
  singleInteractorTransform Sample.host
    (Sample.frame [Sample.leftUnoriented]) Sample.leftUnoriented
    Sample.holdingLeft
  = (Sample.holdingLeft, [LogE "Interactor must be valid"]).
Proof.
  split; [reflexivity|]. split; [reflexivity|]. split.
  - destruct (@sample_dual_update Sample.leftUnoriented eq_refl)
      as (next & effects & Hrun & Hscale & Hlog).
    exists next, effects. repeat split; auto.
  - apply singleInteractorTransform_invalid. reflexivity.
Qed.

(** *** The clamp on uniform multiples of the original scale *)

Lemma min3_same (x : R) : Num.min3 x x x = x.
Proof.
  unfold Num.min3. rewrite (Rmin_left x x) by lra. apply Rmin_left. lra.
Qed.

(** When the proposed scale is [k] times the original scale, the clamp
    returns the original scale times [k] clamped into [[lo, hi]], and it
    builds a new vector exactly when [k] is outside [[lo, hi]]. *)
Lemma clampUniformScale_proportional (o : vec3) (k lo hi : R) :
  0 < vx o -> 0 < vy o -> 0 < vz o ->
  0 < lo -> lo <= hi -> 0 < k ->
  clampUniformScale (Vec3.uniformScale o k) (Vec3.uniformScale o lo)
                    (Vec3.uniformScale o hi)
  = (Vec3.uniformScale o (Rmax lo (Rmin k hi)),
     Num.ltb k lo || Num.ltb hi k).
Proof.
  intros Hx Hy Hz Hlo Hle Hk. destruct o as [ox oy oz]. cbn in Hx, Hy, Hz.
  unfold clampUniformScale, Vec3.uniformScale. cbn [vx vy vz].
  replace (ox * k / (ox * lo)) with (k / lo) by (field; lra).
  replace (oy * k / (oy * lo)) with (k / lo) by (field; lra).
  replace (oz * k / (oz * lo)) with (k / lo) by (field; lra).
  replace (ox * k / (ox * hi)) with (k / hi) by (field; lra).
  replace (oy * k / (oy * hi)) with (k / hi) by (field; lra).
  replace (oz * k / (oz * hi)) with (k / hi) by (field; lra).
  rewrite !min3_same.
  destruct (Rlt_dec k lo) as [Hbelow|Hbelow].
  - assert (H1 : k / lo < 1).
    { apply Rmult_lt_reg_r with lo; [lra|]. field_simplify; lra. }
    assert (H2 : k / hi <= 1) by (apply ratio_le_1; lra).
    rewrite (ltb_true H1), (ltb_false H2), (ltb_true Hbelow).
    rewrite Rmin_left, Rmax_left by lra. cbn [orb].
    f_equal. apply vec3_eq; field; repeat split; lra.
  - assert (H1 : 1 <= k / lo) by (apply ratio_ge_1; lra).
    rewrite (ltb_false H1), (@ltb_false k lo) by lra.
    destruct (Rlt_dec hi k) as [Habove|Habove].
    + assert (H2 : 1 < k / hi).
      { apply Rmult_lt_reg_r with hi; [lra|]. field_simplify; lra. }
      rewrite (ltb_true H2), (ltb_true Habove).
      rewrite Rmin_right, Rmax_right by lra. cbn [orb vx vy vz].
      f_equal. apply vec3_eq; field; repeat split; lra.
    + assert (H2 : k / hi <= 1) by (apply ratio_le_1; lra).
      rewrite (ltb_false H2), (@ltb_false hi k) by lra.
      rewrite Rmin_left, Rmax_right by lra. reflexivity.
Qed.

(** C3, the code at the failing input.  The original local scale is
    [(1, 1, 1)] and the factors are the defaults 0.25 and 20, so the bounds
    are [(0.25, 0.25, 0.25)] and [(20, 20, 20)].  On the proposed scale
    [(16, 32, 16)] the smallest ratio to the maximum is 0.8, so the clamp
    returns the argument itself although its [y] exceeds 20.  A dual session
    reaches it: the root's local scale was [(1, 2, 1)] at the grab, the hands
    were 10 apart and are now 160 apart.  [dualInteractorsTransform] then
    leaves the root with local scale [(16, 32, 16)] and invokes no limit
    event. *)
Theorem clamp_misses_axis_above_maximum :
  clampUniformScale (mkVec3 16 32 16)
    (Vec3.uniformScale (mkVec3 1 1 1) (25 / 100))
    (Vec3.uniformScale (mkVec3 1 1 1) 20)
  = (mkVec3 16 32 16, false) /\
  vy (Vec3.uniformScale (mkVec3 1 1 1) 20) < vy (mkVec3 16 32 16) /\
  scale (originalLocalTransform Sample.grabbedStretched) = mkVec3 1 1 1 /\
  maximumScaleFactor (config Sample.grabbedStretched) = 20 /\
  exists next effects,
    dualInteractorsTransform Sample.host
      (Sample.frame [Sample.left; Sample.rightFar]) [0%nat; 1%nat]
      Sample.grabbedStretched = Some (next, effects) /\
    getLocalScale next = mkVec3 16 32 16 /\
    invocations onScaleLimitReached effects = 0%nat.
Proof.
  assert (Hclamp :
    clampUniformScale (mkVec3 16 32 16)
      (Vec3.uniformScale (mkVec3 1 1 1) (25 / 100))
      (Vec3.uniformScale (mkVec3 1 1 1) 20) = (mkVec3 16 32 16, false)).
  { apply clampUniformScale_untouched; cbn.
    - apply min3_glb; apply ratio_ge_1; lra.
    - eapply Rle_trans; [apply min3_le_first|]. apply ratio_le_1; lra. }
  split; [exact Hclamp|]. split; [cbn; lra|].
  split; [reflexivity|]. split; [reflexivity|].
  assert (Hdist : initialInteractorDistance Sample.grabbedStretched <> 0)
    by (cbn; lra).
  assert (Hprop : updatedObjectScale
                    (Vec3.distance (mkVec3 0 0 0) (mkVec3 160 0 0))
                    Sample.grabbedStretched = mkVec3 16 32 16).
  { unfold updatedObjectScale. rewrite distance_0_160. cbn.
    unfold Vec3.uniformScale. cbn. apply vec3_eq; field. }
  destruct (@dualInteractorsTransform_unclamped Sample.host
              (Sample.frame [Sample.left; Sample.rightFar]) 0%nat 1%nat
              (mkVec3 0 0 0) (mkVec3 160 0 0) Sample.grabbedStretched
              eq_refl eq_refl eq_refl Hdist (or_introl eq_refl))
    as (next & effects & Hrun & Hscale & Hquiet & _).
  - rewrite Hprop. exact Hclamp.
  - exists next, effects. split; [exact Hrun|].
    split; [rewrite Hscale; exact Hprop|exact Hquiet].
Qed.

End SolverFacts.

(** ** Interactable: masks, trigger transitions and drag routing *)

Module InteractableRunFacts.
Import Interactable InteractableRuns.

(** *** Mask arithmetic *)

Lemma andNot_orIn (m b : InteractorInputType) :
  andNot (orIn m b) b = andNot m b.
Proof.
  unfold andNot, orIn. rewrite Z.land_lor_distr_l, Z.land_lnot_diag.
  apply Z.lor_0_r.
Qed.

Lemma andNot_disjoint (m b : InteractorInputType) :
  Z.land m b = 0%Z -> andNot m b = m.
Proof.
  intros H. unfold andNot. apply Z.bits_inj'. intros n Hn.
  rewrite Z.land_spec, Z.lnot_spec by exact Hn.
  assert (Hb : Z.testbit (Z.land m b) n = false)
    by (rewrite H; apply Z.bits_0).
  rewrite Z.land_spec in Hb.
  destruct (Z.testbit m n), (Z.testbit b n); cbn in *; congruence.
Qed.

Lemma andNot_clears (m b : InteractorInputType) :
  Z.land (andNot m b) b = 0%Z.
Proof.
  unfold andNot. rewrite <- Z.land_assoc, (Z.land_comm (Z.lnot b) b),
    Z.land_lnot_diag. apply Z.land_0_r.
Qed.

(** X1.  [hoverExit] after [hoverEnter] of an interactor gives back the
    component as it was when the type of the interactor shares no bit with
    the hover mask, whatever the trigger mask holds; and [triggerEnd] after
    [triggerStart] gives back the component as it was when the type shares no
    bit with the trigger mask, whatever the hover mask holds, so also for an
    interactor that is hovering. *)
Theorem exit_undoes_enter :
  forall (a : InteractableEventArgs) (this : t),
    (Z.land (hoveringInteractor this) (inputType (interactor a)) = 0%Z ->
     fst (hoverExit a (fst (hoverEnter a this))) = this) /\
    (Z.land (triggeringInteractor this) (inputType (interactor a)) = 0%Z ->
     fst (triggerEnd a (fst (triggerStart a this))) = this).
Proof.
  intros a [hovering triggering]. split; intros H; cbn in *;
    rewrite andNot_orIn, (andNot_disjoint _ _ H); reflexivity.
Qed.

Lemma exit_undoes_enter_witness :
  fst (hoverExit Sample.rightHand
         (fst (hoverEnter Sample.rightHand
                 (fst (triggerStart Sample.rightHand
                         (fst (hoverEnter Sample.leftHand initial)))))))
  = fst (triggerStart Sample.rightHand
           (fst (hoverEnter Sample.leftHand initial))) /\
  fst (triggerEnd Sample.rightHand
         (fst (triggerStart Sample.rightHand
                 (fst (hoverEnter Sample.rightHand initial)))))
  = fst (hoverEnter Sample.rightHand initial).
Proof.
  split.
  - apply (proj1 (exit_undoes_enter Sample.rightHand
                    (fst (triggerStart Sample.rightHand
                            (fst (hoverEnter Sample.leftHand initial)))))).
    reflexivity.
  - apply (proj2 (exit_undoes_enter Sample.rightHand
                    (fst (hoverEnter Sample.rightHand initial)))).
    reflexivity.
Defined.

(** X2.  The masks record types, not interactors.  When two interactors of
    the same input type enter, the exit of one of them clears the bits of
    the type although the other is still there: the mask is the starting
    mask without those bits.  The same holds for the trigger mask. *)
Theorem exit_clears_shared_type :
  forall (a b : InteractableEventArgs) (this : t),
    inputType (interactor a) = inputType (interactor b) ->
    let hovered := fst (hoverExit a (fst (hoverEnter b (fst (hoverEnter a this))))) in
    let triggered :=
      fst (triggerEnd a (fst (triggerStart b (fst (triggerStart a this))))) in
    hoveringInteractor hovered
      = andNot (hoveringInteractor this) (inputType (interactor b)) /\
    Z.land (hoveringInteractor hovered) (inputType (interactor b)) = 0%Z /\
    triggeringInteractor triggered
      = andNot (triggeringInteractor this) (inputType (interactor b)) /\
    Z.land (triggeringInteractor triggered) (inputType (interactor b)) = 0%Z.
Proof.
  intros a b this Hsame. cbn. rewrite Hsame, !andNot_orIn.
  repeat split; try reflexivity; apply andNot_clears.
Qed.

Lemma exit_clears_shared_type_witness :
  hoveringInteractor
    (fst (hoverExit Sample.leftHand
            (fst (hoverEnter Sample.leftHand
                    (fst (hoverEnter Sample.leftHand initial))))))
  = InputType.None.
Proof.
  exact (proj1 (exit_clears_shared_type Sample.leftHand Sample.leftHand
                  initial eq_refl)).
Defined.

(** *** Hover and trigger are separate *)

Lemma handle_hover_mask (c : Call) (this this' : t) :
  hoveringInteractor this = hoveringInteractor this' ->
  hoveringInteractor (fst (handle c this))
  = if isHoverCall c then hoveringInteractor (fst (handle c this'))
    else hoveringInteractor this'.
Proof.
  intros H. destruct c; cbn; unfold hoverUpdate; rewrite ?H;
    try reflexivity.
  destruct (isNone (hoveringInteractor this')); cbn; congruence.
Qed.

Lemma handle_trigger_mask (c : Call) (this this' : t) :
  triggeringInteractor this = triggeringInteractor this' ->
  triggeringInteractor (fst (handle c this))
  = if isHoverCall c then triggeringInteractor this'
    else triggeringInteractor (fst (handle c this')).
Proof.
  intros H. destruct c; cbn; unfold hoverUpdate; rewrite ?H;
    try reflexivity.
  destruct (isNone (hoveringInteractor this)); cbn; congruence.
Qed.

Lemma run_masks (calls : list Call) :
  forall this this',
    (hoveringInteractor this = hoveringInteractor this' ->
     hoveringInteractor (fst (run calls this))
     = hoveringInteractor (fst (run (List.filter isHoverCall calls) this'))) /\
    (triggeringInteractor this = triggeringInteractor this' ->
     triggeringInteractor (fst (run calls this))
     = triggeringInteractor
         (fst (run (List.filter isTriggerCall calls) this'))).
Proof.
  induction calls as [|c rest IH]; intros this this'; [cbn; tauto|].
  cbn [run List.filter]. unfold isTriggerCall.
  destruct (handle c this) as [next effects] eqn:Hc.
  destruct (run rest next) as [final later] eqn:Hrest.
  assert (Hfinal : final = fst (run rest next)) by (rewrite Hrest; reflexivity).
  assert (Hnext : next = fst (handle c this)) by (rewrite Hc; reflexivity).
  split; intros Hmask; cbn [fst]; subst final.
  - pose proof (handle_hover_mask c this this' Hmask) as Hstep.
    rewrite <- Hnext in Hstep.
    destruct (isHoverCall c); cbn [negb].
    + cbn [run]. destruct (handle c this') as [next' effects'].
      destruct (run (List.filter isHoverCall rest) next') as [f' l'] eqn:H'.
      cbn [fst] in *.
      rewrite (proj1 (IH next next') Hstep), H'. reflexivity.
    + exact (proj1 (IH next this') Hstep).
  - pose proof (handle_trigger_mask c this this' Hmask) as Hstep.
    rewrite <- Hnext in Hstep.
    destruct (isHoverCall c); cbn [negb].
    + exact (proj2 (IH next this') Hstep).
    + cbn [run]. destruct (handle c this') as [next' effects'].
      destruct (run (List.filter (fun c0 => negb (isHoverCall c0)) rest) next')
        as [f' l'] eqn:H'.
      cbn [fst] in *.
      pose proof (proj2 (IH next next') Hstep) as Hgo.
      unfold isTriggerCall in Hgo. rewrite Hgo, H'. reflexivity.
Qed.

(** X3.  In any interleaving of the seven notifications, the hover mask at
    the end is the one the hover notifications alone produce, and the trigger
    mask is the one the trigger notifications alone produce: no hover handler
    touches the trigger mask and no trigger handler (cancellation included)
    touches the hover mask. *)
Theorem masks_are_independent :
  forall (calls : list Call) (this : t),
    hoveringInteractor (fst (run calls this))
    = hoveringInteractor (fst (run (List.filter isHoverCall calls) this)) /\
    triggeringInteractor (fst (run calls this))
    = triggeringInteractor (fst (run (List.filter isTriggerCall calls) this)).
Proof.
  intros calls this. destruct (run_masks calls this this) as [Hh Ht].
  split; [apply Hh|apply Ht]; reflexivity.
Qed.

(** *** Aggregate trigger events *)

Lemma handle_step_trigger (c : Call) (this : t) :
  inputType (interactor (argsOf c)) <> InputType.None ->
  match c with
  | TriggerEnd _ => isNone (triggeringInteractor this) = false
  | _ => True
  end ->
  triggerAggregateMatches
    (mkStep c this (fst (handle c this)) (snd (handle c this))).
Proof.
  intros Hsrc Hend. unfold triggerAggregateMatches.
  destruct c; cbn [call before after emitted handle argsOf] in *;
    unfold hoverEnter, hoverUpdate, hoverExit, triggerStart, triggerUpdate,
      triggerEnd, triggerCanceled, dragStartOrUpdate, dragEnd;
    cbn [fst snd hoveringInteractor triggeringInteractor];
    rewrite ?(InteractableFacts.orIn_occupied _ Hsrc), ?Hend;
    repeat match goal with
           | |- context [isNone ?m] => destruct (isNone m); cbn [fst snd]
           | |- context [currentDragVector ?i] =>
               destruct (currentDragVector i)
           | |- context [previousDragVector ?i] =>
               destruct (previousDragVector i)
           end;
    cbn; auto.
Qed.

(** X4.  In every sequence of notifications from real sources in which no
    [triggerEnd] is made while the trigger mask is [None], each call invokes
    the aggregate [onTriggerStart] exactly when it moves the trigger mask from
    [None] to non-[None] and the aggregate [onTriggerEnd] exactly when it
    moves it from non-[None] to [None], except that a [triggerCanceled]
    empties the mask, whatever it held, without [onTriggerEnd]: it invokes
    [onTriggerCanceled] alone. *)
Theorem trigger_aggregate_once_per_transition :
  forall (calls : list Call) (this : t),
    callsFromSources calls ->
    endsWhileTriggered calls this = true ->
    Forall triggerAggregateMatches (steps calls this).
Proof.
  induction calls as [|c rest IH]; intros this Hsrc Hends; cbn [steps].
  - constructor.
  - inversion Hsrc as [|? ? Hc Hrest]; subst.
    cbn [endsWhileTriggered] in Hends. apply andb_prop in Hends.
    destruct Hends as [Hnow Hlater].
    pose proof (handle_step_trigger c this Hc) as Hstep.
    destruct (handle c this) as [next effects]. cbn [fst snd] in *.
    constructor; [|apply IH; assumption].
    apply Hstep. destruct c; try exact I.
    apply negb_true_iff. exact Hnow.
Qed.

Lemma trigger_aggregate_once_per_transition_witness :
  Forall triggerAggregateMatches
    (steps [TriggerStart Sample.leftHand; HoverEnter Sample.rightHand;
            TriggerStart Sample.rightHand; TriggerEnd Sample.leftHand;
            TriggerCanceled Sample.rightHand]
           initial).
Proof.
  apply trigger_aggregate_once_per_transition.
  - repeat constructor; cbn; discriminate.
  - reflexivity.
Defined.

(** X5.  The drag event of a call is decided by the interactor alone, never
    by the masks.  [triggerUpdate] invokes [onDragStart] when the interactor
    has a current drag vector and no previous one, [onDragUpdate] when it has
    both; [triggerEnd] and [triggerCanceled] invoke [onDragEnd] when it has a
    previous drag vector; the hover handlers and [triggerStart] invoke no
    drag event; no call invokes more than one. *)
Theorem drag_events_follow_the_interactor :
  forall (c : Call) (this : t) (e : DragEventName),
    dragInvocations e (snd (handle c this)) = oneIf (owes c e) /\
    dragEvents (snd (handle c this)) <= 1.
Proof.
  intros c this e. unfold owes, dragOwed, dragEvents.
  destruct c; cbn [handle];
    unfold hoverEnter, hoverUpdate, hoverExit, triggerStart, triggerUpdate,
      triggerEnd, triggerCanceled, dragStartOrUpdate, dragEnd; cbn [snd];
    repeat match goal with
           | |- context [isNone ?m] => destruct (isNone m)
           | |- context [currentDragVector ?i] =>
               destruct (currentDragVector i)
           | |- context [previousDragVector ?i] =>
               destruct (previousDragVector i)
           end;
    destruct e; cbn; auto.
Qed.

End InteractableRunFacts.

(** ** InteractableManipulation: what a frame update keeps *)

Module UpdateFacts.
Import InteractableManipulation OneEuro ManipulationRuns.
Local Open Scope R_scope.

Lemma sameSession_refl this : sameSession this this.
Proof. unfold sameSession. tauto. Qed.

Lemma sameSession_trans a b c :
  sameSession a b -> sameSession b c -> sameSession a c.
Proof.
  unfold sameSession. intros Hab Hbc.
  decompose [and] Hab. decompose [and] Hbc. repeat split; congruence.
Qed.

Lemma updatePosition_session h env p useFilter this :
  sameSession (updatePosition h env p useFilter this) this.
Proof.
  unfold updatePosition, sameSession.
  destruct useFilter; [destruct (filter _ _ _ _ _)|]; cbn; tauto.
Qed.

Lemma updateRotation_session h env q useFilter this :
  sameSession (updateRotation h env q useFilter this) this.
Proof.
  unfold updateRotation, sameSession.
  destruct useFilter; [destruct (filter _ _ _ _ _)|]; cbn; tauto.
Qed.

Lemma setScale_session h env s useFilter this :
  sameSession (fst (setScale h env s useFilter this)) this.
Proof.
  unfold setScale, sameSession. destruct (negb (canScale this)); [cbn; tauto|].
  destruct (clampUniformScale _ _ _).
  destruct useFilter; [destruct (filter _ _ _ _ _)|]; cbn; tauto.
Qed.

Lemma calculateStretchFactor_session env interactor this :
  sameSession (fst (calculateStretchFactor env interactor this)) this /\
  manipulateRoot (fst (calculateStretchFactor env interactor this))
  = manipulateRoot this /\
  translateFilter (fst (calculateStretchFactor env interactor this))
  = translateFilter this /\
  rotationFilter (fst (calculateStretchFactor env interactor this))
  = rotationFilter this.
Proof.
  unfold calculateStretchFactor, sameSession.
  destruct (negb (enableStretchZ (config this))); [cbn; tauto|].
  destruct (Num.eqb (startStretchInteractorDistance this) 0);
    destruct (isMobile interactor); cbn; tauto.
Qed.

Lemma getDualInteractorDirection_session h i1 i2 this :
  sameSession (fst (fst (getDualInteractorDirection h i1 i2 this))) this /\
  manipulateRoot (fst (fst (getDualInteractorDirection h i1 i2 this)))
  = manipulateRoot this.
Proof.
  unfold getDualInteractorDirection, sameSession.
  destruct (startPoint i1), (startPoint i2); cbn; try tauto.
  destruct (rotationAxis (config this)); cbn;
    match goal with
    | |- context [Num.eqb ?a ?b] => destruct (Num.eqb a b)
    end; cbn; tauto.
Qed.

Lemma session_capabilities a b :
  sameSession a b ->
  canTranslate a = canTranslate b /\ canRotate a = canRotate b /\
  canScale a = canScale b /\
  cachedTargetingMode a = cachedTargetingMode b /\
  useFilter (config a) = useFilter (config b).
Proof.
  intros H. destruct H as (Hc & H). unfold canTranslate, canRotate, canScale.
  rewrite Hc. decompose [and] H. tauto.
Qed.

Lemma rotation_tail h env q moved this :
  sameSession moved this ->
  (if canRotate moved && isDirectMode (cachedTargetingMode moved)
   then (updateRotation h env q (useFilter (config moved)) moved,
         @nil Effect)
   else (moved, []))
  = (if canRotate this && isDirectMode (cachedTargetingMode this)
     then updateRotation h env q (useFilter (config this)) moved
     else moved, []).
Proof.
  intros H. destruct (session_capabilities H) as (_ & -> & _ & -> & ->).
  destruct (canRotate this && isDirectMode (cachedTargetingMode this));
    reflexivity.
Qed.

(** The shape of a single-interactor frame: nothing for an invalid
    interactor; otherwise a state [stretched] that differs from [this] in
    the stretch bookkeeping only, then a position write if translation is
    enabled, then a rotation write if rotation is enabled and the session is
    Direct.  No event is invoked. *)
Lemma singleInteractorTransform_shape h env interactor this :
  onlyLogs (snd (singleInteractorTransform h env interactor this)) /\
  (fst (singleInteractorTransform h env interactor this) = this \/
   exists stretched newPosition newRotation,
     sameSession stretched this /\
     manipulateRoot stretched = manipulateRoot this /\
     translateFilter stretched = translateFilter this /\
     rotationFilter stretched = rotationFilter this /\
     fst (singleInteractorTransform h env interactor this)
     = let moved :=
         if enableTranslation (config this)
         then updatePosition h env newPosition (useFilter (config this))
                             stretched
         else stretched in
       if canRotate this && isDirectMode (cachedTargetingMode this)
       then updateRotation h env newRotation (useFilter (config this)) moved
       else moved).
Proof.
  unfold singleInteractorTransform.
  destruct (negb (isInteractorValid interactor)).
  { split; [repeat constructor|left; reflexivity]. }
  destruct (enableTranslation (config this)) eqn:Et.
  - destruct (isDirectMode (cachedTargetingMode this)) eqn:Ed.
    + cbn beta iota zeta.
      match goal with
      | |- context [if canRotate ?m && _
                    then (updateRotation h env ?q _ ?m, _) else _] =>
          rewrite (@rotation_tail h env q m this)
            by apply updatePosition_session
      end.
      rewrite Ed. cbn [fst snd]. split; [constructor|]. right.
      exists this. eexists _, _.
      split; [apply sameSession_refl|]. repeat (split; [reflexivity|]).
      cbn zeta. reflexivity.
    + destruct (calculateStretchFactor_session env interactor this)
        as (Hs & Hroot & Ht & Hq).
      destruct (calculateStretchFactor env interactor this)
        as [stretched factor].
      cbn [fst] in Hs, Hroot, Ht, Hq. cbn beta iota zeta.
      set (smoothed :=
             withSmoothedStretch
               (MathUtils.lerp (smoothedStretch this) factor
                  (getDeltaTime env * STRETCH_SMOOTH_SPEED)) stretched).
      assert (Hsm : sameSession smoothed this).
      { eapply sameSession_trans; [|exact Hs].
        unfold smoothed, sameSession. cbn. tauto. }
      match goal with
      | |- context [if canRotate ?m && _
                    then (updateRotation h env ?q _ ?m, _) else _] =>
          rewrite (@rotation_tail h env q m this)
            by (eapply sameSession_trans;
                [apply updatePosition_session|exact Hsm])
      end.
      destruct (session_capabilities Hsm) as (_ & _ & _ & _ & Hu).
      rewrite Ed, Hu, andb_false_r. cbn [fst snd].
      split; [constructor|]. right.
      exists smoothed. eexists _, Quat.quatIdentity.
      split; [exact Hsm|]. split; [exact Hroot|].
      split; [exact Ht|]. split; [exact Hq|]. reflexivity.
  - cbn beta iota zeta.
    match goal with
    | |- context [if canRotate ?m && _
                  then (updateRotation h env ?q _ ?m, _) else _] =>
        rewrite (@rotation_tail h env q m this) by apply sameSession_refl
    end.
    cbn [fst snd]. split; [constructor|]. right.
    exists this. eexists Vec3.zero, _.
    split; [apply sameSession_refl|]. repeat (split; [reflexivity|]).
    reflexivity.
Qed.

(** The shape of a dual frame on two interactors: nothing but log lines when
    a start point is missing; otherwise the direction is solved (the persisted
    up vector may flip), then the rotation is written if rotation is enabled,
    then the translation block and the scale block run. *)
Lemma dualInteractorsTransform_shape h env r0 r1 this :
  exists result,
    dualInteractorsTransform h env [r0; r1] this = Some result /\
    ((fst result = this /\ onlyLogs (snd result)) \/
     exists p1 p2 flipped d log,
       startPoint (interactorObject env r0) = Some p1 /\
       startPoint (interactorObject env r1) = Some p2 /\
       fst (getDualInteractorDirection h (interactorObject env r0)
              (interactorObject env r1) this) = (flipped, Some d) /\
       sameSession flipped this /\
       manipulateRoot flipped = manipulateRoot this /\
       onlyLogs log /\
       let rotated :=
         if canRotate this
         then updateRotation h env (Quat.multiply d (offsetRotation this))
                (useFilter (config this)) flipped
         else flipped in
       let translated :=
         dualTranslation h env (interactorObject env r0)
           (interactorObject env r1)
           (Vec3.uniformScale (Vec3.add p1 p2) (5 / 10)) rotated in
       result
       = (fst (dualScale h env (Vec3.distance p1 p2) translated),
          log ++ snd (dualScale h env (Vec3.distance p1 p2) translated))).
Proof.
  unfold dualInteractorsTransform. cbn zeta.
  match goal with
  | |- context [if ?c then [LogE ?m] else []] =>
      set (complaint := if c then [LogE m] else [])
  end.
  assert (Hcomplaint : onlyLogs complaint).
  { subst complaint. destruct (_ || _); repeat constructor. }
  destruct (startPoint (interactorObject env r0)) as [p1|] eqn:Hp1;
    [destruct (startPoint (interactorObject env r1)) as [p2|] eqn:Hp2|].
  - destruct (getDualInteractorDirection_session h (interactorObject env r0)
                (interactorObject env r1) this) as [Hs Hroot].
    pose proof (ToggleFacts.getDualInteractorDirection_logs h
                  (interactorObject env r0) (interactorObject env r1) this)
      as Hlog.
    assert (Hsome : exists d,
              snd (fst (getDualInteractorDirection h
                          (interactorObject env r0)
                          (interactorObject env r1) this)) = Some d).
    { unfold getDualInteractorDirection. rewrite Hp1, Hp2.
      destruct (rotationAxis (config this)); cbn; eexists; reflexivity. }
    destruct (getDualInteractorDirection h (interactorObject env r0)
                (interactorObject env r1) this) as [[flipped direction] log].
    cbn [fst snd] in Hs, Hroot, Hlog, Hsome. destruct Hsome as [d ->].
    destruct (session_capabilities Hs) as (_ & Hr & _ & _ & Hu).
    destruct Hs as (Hc & Hrest).
    assert (Ho : offsetRotation flipped = offsetRotation this)
      by (decompose [and] Hrest; assumption).
    rewrite Hr, Hu, Ho.
    destruct (dualScale h env (Vec3.distance p1 p2) _) as [final scaled]
      eqn:Hscale.
    eexists. split; [reflexivity|]. right.
    exists p1, p2, flipped, d, (complaint ++ log).
    split; [reflexivity|]. split; [reflexivity|]. split; [reflexivity|].
    split; [split; assumption|]. split; [exact Hroot|].
    split; [apply Forall_app; split; assumption|].
    cbn zeta. rewrite Hscale. cbn [fst snd]. rewrite app_assoc. reflexivity.
  - eexists. split; [reflexivity|]. left. split; [reflexivity|].
    cbn [snd]. apply Forall_app. split; [assumption|repeat constructor].
  - eexists. split; [reflexivity|]. left. split; [reflexivity|].
    cbn [snd]. apply Forall_app. split; [assumption|repeat constructor].
Qed.

(** *** What each write leaves alone in the root transform *)

Lemma updatePosition_keeps h env p useFilter this :
  getWorldRotation (updatePosition h env p useFilter this)
  = getWorldRotation this /\
  getLocalScale (updatePosition h env p useFilter this) = getLocalScale this.
Proof.
  unfold updatePosition.
  destruct useFilter; [destruct (filter _ _ _ _ _)|]; split; reflexivity.
Qed.

Lemma updateRotation_keeps h env q useFilter this :
  getWorldPosition (updateRotation h env q useFilter this)
  = getWorldPosition this /\
  getLocalScale (updateRotation h env q useFilter this) = getLocalScale this.
Proof.
  unfold updateRotation.
  destruct useFilter; [destruct (filter _ _ _ _ _)|]; split; reflexivity.
Qed.

Lemma setScale_keeps h env s useFilter this :
  getWorldPosition (fst (setScale h env s useFilter this))
  = getWorldPosition this /\
  getWorldRotation (fst (setScale h env s useFilter this))
  = getWorldRotation this.
Proof.
  unfold setScale. destruct (negb (canScale this)); [split; reflexivity|].
  destruct (clampUniformScale _ _ _).
  destruct useFilter; [destruct (filter _ _ _ _ _)|]; split; reflexivity.
Qed.

Lemma dualTranslation_session h env i0 i1 mid this :
  sameSession (dualTranslation h env i0 i1 mid this) this.
Proof.
  unfold dualTranslation.
  destruct (enableTranslation (config this)); [|apply sameSession_refl].
  destruct (isDirectMode (cachedTargetingMode this));
    apply updatePosition_session.
Qed.

Lemma dualTranslation_keeps h env i0 i1 mid this :
  getWorldRotation (dualTranslation h env i0 i1 mid this)
  = getWorldRotation this /\
  getLocalScale (dualTranslation h env i0 i1 mid this) = getLocalScale this /\
  (enableTranslation (config this) = false ->
   dualTranslation h env i0 i1 mid this = this).
Proof.
  unfold dualTranslation.
  destruct (enableTranslation (config this)).
  - destruct (isDirectMode (cachedTargetingMode this));
      (split; [apply updatePosition_keeps|]);
      (split; [apply updatePosition_keeps|discriminate]).
  - split; [reflexivity|]. split; reflexivity.
Qed.

Lemma dualScale_session h env d this :
  sameSession (fst (dualScale h env d this)) this.
Proof.
  unfold dualScale.
  destruct (canScale this && negb (Num.eqb (initialInteractorDistance this) 0));
    [|apply sameSession_refl].
  pose proof (setScale_session h env (updatedObjectScale d this)
                (useFilter (config this)) this) as H.
  destruct (setScale h env (updatedObjectScale d this)
              (useFilter (config this)) this). exact H.
Qed.

Lemma dualScale_keeps h env d this :
  getWorldPosition (fst (dualScale h env d this)) = getWorldPosition this /\
  getWorldRotation (fst (dualScale h env d this)) = getWorldRotation this /\
  (canScale this = false -> dualScale h env d this = (this, [])).
Proof.
  unfold dualScale. destruct (canScale this); cbn [andb].
  - destruct (negb (Num.eqb (initialInteractorDistance this) 0)).
    + pose proof (setScale_keeps h env (updatedObjectScale d this)
                    (useFilter (config this)) this) as H.
      destruct (setScale h env (updatedObjectScale d this)
                  (useFilter (config this)) this).
      cbn [fst] in *. destruct H.
      split; [assumption|]. split; [assumption|discriminate].
    + split; [reflexivity|]. split; [reflexivity|discriminate].
  - split; [reflexivity|]. split; reflexivity.
Qed.

(** *** What a frame emits *)

Lemma onlyLogs_onlyUpdates effects : onlyLogs effects -> onlyUpdates effects.
Proof.
  unfold onlyLogs, onlyUpdates. apply Forall_impl. intros e ->. exact I.
Qed.

Lemma onlyLogs_within this effects :
  onlyLogs effects -> withinCapabilities this effects.
Proof.
  unfold onlyLogs, withinCapabilities. apply Forall_impl. intros e ->.
  exact I.
Qed.

Lemma withinCapabilities_session a b effects :
  config a = config b ->
  withinCapabilities a effects -> withinCapabilities b effects.
Proof.
  intros Hc. unfold withinCapabilities. apply Forall_impl. intros e.
  destruct (nameOf e) as [n|]; [|trivial].
  unfold capabilityOn, canTranslate, canRotate, canScale. rewrite Hc.
  trivial.
Qed.

Lemma setScale_effects h env s useFilter this :
  onlyUpdates (snd (setScale h env s useFilter this)) /\
  withinCapabilities this (snd (setScale h env s useFilter this)).
Proof.
  unfold setScale, onlyUpdates, withinCapabilities.
  destruct (canScale this) eqn:Hcan; cbn [negb];
    [|split; constructor].
  destruct (clampUniformScale _ _ _) as [finalScale renewed].
  destruct useFilter; [destruct (filter _ _ _ _ _)|];
    destruct renewed; cbn [snd]; split;
    repeat apply Forall_cons; try apply Forall_nil; cbn; auto.
Qed.

Lemma dualScale_effects h env d this :
  onlyUpdates (snd (dualScale h env d this)) /\
  withinCapabilities this (snd (dualScale h env d this)).
Proof.
  unfold dualScale. destruct (canScale this) eqn:Hcan; cbn [andb];
    [|split; constructor].
  destruct (negb (Num.eqb (initialInteractorDistance this) 0));
    [|split; constructor].
  destruct (setScale_effects h env (updatedObjectScale d this)
              (useFilter (config this)) this) as [Hu Hw].
  destruct (setScale h env (updatedObjectScale d this)
              (useFilter (config this)) this) as [next limit].
  cbn [fst snd] in *. split; apply Forall_app; split; try assumption;
    repeat apply Forall_cons; try apply Forall_nil; cbn; auto.
Qed.

Lemma updateEvents_effects h this :
  let effects :=
    invokeEvents h (Some onTranslationUpdate) (Some onRotationUpdate) None
                 (Some onManipulationUpdate) this in
  onlyUpdates effects /\ withinCapabilities this effects.
Proof.
  unfold invokeEvents, onlyUpdates, withinCapabilities, capabilityOn.
  destruct (canTranslate this) eqn:Ht, (canRotate this) eqn:Hr,
    (canScale this) eqn:Hs; cbn [app];
    split; repeat apply Forall_cons; try apply Forall_nil; cbn;
    rewrite ?Ht, ?Hr, ?Hs; auto.
Qed.

(** *** Steps that keep the parts whose capability is off *)

Lemma keepsLockedAxes_refl c p : keepsLockedAxes c p p.
Proof. unfold keepsLockedAxes. repeat split; reflexivity. Qed.

Lemma partsKept_refl this : partsKept this this.
Proof.
  unfold partsKept. split; [apply sameSession_refl|].
  repeat split; try reflexivity; intros; reflexivity.
Qed.

Lemma partsKept_trans a b c : partsKept a b -> partsKept b c -> partsKept a c.
Proof.
  intros (Hs1 & Hp1 & Hr1 & Hl1 & Ha1) (Hs2 & Hp2 & Hr2 & Hl2 & Ha2).
  destruct (session_capabilities Hs1) as (Ht & Hr & Hsc & _ & Hf).
  pose proof Hs1 as (Hc & _).
  rewrite Ht in Hp2. rewrite Hr in Hr2. rewrite Hsc in Hl2.
  rewrite Hf, Hc in Ha2.
  split; [exact (sameSession_trans Hs2 Hs1)|].
  split; [intros H; rewrite (Hp2 H); exact (Hp1 H)|].
  split; [intros H; rewrite (Hr2 H); exact (Hr1 H)|].
  split; [intros H; rewrite (Hl2 H); exact (Hl1 H)|].
  intros H. destruct (Ha1 H) as (X1 & Y1 & Z1).
  destruct (Ha2 H) as (X2 & Y2 & Z2).
  split; [intros L; rewrite (X2 L); exact (X1 L)|].
  split; [intros L; rewrite (Y2 L); exact (Y1 L)|].
  intros L; rewrite (Z2 L); exact (Z1 L).
Qed.

Lemma partsKept_root this next :
  sameSession next this -> manipulateRoot next = manipulateRoot this ->
  partsKept this next.
Proof.
  intros Hs Hroot. unfold partsKept, getWorldPosition, getWorldRotation,
    getLocalScale. rewrite Hroot. split; [exact Hs|].
  repeat split; reflexivity.
Qed.

Lemma updatePosition_partsKept h env p this :
  canTranslate this = true ->
  partsKept this (updatePosition h env p (useFilter (config this)) this).
Proof.
  intros Hcan. split; [apply updatePosition_session|].
  split; [rewrite Hcan; discriminate|].
  split; [intros _; apply updatePosition_keeps|].
  split; [intros _; apply updatePosition_keeps|].
  intros Hf. rewrite Hf.
  rewrite (@SolverFacts.updatePosition_position h env p false this)
    by (right; reflexivity).
  unfold keepsLockedAxes. cbn [vx vy vz].
  split; [intros L; rewrite L; reflexivity|].
  split; intros L; rewrite L; reflexivity.
Qed.

Lemma updateRotation_partsKept h env q this :
  canRotate this = true ->
  partsKept this (updateRotation h env q (useFilter (config this)) this).
Proof.
  intros Hcan. split; [apply updateRotation_session|].
  split; [intros _; apply updateRotation_keeps|].
  split; [rewrite Hcan; discriminate|].
  split; [intros _; apply updateRotation_keeps|].
  intros _.
  replace (getWorldPosition
             (updateRotation h env q (useFilter (config this)) this))
    with (getWorldPosition this)
    by (symmetry; apply updateRotation_keeps).
  apply keepsLockedAxes_refl.
Qed.

Lemma dualTranslation_partsKept h env i0 i1 mid this :
  partsKept this (dualTranslation h env i0 i1 mid this).
Proof.
  unfold dualTranslation.
  destruct (enableTranslation (config this)) eqn:Hcan;
    [|apply partsKept_refl].
  destruct (isDirectMode (cachedTargetingMode this));
    apply updatePosition_partsKept; exact Hcan.
Qed.

Lemma dualScale_partsKept h env d this :
  partsKept this (fst (dualScale h env d this)).
Proof.
  destruct (dualScale_keeps h env d this) as (Hp & Hr & Hoff).
  split; [apply dualScale_session|].
  split; [intros _; exact Hp|].
  split; [intros _; exact Hr|].
  split; [intros H; rewrite (Hoff H); reflexivity|].
  intros _. rewrite Hp. apply keepsLockedAxes_refl.
Qed.

Lemma singleInteractorTransform_partsKept h env interactor this :
  partsKept this (fst (singleInteractorTransform h env interactor this)).
Proof.
  destruct (singleInteractorTransform_shape h env interactor this)
    as [_ [Heq | (stretched & p & q & Hs & Hroot & _ & _ & Heq)]];
    rewrite Heq; [apply partsKept_refl|].
  destruct (session_capabilities Hs) as (Ht & Hr & _ & _ & Hf).
  assert (Hmoved : partsKept this
            (if enableTranslation (config this)
             then updatePosition h env p (useFilter (config this)) stretched
             else stretched)).
  { apply (@partsKept_trans this stretched);
      [apply partsKept_root; assumption|].
    destruct (enableTranslation (config this)) eqn:Hcan;
      [|apply partsKept_refl].
    rewrite <- Hf. apply updatePosition_partsKept.
    rewrite Ht. exact Hcan. }
  cbv zeta.
  set (moved := if enableTranslation (config this)
                then updatePosition h env p (useFilter (config this)) stretched
                else stretched) in *.
  clearbody moved.
  destruct (canRotate this) eqn:Hcan; cbn [andb]; [|exact Hmoved].
  destruct (isDirectMode (cachedTargetingMode this)); [|exact Hmoved].
  apply (@partsKept_trans this moved); [exact Hmoved|].
  destruct Hmoved as (Hsm & _).
  destruct (session_capabilities Hsm) as (_ & Hrm & _ & _ & Hfm).
  rewrite <- Hfm. apply updateRotation_partsKept. congruence.
Qed.

Lemma dualInteractorsTransform_partsKept h env r0 r1 this :
  exists result,
    dualInteractorsTransform h env [r0; r1] this = Some result /\
    partsKept this (fst result) /\
    onlyUpdates (snd result) /\ withinCapabilities this (snd result).
Proof.
  destruct (dualInteractorsTransform_shape h env r0 r1 this)
    as (result & Heq & [[Hsame Hlogs] | Hrun]);
    exists result; (split; [exact Heq|]).
  - rewrite Hsame. split; [apply partsKept_refl|].
    split; [apply onlyLogs_onlyUpdates|apply onlyLogs_within]; exact Hlogs.
  - destruct Hrun as (p1 & p2 & flipped & d & log & _ & _ & _ & Hs & Hroot
                      & Hlogs & Hres).
    cbv zeta in Hres.
    assert (Hrot : partsKept this
              (if canRotate this
               then updateRotation h env (Quat.multiply d (offsetRotation this))
                      (useFilter (config this)) flipped
               else flipped)).
    { apply (@partsKept_trans this flipped);
        [apply partsKept_root; assumption|].
      destruct (session_capabilities Hs) as (_ & Hr & _ & _ & Hf).
      destruct (canRotate this) eqn:Hcan; [|apply partsKept_refl].
      rewrite <- Hf. apply updateRotation_partsKept. congruence. }
    set (rotated := if canRotate this
                    then updateRotation h env
                           (Quat.multiply d (offsetRotation this))
                           (useFilter (config this)) flipped
                    else flipped) in *.
    clearbody rotated.
    pose proof (dualTranslation_partsKept h env (interactorObject env r0)
                  (interactorObject env r1)
                  (Vec3.uniformScale (Vec3.add p1 p2) (5 / 10)) rotated)
      as Htr.
    set (translated := dualTranslation h env (interactorObject env r0)
                         (interactorObject env r1)
                         (Vec3.uniformScale (Vec3.add p1 p2) (5 / 10))
                         rotated) in *.
    clearbody translated.
    pose proof (partsKept_trans Hrot Htr) as Hbefore.
    pose proof (dualScale_partsKept h env (Vec3.distance p1 p2) translated)
      as Hsc.
    destruct (dualScale_effects h env (Vec3.distance p1 p2) translated)
      as (Hu & Hw).
    rewrite Hres. cbn [fst snd].
    split; [exact (partsKept_trans Hbefore Hsc)|].
    destruct Hbefore as ((Hc & _) & _).
    split; apply Forall_app; split.
    + apply onlyLogs_onlyUpdates. exact Hlogs.
    + exact Hu.
    + apply onlyLogs_within. exact Hlogs.
    + exact (@withinCapabilities_session _ _ _ Hc Hw).
Qed.

(** *** One interactor *)

Lemma updateRotation_rotation h env q useFilter this :
  rotationFilter this = None \/ useFilter = false ->
  getWorldRotation (updateRotation h env q useFilter this) = q.
Proof.
  intros Hfresh. unfold updateRotation, filter.
  destruct useFilter; [|reflexivity].
  destruct Hfresh as [-> | H]; [reflexivity|discriminate].
Qed.

Lemma updatePosition_rotationFilter h env p useFilter this :
  rotationFilter (updatePosition h env p useFilter this)
  = rotationFilter this.
Proof.
  unfold updatePosition.
  destruct useFilter; [destruct (filter _ _ _ _ _)|]; reflexivity.
Qed.

Lemma multiply_identity_l (q : quat) :
  Quat.multiply Quat.quatIdentity q = q.
Proof.
  destruct q. unfold Quat.multiply, Quat.quatIdentity. cbn. f_equal; ring.
Qed.

(** One interactor never scales, and rotates in Direct mode only. *)
Lemma singleInteractorTransform_rest h env interactor this :
  getLocalScale (fst (singleInteractorTransform h env interactor this))
  = getLocalScale this /\
  (isDirectMode (cachedTargetingMode this) = false ->
   getWorldRotation (fst (singleInteractorTransform h env interactor this))
   = getWorldRotation this).
Proof.
  destruct (singleInteractorTransform_shape h env interactor this)
    as [_ [Heq | (stretched & p & q & Hs & Hroot & _ & _ & Heq)]];
    rewrite Heq; [split; reflexivity|].
  cbv zeta.
  assert (Hmoved :
    getLocalScale
      (if enableTranslation (config this)
       then updatePosition h env p (useFilter (config this)) stretched
       else stretched) = getLocalScale this /\
    getWorldRotation
      (if enableTranslation (config this)
       then updatePosition h env p (useFilter (config this)) stretched
       else stretched) = getWorldRotation this).
  { assert (Hl : getLocalScale stretched = getLocalScale this)
      by (unfold getLocalScale; rewrite Hroot; reflexivity).
    assert (Hr : getWorldRotation stretched = getWorldRotation this)
      by (unfold getWorldRotation; rewrite Hroot; reflexivity).
    destruct (enableTranslation (config this)); [|split; assumption].
    destruct (updatePosition_keeps h env p (useFilter (config this)) stretched)
      as (Kr & Kl).
    rewrite Kr, Kl. split; assumption. }
  set (moved := if enableTranslation (config this)
                then updatePosition h env p (useFilter (config this)) stretched
                else stretched) in *.
  clearbody moved. destruct Hmoved as (Hl & Hr).
  split.
  - destruct (canRotate this && isDirectMode (cachedTargetingMode this));
      [|exact Hl].
    destruct (updateRotation_keeps h env q (useFilter (config this)) moved)
      as (_ & Kl).
    rewrite Kl. exact Hl.
  - intros Hmode. rewrite Hmode, Bool.andb_false_r. exact Hr.
Qed.

(** With rotation constrained to one axis, one interactor writes back the
    rotation the root has. *)
Lemma singleInteractorTransform_constrained h env interactor this :
  isAll (rotationAxis (config this)) = false ->
  rotationFilter this = None \/ useFilter (config this) = false ->
  getWorldRotation (fst (singleInteractorTransform h env interactor this))
  = getWorldRotation this.
Proof.
  intros Haxis Hfresh.
  destruct (isDirectMode (cachedTargetingMode this)) eqn:Hmode;
    [|apply singleInteractorTransform_rest; exact Hmode].
  unfold singleInteractorTransform.
  destruct (negb (isInteractorValid interactor)); [reflexivity|].
  cbv zeta. rewrite Haxis, Hmode.
  destruct (enableTranslation (config this)).
  - match goal with
    | |- context [updatePosition h env ?p ?f this] =>
        pose proof (updatePosition_session h env p f this) as Hs;
        pose proof (updatePosition_keeps h env p f this) as (Hr & _);
        pose proof (updatePosition_rotationFilter h env p f this) as Hrf;
        set (moved := updatePosition h env p f this) in *
    end.
    clearbody moved. cbv beta iota.
    destruct (session_capabilities Hs) as (_ & Hcan & _ & Hm & Hf).
    rewrite Hcan, Hm, Hf, Hmode, multiply_identity_l.
    destruct (canRotate this); cbn [andb fst]; [|exact Hr].
    rewrite updateRotation_rotation by (rewrite Hrf; exact Hfresh).
    exact Hr.
  - cbv beta iota. rewrite Hmode, multiply_identity_l.
    destruct (canRotate this); cbn [andb fst]; [|reflexivity].
    apply updateRotation_rotation. exact Hfresh.
Qed.

(** A Direct session whose position offset is the one captured at the grab,
    solved with every axis free and the position unfiltered: the root is at
    its start position moved by what the interactor moved since the grab. *)
Lemma singleInteractorTransform_follows h env interactor p p' o this :
  isInteractorValid interactor = true ->
  startPoint interactor = Some p' ->
  cachedTargetingMode this = Direct ->
  canTranslate this = true ->
  enableXTranslation (config this) = true ->
  enableYTranslation (config this) = true ->
  enableZTranslation (config this) = true ->
  offsetPosition this = Vec3.sub (position (startTransform this)) p ->
  translateFilter this = None \/ useFilter (config this) = false ->
  (canRotate this = true ->
   orientation interactor = Some o /\
   offsetRotation this
   = Quat.multiply (Quat.invert o) (rotation (startTransform this)) /\
   fromEulerVec h (toEulerAngles h o) = o /\
   Quat.norm2 o <> 0 /\ Quat.norm2 (rotation (startTransform this)) <> 0) ->
  getWorldPosition (fst (singleInteractorTransform h env interactor this))
  = Vec3.add (position (startTransform this)) (Vec3.sub p' p).
Proof.
  intros Hvalid Hp Hmode Hcan Hx Hy Hz Hpos Hfresh Hrot.
  unfold singleInteractorTransform.
  rewrite Hvalid, Hp, Hmode. unfold canTranslate in Hcan. rewrite Hcan.
  cbn [negb orElse isDirectMode]. cbv zeta.
  assert (Hnew :
    Vec3.add p'
      (if canRotate this
       then Quat.multiplyVec3
              (Quat.multiply
                 (Quat.multiply
                    (limitQuatRotation h
                       (orElse (orientation interactor) Quat.quatIdentity)
                       this)
                    (offsetRotation this))
                 (Quat.invert (rotation (startTransform this))))
              (offsetPosition this)
       else offsetPosition this)
    = Vec3.add (position (startTransform this)) (Vec3.sub p' p)).
  { rewrite Hpos. unfold limitQuatRotation.
    destruct (canRotate this) eqn:Hc.
    - destruct (Hrot eq_refl) as (Ho & Hoff & Heuler & Hno & Hns).
      rewrite Ho, Hoff. cbn [negb orElse].
      rewrite Heuler, (SolverFacts.grab_rotation_cancels Hno Hns),
        SolverFacts.multiplyVec3_identity.
      destruct p, p', (position (startTransform this)).
      unfold Vec3.add, Vec3.sub. cbn. f_equal; ring.
    - destruct p, p', (position (startTransform this)).
      unfold Vec3.add, Vec3.sub. cbn. f_equal; ring. }
  rewrite Hnew. cbv beta iota.
  match goal with
  | |- context [if ?c then _ else _] => destruct c
  end; cbn [fst]; rewrite ?SolverFacts.updateRotation_position;
    rewrite SolverFacts.updatePosition_position by exact Hfresh;
    rewrite Hx, Hy, Hz; cbn [negb];
    destruct (Vec3.add (position (startTransform this)) (Vec3.sub p' p));
    reflexivity.
Qed.

Lemma run_cons h c rest this :
  run h (c :: rest) this
  = (fst (run h rest (fst (handle h c this))),
     snd (handle h c this) ++ snd (run h rest (fst (handle h c this)))).
Proof.
  cbn [run]. destruct (handle h c this) as [next effects]. cbn [fst snd].
  destruct (run h rest next) as [final later]. reflexivity.
Qed.

Lemma updatePosition_smoothedStretch h env p useFilter this :
  smoothedStretch (updatePosition h env p useFilter this)
  = smoothedStretch this.
Proof.
  unfold updatePosition.
  destruct useFilter; [destruct (filter _ _ _ _ _)|]; reflexivity.
Qed.

(** At one valid interactor that does not target directly,
    [updateStartValues] captures the ray from the start point to the hit
    point and the step from the hit point to the root. *)
Lemma updateStartValues_single_indirect h env this reference p :
  interactors this = [reference] ->
  isInteractorValid (interactorObject env reference) = true ->
  startPoint (interactorObject env reference) = Some p ->
  isDirectMode (activeTargetingMode (interactorObject env reference))
  = false ->
  isDirectMode (cachedTargetingMode (fst (updateStartValues h env this)))
  = false /\
  offsetPosition (fst (updateStartValues h env this))
  = Vec3.sub (getRayPosition (interactorObject env reference)) p /\
  hitPointToTransform (fst (updateStartValues h env this))
  = Vec3.sub (getWorldPosition this)
             (getRayPosition (interactorObject env reference)).
Proof.
  intros Hlist Hvalid Hp Hmode. unfold updateStartValues.
  cbn [interactors withStartTransform withScaleFilter withRotationFilter
       withTranslateFilter withStartStretchInteractorDistance
       withSmoothedStretch withMobileStretch].
  rewrite Hlist. cbn zeta. rewrite Hvalid, Hmode, Hp. cbn.
  repeat split. exact Hmode.
Qed.

(** One interactor in a session that is not Direct, with every axis free
    and the position unfiltered: the root is put on the ray, at the length
    of the grab ray plus the smoothed stretch, and stepped from there as at
    the grab. *)
Lemma singleInteractorTransform_indirect h env interactor p d this :
  isInteractorValid interactor = true ->
  startPoint interactor = Some p ->
  direction interactor = Some d ->
  isDirectMode (cachedTargetingMode this) = false ->
  canTranslate this = true ->
  enableXTranslation (config this) = true ->
  enableYTranslation (config this) = true ->
  enableZTranslation (config this) = true ->
  translateFilter this = None \/ useFilter (config this) = false ->
  smoothedStretch (fst (singleInteractorTransform h env interactor this))
  = MathUtils.lerp (smoothedStretch this)
      (snd (calculateStretchFactor env interactor this))
      (getDeltaTime env * STRETCH_SMOOTH_SPEED) /\
  getWorldPosition (fst (singleInteractorTransform h env interactor this))
  = Vec3.add
      (Vec3.add p
         (Vec3.add (Vec3.uniformScale d (Vec3.length (offsetPosition this)))
                   (hitPointToTransform this)))
      (Vec3.uniformScale d
         (smoothedStretch
            (fst (singleInteractorTransform h env interactor this)))).
Proof.
  intros Hvalid Hp Hd Hmode Hcan Hx Hy Hz Hfresh.
  unfold singleInteractorTransform.
  unfold canTranslate in Hcan.
  rewrite Hvalid, Hp, Hd, Hcan, Hmode. cbn [negb orElse]. cbv zeta.
  destruct (calculateStretchFactor_session env interactor this)
    as (Hs & _ & Ht & _).
  destruct (calculateStretchFactor env interactor this) as [st stretch].
  cbn [fst snd] in *.
  destruct Hs as (Sc & _ & _ & _ & _ & Soff & _ & Shit & _ & _ & Smode).
  cbn [offsetPosition hitPointToTransform smoothedStretch
       withSmoothedStretch config].
  rewrite Sc, Soff, Shit.
  set (smoothed := MathUtils.lerp (smoothedStretch this) stretch
                     (getDeltaTime env * STRETCH_SMOOTH_SPEED)).
  set (target := Vec3.add
                   (Vec3.add p
                      (Vec3.add
                         (Vec3.uniformScale d
                            (Vec3.length (offsetPosition this)))
                         (hitPointToTransform this)))
                   (Vec3.uniformScale d smoothed)).
  cbv beta iota.
  pose proof (updatePosition_session h env target (useFilter (config this))
                (withSmoothedStretch smoothed st)) as Ms.
  pose proof (updatePosition_smoothedStretch h env target
                (useFilter (config this)) (withSmoothedStretch smoothed st))
    as Mstretch.
  pose proof (@SolverFacts.updatePosition_position h env target
                (useFilter (config this)) (withSmoothedStretch smoothed st))
    as Mpos.
  cbn [translateFilter withSmoothedStretch config smoothedStretch]
    in Mpos, Mstretch.
  rewrite Ht, Sc, Hx, Hy, Hz in Mpos. cbn [negb] in Mpos.
  specialize (Mpos Hfresh).
  set (moved := updatePosition h env target (useFilter (config this))
                  (withSmoothedStretch smoothed st)) in *.
  clearbody moved.
  destruct Ms as (_ & _ & _ & _ & _ & _ & _ & _ & _ & _ & Mmode).
  cbn [cachedTargetingMode withSmoothedStretch] in Mmode.
  rewrite Mmode, Smode, Hmode, Bool.andb_false_r. cbn [fst].
  rewrite Mstretch, Mpos. split; [reflexivity|].
  unfold target. destruct (Vec3.add _ (Vec3.uniformScale d smoothed)).
  reflexivity.
Qed.

Lemma length_uniformScale (d : vec3) (k : R) :
  Vec3.length d = 1 -> 0 <= k -> Vec3.length (Vec3.uniformScale d k) = k.
Proof.
  intros Hd Hk. unfold Vec3.length in *.
  assert (Hdot : Vec3.dot d d = 1).
  { rewrite <- (sqrt_sqrt (Vec3.dot d d)).
    - rewrite Hd. ring.
    - unfold Vec3.dot. nra. }
  replace (Vec3.dot (Vec3.uniformScale d k) (Vec3.uniformScale d k))
    with (k * k * Vec3.dot d d)
    by (unfold Vec3.dot, Vec3.uniformScale; cbn; ring).
  rewrite Hdot, Rmult_1_r. apply sqrt_square. exact Hk.
Qed.

(** *** Two interactors *)

Lemma getDualInteractorDirection_some h i1 i2 p1 p2 this :
  startPoint i1 = Some p1 -> startPoint i2 = Some p2 ->
  exists d, snd (fst (getDualInteractorDirection h i1 i2 this)) = Some d.
Proof.
  intros H1 H2. unfold getDualInteractorDirection. rewrite H1, H2.
  destruct (rotationAxis (config this)); cbv zeta beta iota;
    eexists; reflexivity.
Qed.

(** At two valid interactors of which one targets directly,
    [updateStartValues] caches Direct mode and captures the position of the
    root relative to the midpoint of the two start points. *)
Lemma updateStartValues_dual_direct h env this reference0 reference1 p1 p2 :
  interactors this = [reference0; reference1] ->
  isInteractorValid (interactorObject env reference0) = true ->
  isInteractorValid (interactorObject env reference1) = true ->
  startPoint (interactorObject env reference0) = Some p1 ->
  startPoint (interactorObject env reference1) = Some p2 ->
  isDirectMode (activeTargetingMode (interactorObject env reference0))
  || isDirectMode (activeTargetingMode (interactorObject env reference1))
  = true ->
  cachedTargetingMode (fst (updateStartValues h env this)) = Direct /\
  offsetPosition (fst (updateStartValues h env this))
  = Vec3.sub (getWorldPosition this)
             (Vec3.uniformScale (Vec3.add p1 p2) (5 / 10)).
Proof.
  intros Hlist Hv0 Hv1 Hp1 Hp2 Hdirect. unfold updateStartValues.
  cbn [interactors withStartTransform withScaleFilter withRotationFilter
       withTranslateFilter withStartStretchInteractorDistance
       withSmoothedStretch withMobileStretch].
  rewrite Hlist. cbn zeta. rewrite Hv0, Hv1, Hp1, Hp2, Hdirect.
  cbn [negb orb orElse].
  match goal with
  | |- context [getDualInteractorDirection ?h ?a ?b ?s] =>
      pose proof (ToggleFacts.getDualInteractorDirection_frame h a b s) as F;
      destruct (@getDualInteractorDirection_some h a b p1 p2 s Hp1 Hp2)
        as [dd Hd];
      destruct (getDualInteractorDirection h a b s) as [[s' d] l]
  end.
  cbn zeta in F. cbn [fst snd] in F, Hd. rewrite Hd.
  destruct F as (_ & _ & _ & _ & Fstart & _ & _ & _ & _ & _ & _ & _ & Fmode
                 & _).
  cbn. rewrite Fstart, Fmode. split; reflexivity.
Qed.

Lemma multiply_invert_cancel (o s : quat) :
  Quat.norm2 o <> 0 ->
  Quat.multiply o (Quat.multiply (Quat.invert o) s) = s.
Proof.
  destruct o as [ow ox oy oz], s as [sw sx sy sz].
  unfold Quat.multiply, Quat.invert, Quat.norm2. cbn.
  intros Ho. f_equal; field; exact Ho.
Qed.

Lemma eqb_eq (a b : R) : Num.eqb a b = true -> a = b.
Proof. unfold Num.eqb. destruct (Req_dec_T a b); congruence. Qed.

(** The direction solve settles: solved again at the same two start points,
    on a component with the inputs, the up vector and the sign it left, it
    flips nothing and returns the same direction. *)
Lemma getDualInteractorDirection_again h i1 i2 j1 j2 p1 p2 this g :
  startPoint i1 = Some p1 -> startPoint i2 = Some p2 ->
  startPoint j1 = Some p1 -> startPoint j2 = Some p2 ->
  config g = config (fst (fst (getDualInteractorDirection h i1 i2 this))) ->
  currentRotationSign g
  = currentRotationSign (fst (fst (getDualInteractorDirection h i1 i2 this))) ->
  currentUp g = currentUp (fst (fst (getDualInteractorDirection h i1 i2 this))) ->
  getDualInteractorDirection h j1 j2 g
  = (g, snd (fst (getDualInteractorDirection h i1 i2 this)), []).
Proof.
  intros Hi1 Hi2 Hj1 Hj2. unfold getDualInteractorDirection.
  rewrite Hi1, Hi2, Hj1, Hj2.
  destruct (rotationAxis (config this)) eqn:Haxis; cbv zeta beta iota;
    match goal with
    | |- context [Num.eqb ?s (currentRotationSign this)] =>
        destruct (Num.eqb s (currentRotationSign this)) eqn:Hsign
    end;
    cbn [fst snd config currentRotationSign currentUp
         withCurrentRotationSign withCurrentUp];
    intros Hc Hs Hu; rewrite Hc, Haxis; cbv beta iota; rewrite Hs;
    rewrite ?Hsign, ?SolverFacts.eqb_true; rewrite Hu;
    unfold limitQuatRotation, canRotate;
    cbn [config withCurrentRotationSign withCurrentUp]; rewrite Hc;
    reflexivity.
Qed.

(** At two valid interactors, [updateStartValues] leaves the component as
    the direction solve settled it, and captures the rotation of the root
    relative to the direction it solved. *)
Lemma updateStartValues_dual_rotation h env this reference0 reference1 p1 p2 :
  interactors this = [reference0; reference1] ->
  isInteractorValid (interactorObject env reference0) = true ->
  isInteractorValid (interactorObject env reference1) = true ->
  startPoint (interactorObject env reference0) = Some p1 ->
  startPoint (interactorObject env reference1) = Some p2 ->
  exists before d0,
    snd (fst (getDualInteractorDirection h (interactorObject env reference0)
                (interactorObject env reference1) before)) = Some d0 /\
    config (fst (updateStartValues h env this))
    = config (fst (fst (getDualInteractorDirection h
                          (interactorObject env reference0)
                          (interactorObject env reference1) before))) /\
    currentRotationSign (fst (updateStartValues h env this))
    = currentRotationSign
        (fst (fst (getDualInteractorDirection h
                     (interactorObject env reference0)
                     (interactorObject env reference1) before))) /\
    currentUp (fst (updateStartValues h env this))
    = currentUp (fst (fst (getDualInteractorDirection h
                             (interactorObject env reference0)
                             (interactorObject env reference1) before))) /\
    offsetRotation (fst (updateStartValues h env this))
    = Quat.multiply (Quat.invert d0) (getWorldRotation this).
Proof.
  intros Hlist Hv0 Hv1 Hp1 Hp2. unfold updateStartValues.
  cbn [interactors withStartTransform withScaleFilter withRotationFilter
       withTranslateFilter withStartStretchInteractorDistance
       withSmoothedStretch withMobileStretch].
  rewrite Hlist. cbn zeta. rewrite Hv0, Hv1, Hp1, Hp2.
  cbn [negb orb orElse].
  match goal with
  | |- context [getDualInteractorDirection ?h ?a ?b ?s] =>
      exists s;
      pose proof (ToggleFacts.getDualInteractorDirection_frame h a b s) as F;
      destruct (@getDualInteractorDirection_some h a b p1 p2 s Hp1 Hp2)
        as [dd Hd];
      destruct (getDualInteractorDirection h a b s) as [[s' d] l]
  end.
  cbn zeta in F. cbn [fst snd] in F, Hd. rewrite Hd. exists dd.
  destruct F as (_ & _ & _ & _ & Fstart & _).
  split; [reflexivity|].
  destruct (_ || _); cbn; rewrite Fstart; repeat split.
Qed.

(** A two-interactor frame at the start points of the grab, on the component
    as the grab left it: the rotation written is the rotation of the root at
    the grab. *)
Lemma dualInteractorsTransform_at_grab h env r0 r1 p1 p2 d0 R0 this :
  startPoint (interactorObject env r0) = Some p1 ->
  startPoint (interactorObject env r1) = Some p2 ->
  getDualInteractorDirection h (interactorObject env r0)
    (interactorObject env r1) this = (this, Some d0, []) ->
  canRotate this = true ->
  offsetRotation this = Quat.multiply (Quat.invert d0) R0 ->
  Quat.norm2 d0 <> 0 ->
  rotationFilter this = None \/ useFilter (config this) = false ->
  exists result,
    dualInteractorsTransform h env [r0; r1] this = Some result /\
    getWorldRotation (fst result) = R0.
Proof.
  intros Hp1 Hp2 Hsolve Hcan Hoff Hnorm Hfresh.
  unfold dualInteractorsTransform. cbv zeta. rewrite Hp1, Hp2, Hsolve, Hcan.
  assert (Hrot :
    getWorldRotation
      (updateRotation h env (Quat.multiply d0 (offsetRotation this))
                      (useFilter (config this)) this) = R0).
  { rewrite updateRotation_rotation by exact Hfresh.
    rewrite Hoff. apply multiply_invert_cancel. exact Hnorm. }
  set (rotated := updateRotation h env
                    (Quat.multiply d0 (offsetRotation this))
                    (useFilter (config this)) this) in *.
  clearbody rotated.
  destruct (dualTranslation_keeps h env (interactorObject env r0)
              (interactorObject env r1)
              (Vec3.uniformScale (Vec3.add p1 p2) (5 / 10)) rotated)
    as (Tr & _).
  set (translated := dualTranslation h env (interactorObject env r0)
                       (interactorObject env r1)
                       (Vec3.uniformScale (Vec3.add p1 p2) (5 / 10))
                       rotated) in *.
  clearbody translated.
  destruct (dualScale_keeps h env (Vec3.distance p1 p2) translated)
    as (_ & Sr & _).
  destruct (dualScale h env (Vec3.distance p1 p2) translated)
    as [scaled effects].
  eexists. split; [reflexivity|]. cbn [fst] in *.
  rewrite Sr, Tr. exact Hrot.
Qed.

(** A Direct two-interactor frame without rotation, with every axis free
    and the position unfiltered: the root is at the midpoint of the start
    points plus the offset captured at the grab. *)
Lemma dualInteractorsTransform_follows h env r0 r1 q1 q2 this :
  startPoint (interactorObject env r0) = Some q1 ->
  startPoint (interactorObject env r1) = Some q2 ->
  cachedTargetingMode this = Direct ->
  canTranslate this = true ->
  canRotate this = false ->
  enableXTranslation (config this) = true ->
  enableYTranslation (config this) = true ->
  enableZTranslation (config this) = true ->
  translateFilter this = None \/ useFilter (config this) = false ->
  exists result,
    dualInteractorsTransform h env [r0; r1] this = Some result /\
    getWorldPosition (fst result)
    = Vec3.add (Vec3.uniformScale (Vec3.add q1 q2) (5 / 10))
               (offsetPosition this).
Proof.
  intros Hq1 Hq2 Hmode Hcan Hrot Hx Hy Hz Hfresh.
  unfold dualInteractorsTransform. cbv zeta. rewrite Hq1, Hq2.
  pose proof (ToggleFacts.getDualInteractorDirection_frame h
                (interactorObject env r0) (interactorObject env r1) this)
    as F.
  destruct (@getDualInteractorDirection_some h (interactorObject env r0)
              (interactorObject env r1) q1 q2 this Hq1 Hq2) as [dd Hd].
  destruct (getDualInteractorDirection h (interactorObject env r0)
              (interactorObject env r1) this) as [[flipped d] log].
  cbv zeta in F. cbn [fst snd] in F, Hd. rewrite Hd.
  destruct F as (Fc & _ & Froot & _ & _ & Ft & _ & _ & Foff & _ & _ & _
                 & Fmode & _).
  assert (Frot : canRotate flipped = false)
    by (unfold canRotate; rewrite Fc; exact Hrot).
  rewrite Frot.
  assert (Hmoved :
    getWorldPosition
      (dualTranslation h env (interactorObject env r0)
         (interactorObject env r1)
         (Vec3.uniformScale (Vec3.add q1 q2) (5 / 10)) flipped)
    = Vec3.add (Vec3.uniformScale (Vec3.add q1 q2) (5 / 10))
               (offsetPosition this)).
  { unfold dualTranslation. unfold canTranslate in Hcan.
    rewrite Fc, Hcan, Fmode, Hmode, Frot. cbn [isDirectMode andb].
    rewrite SolverFacts.updatePosition_position
      by (rewrite Ft; exact Hfresh).
    rewrite Fc, Hx, Hy, Hz, Foff. cbn [negb].
    destruct (Vec3.add (Vec3.uniformScale (Vec3.add q1 q2) (5 / 10))
                       (offsetPosition this)); reflexivity. }
  set (translated := dualTranslation h env (interactorObject env r0)
                       (interactorObject env r1)
                       (Vec3.uniformScale (Vec3.add q1 q2) (5 / 10))
                       flipped) in *.
  clearbody translated.
  destruct (dualScale_keeps h env (Vec3.distance q1 q2) translated)
    as (Hkeep & _).
  destruct (dualScale h env (Vec3.distance q1 q2) translated)
    as [scaled effects].
  eexists. split; [reflexivity|]. cbn [fst] in *.
  rewrite Hkeep. exact Hmoved.
Qed.

(** Every trigger-update call returns, and what it returns. *)
Lemma onTriggerUpdate_frame h env this :
  exists next effects,
    onTriggerUpdate h env this = Some (next, effects) /\
    partsKept this next /\
    onlyUpdates effects /\ withinCapabilities this effects.
Proof.
  unfold onTriggerUpdate.
  destruct (offDuty this).
  { exists this, []. split; [reflexivity|].
    split; [apply partsKept_refl|]. split; constructor. }
  destruct (interactors this) as [|r0 [|r1 [|r2 rest]]] eqn:Hint.
  - eexists _, _. split; [reflexivity|].
    split; [apply partsKept_refl|].
    split; repeat constructor.
  - pose proof (singleInteractorTransform_partsKept h env
                  (interactorObject env r0) this) as Hk.
    destruct (singleInteractorTransform_shape h env
                (interactorObject env r0) this) as [Hlogs _].
    destruct (singleInteractorTransform h env (interactorObject env r0) this)
      as [next log].
    cbn [fst snd] in *.
    exists next, (log ++ invokeEvents h (Some onTranslationUpdate)
                    (Some onRotationUpdate) None (Some onManipulationUpdate)
                    next).
    split; [reflexivity|]. split; [exact Hk|].
    destruct (updateEvents_effects h next) as (Hu & Hw).
    destruct Hk as ((Hc & _) & _).
    split; apply Forall_app; split.
    + apply onlyLogs_onlyUpdates. exact Hlogs.
    + exact Hu.
    + apply onlyLogs_within. exact Hlogs.
    + exact (@withinCapabilities_session _ _ _ Hc Hw).
  - destruct (dualInteractorsTransform_partsKept h env r0 r1 this)
      as ([next log] & Heq & Hk & Hu0 & Hw0).
    rewrite Heq. cbn [option_map fst snd] in *.
    eexists _, _. split; [reflexivity|]. split; [exact Hk|].
    destruct (updateEvents_effects h next) as (Hu & Hw).
    destruct Hk as ((Hc & _) & _).
    split; apply Forall_app; split; try assumption.
    exact (@withinCapabilities_session _ _ _ Hc Hw).
  - eexists _, _. split; [reflexivity|].
    split; [apply partsKept_refl|].
    split; repeat constructor.
Qed.

End UpdateFacts.

(** ** InteractableManipulation: what every frame guarantees *)

Module FrameFacts.
Import InteractableManipulation OneEuro ManipulationRuns.
Local Open Scope R_scope.

(** X6.  The trigger-update handler returns in every state and every frame:
    the only call of [dualInteractorsTransform] is made with two interactors,
    so its dereference of the second one never throws.  What it returns keeps
    the session (the inputs, the interactor list, the cached original and
    start transforms, the grab offsets, the initial distance and scale and
    the cached targeting mode); every event it invokes is an update event or
    [onScaleLimitReached], never a start or an end event, and belongs to a
    capability that is on. *)
Theorem update_returns_and_keeps_the_session :
  forall h env this,
    exists next effects,
      onTriggerUpdate h env this = Some (next, effects) /\
      sameSession next this /\
      onlyUpdates effects /\
      withinCapabilities this effects.
Proof.
  intros h env this.
  destruct (UpdateFacts.onTriggerUpdate_frame h env this)
    as (next & effects & Heq & (Hs & _) & Hu & Hw).
  exists next, effects. split; [exact Heq|]. split; [exact Hs|].
  split; assumption.
Qed.

(** X7.  A capability that is off keeps its part of the root transform
    through every trigger-update call, with one interactor or with two:
    without translation the world position stays, without rotation the world
    rotation stays, without scale the local scale stays. *)
Theorem disabled_capability_keeps_its_part :
  forall h env this,
    let next := fst (handle h (CallUpdate env) this) in
    (canTranslate this = false ->
     getWorldPosition next = getWorldPosition this) /\
    (canRotate this = false ->
     getWorldRotation next = getWorldRotation this) /\
    (canScale this = false -> getLocalScale next = getLocalScale this).
Proof.
  intros h env this. cbv zeta. unfold handle.
  destruct (UpdateFacts.onTriggerUpdate_frame h env this)
    as (next & effects & Heq & (_ & Hp & Hr & Hl & _) & _).
  rewrite Heq. cbn [fst]. split; [exact Hp|]. split; assumption.
Qed.

Lemma disabled_capability_keeps_its_part_witness :
  (getWorldRotation
     (fst (handle Sample.host (CallUpdate (Sample.frame [Scenes.leftMoved]))
             (Scenes.held Scenes.translateOnly)))
   = getWorldRotation (Scenes.held Scenes.translateOnly) /\
   getLocalScale
     (fst (handle Sample.host (CallUpdate (Sample.frame [Scenes.leftMoved]))
             (Scenes.held Scenes.translateOnly)))
   = getLocalScale (Scenes.held Scenes.translateOnly)) /\
  getWorldPosition
    (fst (handle Sample.host (CallUpdate (Sample.frame [Scenes.leftMoved]))
            (Scenes.held Scenes.inPlace)))
  = getWorldPosition (Scenes.held Scenes.inPlace).
Proof.
  destruct (disabled_capability_keeps_its_part Sample.host
              (Sample.frame [Scenes.leftMoved])
              (Scenes.held Scenes.translateOnly)) as (_ & Hr & Hl).
  destruct (disabled_capability_keeps_its_part Sample.host
              (Sample.frame [Scenes.leftMoved])
              (Scenes.held Scenes.inPlace)) as (Hp & _ & _).
  split; [split|].
  - apply Hr. reflexivity.
  - apply Hl. reflexivity.
  - apply Hp. reflexivity.
Defined.

(** X8.  With filtering off, a trigger-update call never moves the root
    along a translation axis that is locked, with one interactor or with
    two. *)
Theorem locked_axis_never_moves :
  forall h env this,
    useFilter (config this) = false ->
    let next := fst (handle h (CallUpdate env) this) in
    (enableXTranslation (config this) = false ->
     vx (getWorldPosition next) = vx (getWorldPosition this)) /\
    (enableYTranslation (config this) = false ->
     vy (getWorldPosition next) = vy (getWorldPosition this)) /\
    (enableZTranslation (config this) = false ->
     vz (getWorldPosition next) = vz (getWorldPosition this)).
Proof.
  intros h env this Hf. cbv zeta. unfold handle.
  destruct (UpdateFacts.onTriggerUpdate_frame h env this)
    as (next & effects & Heq & (_ & _ & _ & _ & Ha) & _).
  rewrite Heq. cbn [fst]. exact (Ha Hf).
Qed.

Lemma locked_axis_never_moves_witness :
  vx (getWorldPosition
        (fst (handle Sample.host
                (CallUpdate (Sample.frame [Scenes.leftMoved]))
                (Scenes.held Scenes.lockedX))))
  = vx (getWorldPosition (Scenes.held Scenes.lockedX)).
Proof.
  destruct (@locked_axis_never_moves Sample.host
              (Sample.frame [Scenes.leftMoved]) (Scenes.held Scenes.lockedX)
              eq_refl) as (Hx & _ & _).
  apply Hx. reflexivity.
Defined.

(** X9.  A trigger-update call with one interactor never scales the root
    and rotates it in Direct targeting mode only; and when rotation is
    constrained to one axis it does not rotate the root at all, provided the
    rotation is unfiltered or its filter has just been reset. *)
Theorem one_interactor_rotates_freely_or_not_at_all :
  forall h env this reference,
    interactors this = [reference] ->
    let next := fst (handle h (CallUpdate env) this) in
    getLocalScale next = getLocalScale this /\
    (cachedTargetingMode this <> Direct ->
     getWorldRotation next = getWorldRotation this) /\
    (rotationAxis (config this) <> RotationAxis.All ->
     rotationFilter this = None \/ useFilter (config this) = false ->
     getWorldRotation next = getWorldRotation this).
Proof.
  intros h env this reference Hone next.
  assert (Hnext : next = if offDuty this then this
                         else fst (singleInteractorTransform h env
                                     (interactorObject env reference) this)).
  { unfold next, handle, onTriggerUpdate. rewrite Hone.
    destruct (offDuty this); reflexivity. }
  clearbody next. rewrite Hnext.
  destruct (offDuty this); [repeat split; reflexivity|].
  destruct (UpdateFacts.singleInteractorTransform_rest h env
              (interactorObject env reference) this) as (Hl & Hr).
  split; [exact Hl|]. split.
  - intros Hmode. apply Hr.
    destruct (cachedTargetingMode this); try reflexivity. congruence.
  - intros Haxis Hfresh.
    apply UpdateFacts.singleInteractorTransform_constrained;
      [|exact Hfresh].
    destruct (rotationAxis (config this)); try reflexivity. congruence.
Qed.

Lemma one_interactor_rotates_freely_or_not_at_all_witness :
  getLocalScale
    (fst (handle Sample.host (CallUpdate (Sample.frame [Scenes.leftMoved]))
            (Scenes.held Scenes.aboutY)))
  = getLocalScale (Scenes.held Scenes.aboutY) /\
  getWorldRotation
    (fst (handle Sample.host (CallUpdate (Sample.frame [Scenes.leftMoved]))
            (Scenes.held Scenes.aboutY)))
  = getWorldRotation (Scenes.held Scenes.aboutY).
Proof.
  destruct (@one_interactor_rotates_freely_or_not_at_all Sample.host
              (Sample.frame [Scenes.leftMoved]) (Scenes.held Scenes.aboutY)
              0%nat eq_refl) as (Hl & _ & Hr).
  split; [exact Hl|]. apply Hr.
  - discriminate.
  - left. reflexivity.
Defined.

(** The state a toggle leaves when it observes an interactor. *)
Lemma onTriggerToggle_grab h env this :
  offDuty this = false ->
  getTriggeringInteractors env <> [] ->
  fst (onTriggerToggle h env this)
  = fst (updateStartValues h env
           (withInteractors (getTriggeringInteractors env) this)).
Proof.
  intros Hduty Hsome. unfold onTriggerToggle. rewrite Hduty.
  destruct (getTriggeringInteractors env) as [|i rest] eqn:Hcur;
    [congruence|].
  cbn [List.length Nat.ltb Nat.leb].
  destruct (updateStartValues h env (withInteractors (i :: rest) this))
    as [next log]; reflexivity.
Qed.

Lemma run_updates_session h updates :
  forall this,
    sameSession (fst (run h (map CallUpdate updates) this)) this.
Proof.
  induction updates as [|env rest IH]; intros this.
  - apply UpdateFacts.sameSession_refl.
  - cbn [map]. rewrite UpdateFacts.run_cons. cbn [fst].
    apply (@UpdateFacts.sameSession_trans _
             (fst (handle h (CallUpdate env) this)));
      [apply IH|].
    unfold handle.
    destruct (UpdateFacts.onTriggerUpdate_frame h env this)
      as (next & effects & Heq & (Hs & _) & _).
    rewrite Heq. exact Hs.
Qed.

(** X10.  A Direct one-hand drag tracks the hand one to one, whatever path
    the hand took: the component grabs on a single valid interactor in
    Direct targeting mode, any number of trigger updates follow, and then a
    trigger update runs on the interactor at [p'].  With translation on,
    every axis free and filtering off, the root is then at the position it
    had at the grab moved by [p' - p], where [p] is where the interactor
    was at the grab.  When rotation is enabled this needs the interactor to
    have its grab orientation in that last frame, the host's Euler-angle
    round trip to return it, and the orientation and the root rotation at
    the grab to be invertible. *)
Theorem direct_drag_tracks_the_hand :
  forall h env updates env' reference p p' o this,
    offDuty this = false ->
    canTranslate this = true ->
    useFilter (config this) = false ->
    enableXTranslation (config this) = true ->
    enableYTranslation (config this) = true ->
    enableZTranslation (config this) = true ->
    getTriggeringInteractors env = [reference] ->
    isInteractorValid (interactorObject env reference) = true ->
    startPoint (interactorObject env reference) = Some p ->
    orientation (interactorObject env reference) = Some o ->
    activeTargetingMode (interactorObject env reference) = Direct ->
    isInteractorValid (interactorObject env' reference) = true ->
    startPoint (interactorObject env' reference) = Some p' ->
    (canRotate this = true ->
     orientation (interactorObject env' reference) = Some o /\
     fromEulerVec h (toEulerAngles h o) = o /\
     Quat.norm2 o <> 0 /\ Quat.norm2 (getWorldRotation this) <> 0) ->
    let grabbed := fst (onTriggerToggle h env this) in
    let dragged := fst (run h (map CallUpdate updates) grabbed) in
    getWorldPosition (fst (handle h (CallUpdate env') dragged))
    = Vec3.add (getWorldPosition this) (Vec3.sub p' p).
Proof.
  intros h env updates env' reference p p' o this Hduty Hcan Hf Hx Hy Hz
         Hcur Hvalid Hp Ho Hmode Hvalid' Hp' Hrot.
  cbv zeta.
  assert (Hsome : getTriggeringInteractors env <> [])
    by (rewrite Hcur; discriminate).
  rewrite (@onTriggerToggle_grab h env this Hduty Hsome), Hcur.
  destruct (@ToggleFacts.updateStartValues_single_direct h env
              (withInteractors [reference] this) reference
              (interactorObject env reference) p o
              eq_refl eq_refl Hvalid Hp Ho Hmode) as (Gmode & Gpos & Grot).
  pose proof (ToggleFacts.updateStartValues_frame h env
                (withInteractors [reference] this)) as F.
  cbv zeta in F.
  destruct F as (Fc & Fi & _ & _ & _ & _ & _ & Fstart & _).
  set (grabbed := fst (updateStartValues h env
                         (withInteractors [reference] this))) in *.
  clearbody grabbed.
  pose proof (run_updates_session h updates grabbed) as Hs.
  set (dragged := fst (run h (map CallUpdate updates) grabbed)) in *.
  clearbody dragged.
  change (getWorldPosition (withInteractors [reference] this))
    with (getWorldPosition this) in Gpos.
  change (getWorldRotation (withInteractors [reference] this))
    with (getWorldRotation this) in Grot.
  change (config (withInteractors [reference] this)) with (config this) in Fc.
  change (interactors (withInteractors [reference] this))
    with [reference] in Fi.
  destruct Hs as (Sc & Si & _ & _ & Sstart & Spos & Srot & _ & _ & _ & Smode).
  assert (Dstart : startTransform dragged = snapshot h this)
    by (rewrite Sstart; exact Fstart).
  assert (Dc : config dragged = config this) by (rewrite Sc; exact Fc).
  assert (Dduty : offDuty dragged = false)
    by (rewrite (ToggleFacts.offDuty_config dragged this Dc); exact Hduty).
  unfold handle, onTriggerUpdate. rewrite Dduty, Si, Fi. cbn [fst].
  replace (getWorldPosition this) with (position (startTransform dragged))
    by (rewrite Dstart; reflexivity).
  apply (@UpdateFacts.singleInteractorTransform_follows h env'
           (interactorObject env' reference) p p' o dragged);
    try assumption.
  - rewrite Smode. exact Gmode.
  - unfold canTranslate. rewrite Dc. exact Hcan.
  - rewrite Dc. exact Hx.
  - rewrite Dc. exact Hy.
  - rewrite Dc. exact Hz.
  - rewrite Spos, Gpos, Dstart. reflexivity.
  - right. rewrite Dc. exact Hf.
  - intros Hr. unfold canRotate in Hr. rewrite Dc in Hr.
    destruct (Hrot Hr) as (Ho' & Heuler & Hno & Hns).
    split; [exact Ho'|]. split; [rewrite Srot, Grot, Dstart; reflexivity|].
    split; [exact Heuler|]. split; [exact Hno|].
    rewrite Dstart. exact Hns.
Qed.

Lemma direct_drag_tracks_the_hand_witness :
  getWorldPosition
    (fst (handle Sample.host (CallUpdate (Sample.frame [Scenes.leftMoved]))
            (fst (run Sample.host
                    (map CallUpdate [Sample.frame [Sample.rightMoved]])
                    (fst (onTriggerToggle Sample.host
                            (Sample.frame [Sample.left])
                            (awake Sample.host Scenes.translateOnly
                                   Sample.root)))))))
  = Vec3.add (getWorldPosition (awake Sample.host Scenes.translateOnly
                                      Sample.root))
             (Vec3.sub (mkVec3 3 4 5) (mkVec3 0 0 0)).
Proof.
  apply (@direct_drag_tracks_the_hand Sample.host
           (Sample.frame [Sample.left]) [Sample.frame [Sample.rightMoved]]
           (Sample.frame [Scenes.leftMoved]) 0%nat (mkVec3 0 0 0)
           (mkVec3 3 4 5) Quat.quatIdentity
           (awake Sample.host Scenes.translateOnly Sample.root));
    try reflexivity.
  intros H. discriminate H.
Defined.

(** X11.  A Direct two-hand drag carries the object with the midpoint of
    the hands, whatever path the hands took: the component grabs on two
    valid interactors of which one targets directly, any number of trigger
    updates follow, and then a trigger update runs in a frame in which the
    interactors are at [q1] and [q2].  With translation on, rotation off,
    every axis free and filtering off, the root is then at the position it
    had at the grab moved by what the midpoint moved since the grab.  The
    interactors need not be valid in that last frame. *)
Theorem two_hand_drag_tracks_the_midpoint :
  forall h env updates env' reference0 reference1 p1 p2 q1 q2 this,
    offDuty this = false ->
    canTranslate this = true ->
    canRotate this = false ->
    useFilter (config this) = false ->
    enableXTranslation (config this) = true ->
    enableYTranslation (config this) = true ->
    enableZTranslation (config this) = true ->
    getTriggeringInteractors env = [reference0; reference1] ->
    isInteractorValid (interactorObject env reference0) = true ->
    isInteractorValid (interactorObject env reference1) = true ->
    startPoint (interactorObject env reference0) = Some p1 ->
    startPoint (interactorObject env reference1) = Some p2 ->
    isDirectMode (activeTargetingMode (interactorObject env reference0))
    || isDirectMode (activeTargetingMode (interactorObject env reference1))
    = true ->
    startPoint (interactorObject env' reference0) = Some q1 ->
    startPoint (interactorObject env' reference1) = Some q2 ->
    let grabbed := fst (onTriggerToggle h env this) in
    let dragged := fst (run h (map CallUpdate updates) grabbed) in
    getWorldPosition (fst (handle h (CallUpdate env') dragged))
    = Vec3.add (getWorldPosition this)
               (Vec3.sub (Vec3.uniformScale (Vec3.add q1 q2) (5 / 10))
                         (Vec3.uniformScale (Vec3.add p1 p2) (5 / 10))).
Proof.
  intros h env updates env' r0 r1 p1 p2 q1 q2 this Hduty Hcan Hrot Hf
         Hx Hy Hz Hcur Hv0 Hv1 Hp1 Hp2 Hdirect Hq1 Hq2.
  cbv zeta.
  assert (Hsome : getTriggeringInteractors env <> [])
    by (rewrite Hcur; discriminate).
  rewrite (@onTriggerToggle_grab h env this Hduty Hsome), Hcur.
  destruct (@UpdateFacts.updateStartValues_dual_direct h env
              (withInteractors [r0; r1] this) r0 r1 p1 p2
              eq_refl Hv0 Hv1 Hp1 Hp2 Hdirect) as (Gmode & Gpos).
  pose proof (ToggleFacts.updateStartValues_frame h env
                (withInteractors [r0; r1] this)) as F.
  cbv zeta in F.
  destruct F as (Fc & Fi & _).
  set (grabbed := fst (updateStartValues h env
                         (withInteractors [r0; r1] this))) in *.
  clearbody grabbed.
  pose proof (run_updates_session h updates grabbed) as Hs.
  set (dragged := fst (run h (map CallUpdate updates) grabbed)) in *.
  clearbody dragged.
  change (getWorldPosition (withInteractors [r0; r1] this))
    with (getWorldPosition this) in Gpos.
  change (config (withInteractors [r0; r1] this)) with (config this) in Fc.
  change (interactors (withInteractors [r0; r1] this)) with [r0; r1] in Fi.
  destruct Hs as (Sc & Si & _ & _ & _ & Spos & _ & _ & _ & _ & Smode).
  assert (Dc : config dragged = config this) by (rewrite Sc; exact Fc).
  assert (Dduty : offDuty dragged = false)
    by (rewrite (ToggleFacts.offDuty_config dragged this Dc); exact Hduty).
  destruct (@UpdateFacts.dualInteractorsTransform_follows h env' r0 r1 q1 q2
              dragged Hq1 Hq2) as (result & Hrun & Hpos).
  - rewrite Smode. exact Gmode.
  - unfold canTranslate. rewrite Dc. exact Hcan.
  - unfold canRotate. rewrite Dc. exact Hrot.
  - rewrite Dc. exact Hx.
  - rewrite Dc. exact Hy.
  - rewrite Dc. exact Hz.
  - right. rewrite Dc. exact Hf.
  - unfold handle, onTriggerUpdate. rewrite Dduty, Si, Fi, Hrun.
    cbn [option_map fst]. rewrite Hpos, Spos, Gpos.
    destruct (getWorldPosition this),
      (Vec3.uniformScale (Vec3.add q1 q2) (5 / 10)),
      (Vec3.uniformScale (Vec3.add p1 p2) (5 / 10)).
    unfold Vec3.add, Vec3.sub. cbn [vx vy vz]. f_equal; ring.
Qed.

Lemma two_hand_drag_tracks_the_midpoint_witness :
  getWorldPosition
    (fst (handle Sample.host
            (CallUpdate (Sample.frame [Scenes.leftMoved; Sample.rightMoved]))
            (fst (run Sample.host
                    (map CallUpdate [Sample.frame [Sample.left; Sample.rightFar]])
                    (fst (onTriggerToggle Sample.host
                            (Sample.frame [Sample.left; Sample.right])
                            (awake Sample.host Scenes.translateOnly
                                   Sample.root)))))))
  = Vec3.add (getWorldPosition (awake Sample.host Scenes.translateOnly
                                      Sample.root))
             (Vec3.sub
                (Vec3.uniformScale
                   (Vec3.add (mkVec3 3 4 5) (mkVec3 20 0 0)) (5 / 10))
                (Vec3.uniformScale
                   (Vec3.add (mkVec3 0 0 0) (mkVec3 10 0 0)) (5 / 10))).
Proof.
  apply (@two_hand_drag_tracks_the_midpoint Sample.host
           (Sample.frame [Sample.left; Sample.right])
           [Sample.frame [Sample.left; Sample.rightFar]]
           (Sample.frame [Scenes.leftMoved; Sample.rightMoved])
           0%nat 1%nat (mkVec3 0 0 0) (mkVec3 10 0 0) (mkVec3 3 4 5)
           (mkVec3 20 0 0)
           (awake Sample.host Scenes.translateOnly Sample.root));
    reflexivity.
Defined.

(** X12.  An Indirect one-hand grab holds the object where it is, up to the
    stretch along the ray: the component grabs on a single valid interactor
    that does not target directly, whose direction is a unit vector and
    whose target is not behind it, and the next trigger update finds the
    interactor at the same start point with the same direction.  With
    translation on and every axis free, filtered or not, the root is then
    at the position it had at the grab plus the direction times the
    smoothed stretch.  With stretch disabled that stretch is not zero: the
    stretch factor is 1, so the first update already pushes the object
    along the ray by [getDeltaTime() * STRETCH_SMOOTH_SPEED]. *)
Theorem indirect_grab_moves_only_along_the_ray :
  forall h env env' reference p d distance this,
    offDuty this = false ->
    canTranslate this = true ->
    enableXTranslation (config this) = true ->
    enableYTranslation (config this) = true ->
    enableZTranslation (config this) = true ->
    getTriggeringInteractors env = [reference] ->
    isInteractorValid (interactorObject env reference) = true ->
    startPoint (interactorObject env reference) = Some p ->
    direction (interactorObject env reference) = Some d ->
    distanceToTarget (interactorObject env reference) = Some distance ->
    activeTargetingMode (interactorObject env reference) <> Direct ->
    Vec3.length d = 1 ->
    0 <= distance ->
    isInteractorValid (interactorObject env' reference) = true ->
    startPoint (interactorObject env' reference) = Some p ->
    direction (interactorObject env' reference) = Some d ->
    let grabbed := fst (onTriggerToggle h env this) in
    let next := fst (handle h (CallUpdate env') grabbed) in
    getWorldPosition next
    = Vec3.add (getWorldPosition this)
               (Vec3.uniformScale d (smoothedStretch next)) /\
    (enableStretchZ (config this) = false ->
     smoothedStretch next = getDeltaTime env' * STRETCH_SMOOTH_SPEED).
Proof.
  intros h env env' reference p d distance this Hduty Hcan Hx Hy Hz Hcur
         Hvalid Hp Hd Hdist Hmode Hunit Hfar Hvalid' Hp' Hd'.
  cbv zeta.
  assert (Hsome : getTriggeringInteractors env <> [])
    by (rewrite Hcur; discriminate).
  assert (Hindirect :
    isDirectMode (activeTargetingMode (interactorObject env reference))
    = false).
  { destruct (activeTargetingMode (interactorObject env reference));
      try reflexivity. congruence. }
  rewrite (@onTriggerToggle_grab h env this Hduty Hsome), Hcur.
  destruct (@UpdateFacts.updateStartValues_single_indirect h env
              (withInteractors [reference] this) reference p
              eq_refl Hvalid Hp Hindirect) as (Gmode & Gpos & Ghit).
  pose proof (ToggleFacts.updateStartValues_frame h env
                (withInteractors [reference] this)) as F.
  cbv zeta in F.
  destruct F as (Fc & Fi & _ & _ & Ft & _ & _ & _ & _ & Fsmooth & _).
  set (grabbed := fst (updateStartValues h env
                         (withInteractors [reference] this))) in *.
  clearbody grabbed.
  change (getWorldPosition (withInteractors [reference] this))
    with (getWorldPosition this) in Ghit.
  change (config (withInteractors [reference] this)) with (config this) in Fc.
  change (interactors (withInteractors [reference] this))
    with [reference] in Fi.
  assert (Gduty : offDuty grabbed = false)
    by (rewrite (ToggleFacts.offDuty_config grabbed this Fc); exact Hduty).
  assert (Hray : getRayPosition (interactorObject env reference)
                 = Vec3.add p (Vec3.uniformScale d distance)).
  { unfold getRayPosition. rewrite Hvalid, Hp, Hd, Hdist. reflexivity. }
  assert (Hreach : Vec3.length (offsetPosition grabbed) = distance).
  { rewrite Gpos, Hray.
    replace (Vec3.sub (Vec3.add p (Vec3.uniformScale d distance)) p)
      with (Vec3.uniformScale d distance)
      by (destruct p, d; unfold Vec3.sub, Vec3.add, Vec3.uniformScale;
          cbn; f_equal; ring).
    apply UpdateFacts.length_uniformScale; assumption. }
  unfold handle, onTriggerUpdate. rewrite Gduty, Fi. cbn [fst].
  destruct (@UpdateFacts.singleInteractorTransform_indirect h env'
              (interactorObject env' reference) p d grabbed)
    as (Hsmooth & Hpos); try assumption.
  - unfold canTranslate. rewrite Fc. exact Hcan.
  - rewrite Fc. exact Hx.
  - rewrite Fc. exact Hy.
  - rewrite Fc. exact Hz.
  - left. exact Ft.
  - split.
    + rewrite Hpos, Hreach, Ghit, Hray.
      set (s := smoothedStretch _).
      destruct p, d, (getWorldPosition this).
      unfold Vec3.add, Vec3.sub, Vec3.uniformScale. cbn [vx vy vz].
      f_equal; ring.
    + intros Hoff. rewrite Hsmooth, Fsmooth.
      unfold calculateStretchFactor. rewrite Fc, Hoff. cbn [negb snd].
      unfold MathUtils.lerp. ring.
Qed.

Lemma indirect_grab_moves_only_along_the_ray_witness :
  smoothedStretch
    (fst (handle Sample.host (CallUpdate (Sample.frame [Scenes.leftPointing]))
            (fst (onTriggerToggle Sample.host
                    (Sample.frame [Scenes.leftPointing])
                    (awake Sample.host Scenes.rigid Sample.root)))))
  = getDeltaTime (Sample.frame [Scenes.leftPointing]) * STRETCH_SMOOTH_SPEED.
Proof.
  destruct (@indirect_grab_moves_only_along_the_ray Sample.host
              (Sample.frame [Scenes.leftPointing])
              (Sample.frame [Scenes.leftPointing]) 0%nat (mkVec3 0 0 0)
              Vec3.forward 0
              (awake Sample.host Scenes.rigid Sample.root)) as (_ & Hs);
    try reflexivity.
  - cbn. discriminate.
  - unfold Vec3.length, Vec3.dot, Vec3.forward. cbn.
    replace (0 * 0 + 0 * 0 + 1 * 1) with 1 by ring. apply sqrt_1.
  - apply Hs. reflexivity.
Defined.

(** X13.  A two-hand grab does not turn the object: the component, with
    rotation on, grabs on two valid interactors, and the next trigger update
    finds their start points where they were.  Whatever the rotation axis
    and the targeting modes, filtered or not, the world rotation of the root
    is then the rotation it had before the grab, provided the quaternions
    the host builds from Euler angles are invertible. *)
Theorem two_hand_grab_keeps_rotation :
  forall h env env' reference0 reference1 p1 p2 this,
    offDuty this = false ->
    canRotate this = true ->
    getTriggeringInteractors env = [reference0; reference1] ->
    isInteractorValid (interactorObject env reference0) = true ->
    isInteractorValid (interactorObject env reference1) = true ->
    startPoint (interactorObject env reference0) = Some p1 ->
    startPoint (interactorObject env reference1) = Some p2 ->
    startPoint (interactorObject env' reference0) = Some p1 ->
    startPoint (interactorObject env' reference1) = Some p2 ->
    (forall euler, Quat.norm2 (fromEulerVec h euler) <> 0) ->
    let grabbed := fst (onTriggerToggle h env this) in
    getWorldRotation (fst (handle h (CallUpdate env') grabbed))
    = getWorldRotation this.
Proof.
  intros h env env' r0 r1 p1 p2 this Hduty Hcan Hcur Hv0 Hv1 Hp1 Hp2
         Hq1 Hq2 Hhost.
  cbv zeta.
  assert (Hsome : getTriggeringInteractors env <> [])
    by (rewrite Hcur; discriminate).
  rewrite (@onTriggerToggle_grab h env this Hduty Hsome), Hcur.
  destruct (@UpdateFacts.updateStartValues_dual_rotation h env
              (withInteractors [r0; r1] this) r0 r1 p1 p2
              eq_refl Hv0 Hv1 Hp1 Hp2)
    as (before & d0 & Hd0 & Gc & Gsign & Gup & Goff).
  pose proof (ToggleFacts.updateStartValues_frame h env
                (withInteractors [r0; r1] this)) as F.
  cbv zeta in F.
  destruct F as (Fc & Fi & _ & _ & _ & Fr & _).
  set (grabbed := fst (updateStartValues h env
                         (withInteractors [r0; r1] this))) in *.
  clearbody grabbed.
  change (getWorldRotation (withInteractors [r0; r1] this))
    with (getWorldRotation this) in Goff.
  change (config (withInteractors [r0; r1] this)) with (config this) in Fc.
  change (interactors (withInteractors [r0; r1] this)) with [r0; r1] in Fi.
  pose proof (@UpdateFacts.getDualInteractorDirection_again h
                (interactorObject env r0) (interactorObject env r1)
                (interactorObject env' r0) (interactorObject env' r1)
                p1 p2 before grabbed Hp1 Hp2 Hq1 Hq2 Gc Gsign Gup) as Hagain.
  rewrite Hd0 in Hagain.
  assert (Hnorm : Quat.norm2 d0 <> 0).
  { revert Hd0. unfold getDualInteractorDirection. rewrite Hp1, Hp2.
    destruct (rotationAxis (config before)); cbv zeta beta iota;
      cbn [fst snd]; unfold limitQuatRotation; intros Hd0;
      injection Hd0 as <-; apply Hhost. }
  clear Hd0 Gc Gsign Gup.
  assert (Gduty : offDuty grabbed = false)
    by (rewrite (ToggleFacts.offDuty_config grabbed this Fc); exact Hduty).
  destruct (@UpdateFacts.dualInteractorsTransform_at_grab h env' r0 r1 p1 p2
              d0 (getWorldRotation this) grabbed Hq1 Hq2 Hagain)
    as (result & Hrun & Hrot).
  - unfold canRotate. rewrite Fc. exact Hcan.
  - exact Goff.
  - exact Hnorm.
  - left. exact Fr.
  - unfold handle, onTriggerUpdate. rewrite Gduty, Fi, Hrun.
    cbn [option_map fst]. exact Hrot.
Qed.

Lemma two_hand_grab_keeps_rotation_witness :
  getWorldRotation
    (fst (handle Sample.host
            (CallUpdate (Sample.frame [Sample.left; Sample.right]))
            (fst (onTriggerToggle Sample.host
                    (Sample.frame [Sample.left; Sample.right])
                    Sample.awake))))
  = getWorldRotation Sample.awake.
Proof.
  apply (@two_hand_grab_keeps_rotation Sample.host
           (Sample.frame [Sample.left; Sample.right])
           (Sample.frame [Sample.left; Sample.right]) 0%nat 1%nat
           (mkVec3 0 0 0) (mkVec3 10 0 0) Sample.awake);
    try reflexivity.
  intros euler. cbn. unfold Quat.norm2. cbn [qw qx qy qz].
  destruct (Rle_dec 0 (1 - Vec3.dot euler euler)) as [Hin | Hout].
  - pose proof (sqrt_sqrt _ Hin) as Hs. unfold Vec3.dot in *. lra.
  - rewrite sqrt_neg_0 by lra. unfold Vec3.dot in *. lra.
Defined.

Lemma updateEvents_count h this :
  offDuty this = false ->
  let effects :=
    invokeEvents h (Some onTranslationUpdate) (Some onRotationUpdate) None
                 (Some onManipulationUpdate) this in
  invocations (Translation onTranslationUpdate) effects
  = oneIf (canTranslate this) /\
  invocations (Rotation onRotationUpdate) effects = oneIf (canRotate this) /\
  invocations (Manipulation onManipulationUpdate) effects = 1%nat.
Proof.
  intros Hduty. destruct (ToggleFacts.offDuty_false this Hduty) as [_ Hany].
  unfold invokeEvents. rewrite Hany.
  destruct (canTranslate this), (canRotate this); cbn; repeat split.
Qed.

(** X14.  A frame in which the single interactor of the session is not
    valid is skipped by the solver but not by the events: on a component
    that is on duty the trigger-update handler logs the error, leaves every
    field of the component as it is, and still invokes the translation and
    rotation update events of the capabilities that are on and
    [onManipulationUpdate], once each. *)
Theorem invalid_interactor_frame_still_announces_an_update :
  forall h env this reference,
    offDuty this = false ->
    interactors this = [reference] ->
    isInteractorValid (interactorObject env reference) = false ->
    exists effects,
      onTriggerUpdate h env this = Some (this, effects) /\
      In (LogE "Interactor must be valid") effects /\
      invocations (Translation onTranslationUpdate) effects
      = oneIf (canTranslate this) /\
      invocations (Rotation onRotationUpdate) effects
      = oneIf (canRotate this) /\
      invocations (Manipulation onManipulationUpdate) effects = 1%nat.
Proof.
  intros h env this reference Hduty Hone Hinvalid.
  unfold onTriggerUpdate. rewrite Hduty, Hone.
  rewrite (@SolverFacts.singleInteractorTransform_invalid h env
             (interactorObject env reference) this Hinvalid).
  cbn [fst snd]. eexists. split; [reflexivity|].
  split; [left; reflexivity|].
  destruct (@updateEvents_count h this Hduty) as (Ht & Hr & Hm).
  cbn [app invocations nameOf]. rewrite Ht, Hr, Hm. repeat split.
Qed.

Lemma invalid_interactor_frame_still_announces_an_update_witness :
  exists effects,
    onTriggerUpdate Sample.host (Sample.frame [Sample.leftUnoriented])
                    Sample.holdingLeft
    = Some (Sample.holdingLeft, effects) /\
    In (LogE "Interactor must be valid") effects /\
    invocations (Translation onTranslationUpdate) effects
    = oneIf (canTranslate Sample.holdingLeft) /\
    invocations (Rotation onRotationUpdate) effects
    = oneIf (canRotate Sample.holdingLeft) /\
    invocations (Manipulation onManipulationUpdate) effects = 1%nat.
Proof.
  apply (@invalid_interactor_frame_still_announces_an_update Sample.host
           (Sample.frame [Sample.leftUnoriented]) Sample.holdingLeft 0%nat);
    reflexivity.
Defined.

End FrameFacts.

(** ** InteractableManipulation: sequences of toggles and updates *)

Module RunFacts.
Import InteractableManipulation OneEuro ManipulationRuns.
Local Open Scope R_scope.

Lemma eventNameEqb_phase n n' :
  eventNameEqb n n' = true -> phaseOfName n = phaseOfName n'.
Proof.
  destruct n as [[]|[]|[]|[]|], n' as [[]|[]|[]|[]|]; cbn;
    intros H; try reflexivity; discriminate.
Qed.

(** An event of one phase is not invoked by effects of other phases. *)
Lemma invocations_other_phase n (P : Phase -> Prop) effects :
  Forall (fun e => match nameOf e with
                   | Some n' => P (phaseOfName n')
                   | None => True
                   end) effects ->
  ~ P (phaseOfName n) ->
  invocations n effects = 0%nat.
Proof.
  intros Hall Hn. induction Hall as [|e rest He _ IH]; [reflexivity|].
  cbn [invocations]. rewrite IH.
  destruct (nameOf e) as [n'|]; [|reflexivity].
  destruct (eventNameEqb n n') eqn:Heq; [|reflexivity].
  exfalso. apply Hn. rewrite (eventNameEqb_phase _ _ Heq). exact He.
Qed.

Lemma invocations_onlyPhase n p effects :
  onlyPhase p effects -> phaseOfName n <> p -> invocations n effects = 0%nat.
Proof.
  intros Hall Hn.
  exact (@invocations_other_phase n (fun q => q = p) effects Hall Hn).
Qed.

Lemma invocations_onlyUpdates n effects :
  onlyUpdates effects ->
  phaseOfName n = Start \/ phaseOfName n = End ->
  invocations n effects = 0%nat.
Proof.
  intros Hall Hn.
  apply (@invocations_other_phase n (fun q => q = Update \/ q = Limit)
           effects Hall).
  intros [H|H]; destruct Hn as [H'|H']; congruence.
Qed.

Lemma updateStartValues_originals h env this :
  originalWorldTransform (fst (updateStartValues h env this))
  = originalWorldTransform this.
Proof.
  unfold updateStartValues.
  cbn [interactors withStartTransform withScaleFilter withRotationFilter
       withTranslateFilter withStartStretchInteractorDistance
       withSmoothedStretch withMobileStretch].
  destruct (interactors this) as [|i0 [|i1 [|i2 rest]]] eqn:Hlist; cbn.
  - reflexivity.
  - ToggleFacts.split_branches; reflexivity.
  - destruct (negb (isInteractorValid (interactorObject env i0))
              || negb (isInteractorValid (interactorObject env i1)));
      cbn; [reflexivity|].
    match goal with
    | |- context [getDualInteractorDirection ?h ?a ?b ?s] =>
        pose proof (UpdateFacts.getDualInteractorDirection_session h a b s)
          as [(_ & _ & F & _) _];
        destruct (getDualInteractorDirection h a b s) as [[s' d] l]
    end.
    cbn in F.
    ToggleFacts.split_branches; cbn; exact F.
  - reflexivity.
Qed.

(** What a trigger toggle leaves alone, and the interactor list it sets. *)
Lemma onTriggerToggle_frame h env this :
  config (fst (onTriggerToggle h env this)) = config this /\
  manipulateRoot (fst (onTriggerToggle h env this)) = manipulateRoot this /\
  originalWorldTransform (fst (onTriggerToggle h env this))
  = originalWorldTransform this /\
  originalLocalTransform (fst (onTriggerToggle h env this))
  = originalLocalTransform this /\
  (offDuty this = false ->
   interactors (fst (onTriggerToggle h env this))
   = getTriggeringInteractors env).
Proof.
  unfold onTriggerToggle.
  destruct (offDuty this); [repeat split; discriminate|].
  cbv zeta.
  destruct (Nat.ltb 0 (List.length (getTriggeringInteractors env))).
  - pose proof (ToggleFacts.updateStartValues_frame h env
                  (withInteractors (getTriggeringInteractors env) this)) as F.
    pose proof (updateStartValues_originals h env
                  (withInteractors (getTriggeringInteractors env) this)) as G.
    cbv zeta in F.
    destruct (updateStartValues h env
                (withInteractors (getTriggeringInteractors env) this))
      as [next log].
    cbn [fst] in *. destruct F as (Fc & Fi & Fr & Fl & _).
    split; [exact Fc|]. split; [exact Fr|]. split; [exact G|].
    split; [exact Fl|]. intros _. exact Fi.
  - destruct (Nat.ltb 0 (List.length (interactors this)));
      repeat split.
Qed.

(** X15.  A trigger toggle never moves the object: whether it starts a
    session, restarts one or ends one, and whether the interactors are valid
    or not, the root transform after the call is the root transform before
    it.  On a component that is on duty the interactor list becomes the list
    of triggering interactors of the frame, each of which targets the
    companion interactable with a trigger that is not [None]. *)
Theorem toggle_never_moves_the_root :
  forall h env this,
    let next := fst (onTriggerToggle h env this) in
    manipulateRoot next = manipulateRoot this /\
    (offDuty this = false ->
     interactors next = getTriggeringInteractors env /\
     Forall (fun reference =>
               currentInteractable (interactorObject env reference)
               = Some (interactableId env) /\
               currentTrigger (interactorObject env reference) <> TriggerNone)
            (interactors next)).
Proof.
  intros h env this next.
  destruct (onTriggerToggle_frame h env this) as (_ & Hroot & _ & _ & Hi).
  fold next in Hroot, Hi. clearbody next.
  split; [exact Hroot|]. intros Hduty. split; [exact (Hi Hduty)|].
  rewrite (Hi Hduty). unfold getTriggeringInteractors.
  apply Forall_forall. intros reference Hin.
  apply filter_In in Hin. destruct Hin as [_ Hkeep].
  cbv zeta in Hkeep. apply andb_prop in Hkeep. destruct Hkeep as [Ht Hn].
  unfold targets in Ht. split.
  - destruct (currentInteractable (interactorObject env reference));
      [|discriminate].
    apply Nat.eqb_eq in Ht. rewrite Ht. reflexivity.
  - intros Hnone. rewrite Hnone in Hn. discriminate.
Qed.

Lemma toggle_never_moves_the_root_witness :
  manipulateRoot
    (fst (onTriggerToggle Sample.host
            (Sample.frame [Sample.left; Sample.right]) Sample.holdingLeft))
  = manipulateRoot Sample.holdingLeft /\
  interactors
    (fst (onTriggerToggle Sample.host
            (Sample.frame [Sample.left; Sample.right]) Sample.holdingLeft))
  = getTriggeringInteractors (Sample.frame [Sample.left; Sample.right]).
Proof.
  destruct (toggle_never_moves_the_root Sample.host
              (Sample.frame [Sample.left; Sample.right]) Sample.holdingLeft)
    as (Hroot & Hduty).
  split; [exact Hroot|]. apply Hduty. reflexivity.
Defined.

(** What one call leaves alone. *)
Lemma handle_frame h c this :
  config (fst (handle h c this)) = config this /\
  originalWorldTransform (fst (handle h c this))
  = originalWorldTransform this /\
  originalLocalTransform (fst (handle h c this))
  = originalLocalTransform this.
Proof.
  destruct c as [env|env]; unfold handle.
  - destruct (onTriggerToggle_frame h env this) as (Hc & _ & Hw & Hl & _).
    split; [exact Hc|]. split; assumption.
  - destruct (UpdateFacts.onTriggerUpdate_frame h env this)
      as (next & effects & Heq & ((Hc & _ & Hw & Hl & _) & _) & _).
    rewrite Heq. cbn [fst]. split; [exact Hc|]. split; assumption.
Qed.

Lemma run_frame h calls :
  forall this,
    config (fst (run h calls this)) = config this /\
    originalWorldTransform (fst (run h calls this))
    = originalWorldTransform this /\
    originalLocalTransform (fst (run h calls this))
    = originalLocalTransform this.
Proof.
  induction calls as [|c rest IH]; intros this.
  - repeat split.
  - rewrite UpdateFacts.run_cons. cbn [fst].
    destruct (IH (fst (handle h c this))) as (Hc & Hw & Hl).
    destruct (handle_frame h c this) as (Hc' & Hw' & Hl').
    split; [congruence|]. split; congruence.
Qed.

(** X16.  However the component is grabbed, moved and released after
    [onAwake], the transform cached by [cacheTransform] is never overwritten:
    after any sequence of trigger toggles and trigger updates,
    [resetPosition()] puts the root back at the world position it had at
    [onAwake], [resetRotation()] at the world rotation, and
    [resetScale(true)] gives it back its local scale. *)
Theorem reset_returns_to_the_awake_transform :
  forall h c root calls,
    let final := fst (run h calls (awake h c root)) in
    getWorldPosition (resetPosition final) = worldPosition root /\
    getWorldRotation (resetRotation final) = worldRotation root /\
    getLocalScale (resetScaleLocal final) = localScale root.
Proof.
  intros h c root calls final.
  destruct (run_frame h calls (awake h c root)) as (_ & Hw & Hl).
  fold final in Hw, Hl. clearbody final.
  unfold resetPosition, resetRotation, resetScaleLocal.
  rewrite Hw, Hl. repeat split.
Qed.

(** A component that is off duty ignores one call. *)
Lemma handle_off_duty h c this :
  offDuty this = true -> handle h c this = (this, []).
Proof.
  intros Hoff. destruct c as [env|env]; unfold handle.
  - unfold onTriggerToggle. rewrite Hoff. reflexivity.
  - unfold onTriggerUpdate. rewrite Hoff. reflexivity.
Qed.

(** X17.  A component that is disabled, or whose three capabilities are all
    off, ignores every call: no sequence of trigger toggles and trigger
    updates changes any of its fields or has any effect, not even on its
    interactor list. *)
Theorem off_duty_component_ignores_every_call :
  forall h calls this,
    offDuty this = true -> run h calls this = (this, []).
Proof.
  intros h calls this Hoff. induction calls as [|c rest IH]; [reflexivity|].
  rewrite UpdateFacts.run_cons, (@handle_off_duty h c this Hoff). cbn [fst snd].
  rewrite IH. reflexivity.
Qed.

Lemma off_duty_component_ignores_every_call_witness :
  run Sample.host
      [CallToggle (Sample.frame [Sample.left]);
       CallUpdate (Sample.frame [Scenes.leftMoved]);
       CallToggle (Sample.frame [])]
      (awake Sample.host Scenes.idle Sample.root)
  = (awake Sample.host Scenes.idle Sample.root, []).
Proof.
  apply off_duty_component_ignores_every_call. reflexivity.
Defined.

Lemma onTriggerToggle_pairing h env this :
  (invocations (Manipulation onManipulationEnd)
     (snd (onTriggerToggle h env this))
   + oneIf (manipulating (fst (onTriggerToggle h env this)))
   <= invocations (Manipulation onManipulationStart)
        (snd (onTriggerToggle h env this))
      + oneIf (manipulating this))%nat.
Proof.
  destruct (offDuty this) eqn:Hduty.
  { unfold onTriggerToggle. rewrite Hduty. cbn [fst snd invocations]. lia. }
  destruct (ToggleFacts.offDuty_false this Hduty) as [_ Hany].
  pose proof (ToggleFacts.endEvents_set h
                (Nat.eqb (List.length (interactors this)) 2) this) as E.
  cbv zeta in E. destruct E as (_ & _ & _ & E & Ephase & _).
  rewrite Hany in E.
  pose proof (@invocations_onlyPhase (Manipulation onManipulationStart) End
                _ Ephase) as E'.
  destruct (getTriggeringInteractors env) as [|i rest] eqn:Hcur.
  - unfold onTriggerToggle. rewrite Hduty, Hcur. cbv zeta.
    change (Nat.ltb 0 (List.length (@nil InteractorRef))) with false.
    cbv iota. fold (manipulating this).
    destruct (manipulating this); cbn [fst snd].
    + rewrite E, E' by discriminate. cbn. lia.
    + cbn. lia.
  - assert (Hsome : getTriggeringInteractors env <> [])
      by (rewrite Hcur; discriminate).
    rewrite (ToggleFacts.onTriggerToggle_manipulating h env this Hduty Hsome).
    cbv zeta. rewrite Hcur.
    destruct (ToggleFacts.restart_facts h env this (i :: rest))
      as (Fc & Flog & Fi & _).
    set (restart := updateStartValues h env (withInteractors (i :: rest) this))
      in *.
    clearbody restart. cbn [fst snd].
    destruct (@ToggleFacts.startEvents_on_duty h
                (Nat.eqb (List.length (i :: rest)) 2) this (fst restart)
                (i :: rest) Hduty Fc Fi) as (_ & _ & _ & S & Sphase & _).
    rewrite !SolverFacts.invocations_app, S.
    rewrite (@invocations_onlyPhase (Manipulation onManipulationEnd) Start
               _ Sphase) by discriminate.
    rewrite !(SolverFacts.invocations_logs _ Flog).
    unfold manipulating at 1. rewrite Fi.
    change (Nat.ltb 0 (List.length (i :: rest))) with true.
    fold (manipulating this).
    destruct (manipulating this); cbn [andb].
    + destruct (negb (Nat.eqb (List.length (interactors this))
                              (List.length (i :: rest)))).
      * rewrite E, E' by discriminate. cbn. lia.
      * cbn. lia.
    + cbn. lia.
Qed.

Lemma handle_pairing h c this :
  (invocations (Manipulation onManipulationEnd) (snd (handle h c this))
   + oneIf (manipulating (fst (handle h c this)))
   <= invocations (Manipulation onManipulationStart) (snd (handle h c this))
      + oneIf (manipulating this))%nat.
Proof.
  destruct c as [env|env]; unfold handle.
  - apply onTriggerToggle_pairing.
  - destruct (UpdateFacts.onTriggerUpdate_frame h env this)
      as (next & effects & Heq & ((_ & Hi & _) & _) & Hu & _).
    rewrite Heq. cbn [fst snd].
    rewrite !(invocations_onlyUpdates _ Hu) by (cbn; auto).
    unfold manipulating. rewrite Hi. lia.
Qed.

Lemma run_pairing h calls :
  forall this,
    (invocations (Manipulation onManipulationEnd) (snd (run h calls this))
     + oneIf (manipulating (fst (run h calls this)))
     <= invocations (Manipulation onManipulationStart)
          (snd (run h calls this))
        + oneIf (manipulating this))%nat.
Proof.
  induction calls as [|c rest IH]; intros this.
  - cbn. lia.
  - rewrite UpdateFacts.run_cons. cbn [fst snd]. rewrite !SolverFacts.invocations_app.
    pose proof (IH (fst (handle h c this))).
    pose proof (handle_pairing h c this). lia.
Qed.

(** X18.  From [onAwake] on, over any sequence of trigger toggles and
    trigger updates, [onManipulationEnd] is never invoked more often than
    [onManipulationStart], and while the component holds an interactor it
    has been invoked strictly less often: every end closes a start that came
    before it. *)
Theorem manipulation_end_follows_a_start :
  forall h c root calls,
    let result := run h calls (awake h c root) in
    (invocations (Manipulation onManipulationEnd) (snd result)
     + oneIf (manipulating (fst result))
     <= invocations (Manipulation onManipulationStart) (snd result))%nat.
Proof.
  intros h c root calls result.
  pose proof (run_pairing h calls (awake h c root)) as H.
  fold result in H. clearbody result.
  change (manipulating (awake h c root)) with false in H.
  cbn [oneIf] in H. lia.
Qed.

End RunFacts.

(** ** InteractableManipulation: the limits of stretch and scale *)

Module LimitFacts.
Import InteractableManipulation OneEuro ManipulationRuns.
Local Open Scope R_scope.

Lemma clamp_bounds (v lo hi : R) :
  lo <= hi -> lo <= MathUtils.clamp v lo hi <= hi.
Proof.
  intros H. unfold MathUtils.clamp, Rmax, Rmin.
  repeat destruct (Rle_dec _ _); lra.
Qed.

Lemma accumulated_bounds (f acc lo hi : R) :
  lo <= hi ->
  lo <= f + Rmin (hi - f) (Rmax (lo - f) acc) <= hi.
Proof.
  intros H. unfold Rmax, Rmin. repeat destruct (Rle_dec _ _); lra.
Qed.

(** X19.  With stretch enabled, [calculateStretchFactor] keeps the object
    in reach along the ray, for a hand and for a mobile interactor alike:
    the distance captured at the grab plus the stretch it returns is at
    least 1 and at most the larger of 1 and the maximal drag distance minus
    1, whatever the interactor distance, the distance to the target, the
    stretch inputs and the accumulated mobile stretch are. *)
Theorem stretch_keeps_the_object_in_reach :
  forall env interactor this,
    enableStretchZ (config this) = true ->
    let stretch := snd (calculateStretchFactor env interactor this) in
    let reach := Vec3.length (offsetPosition this) in
    let maxDragDistance :=
      Rmax MIN_DRAG_DISTANCE_CM
           (maxRaycastDistance interactor - MAX_USER_ARM_EXTENSION_CM) in
    1 <= reach + stretch <= Rmax 1 (maxDragDistance - 1).
Proof.
  intros env interactor this Hon. cbv zeta.
  unfold calculateStretchFactor. rewrite Hon. cbn [negb]. cbv zeta.
  set (reach := Vec3.length (offsetPosition this)).
  set (maxDragDistance :=
         Rmax MIN_DRAG_DISTANCE_CM
              (maxRaycastDistance interactor - MAX_USER_ARM_EXTENSION_CM)).
  assert (Hhi : reach + Rmax (- reach + 1) (- reach + maxDragDistance - 1)
                = Rmax 1 (maxDragDistance - 1))
    by (unfold Rmax; repeat destruct (Rle_dec _ _); lra).
  assert (Hle : - reach + 1
                <= Rmax (- reach + 1) (- reach + maxDragDistance - 1))
    by apply Rmax_l.
  rewrite <- Hhi.
  destruct (Num.eqb (startStretchInteractorDistance this) 0);
    destruct (isMobile interactor);
    cbn [snd offsetPosition withStartStretchInteractorDistance config
         mobileStretch startStretchInteractorDistance];
    fold reach; fold maxDragDistance.
  1, 3:
    match goal with
    | |- context [?f + Rmin (?hi - ?f) (Rmax (?lo - ?f) ?acc)] =>
        pose proof (accumulated_bounds f acc Hle)
    end; lra.
  all:
    match goal with
    | |- context [MathUtils.clamp ?v ?lo ?hi] =>
        pose proof (clamp_bounds v Hle)
    end; lra.
Qed.

Lemma stretch_keeps_the_object_in_reach_witness :
  1 <= Vec3.length (offsetPosition Sample.awake)
       + snd (calculateStretchFactor (Sample.frame [Sample.mobile])
                Sample.mobile Sample.awake)
    <= Rmax 1 (Rmax MIN_DRAG_DISTANCE_CM
                    (maxRaycastDistance Sample.mobile
                     - MAX_USER_ARM_EXTENSION_CM) - 1).
Proof.
  apply (@stretch_keeps_the_object_in_reach (Sample.frame [Sample.mobile])
           Sample.mobile Sample.awake).
  reflexivity.
Defined.

Lemma min3_bounds (a b c : R) :
  Num.min3 a b c <= a /\ Num.min3 a b c <= b /\ Num.min3 a b c <= c /\
  (0 < a -> 0 < b -> 0 < c -> 0 < Num.min3 a b c).
Proof.
  unfold Num.min3, Rmin. repeat destruct (Rle_dec _ _); repeat split; lra.
Qed.

Lemma div_pos (n d : R) : 0 < n -> 0 < d -> 0 < n / d.
Proof. intros Hn Hd. apply Rdiv_lt_0_compat; assumption. Qed.

Lemma div_le_div (n lo hi : R) :
  0 < n -> 0 < lo -> lo <= hi -> n / hi <= n / lo.
Proof.
  intros Hn Hlo Hle. unfold Rdiv. apply Rmult_le_compat_l; [lra|].
  apply Rinv_le_contravar; lra.
Qed.

(** [d <= n / r] when [r <= n / d]. *)
Lemma ratio_bound (n d r : R) :
  0 < d -> 0 < r -> r <= n / d -> d <= n * (1 / r).
Proof.
  intros Hd Hr H.
  assert (H1 : n / d * d = n) by (field; lra).
  assert (H2 : n * (1 / r) * r = n) by (field; lra).
  assert (H3 : r * d <= n / d * d) by (apply Rmult_le_compat_r; lra).
  apply Rmult_le_reg_r with r; [exact Hr|]. lra.
Qed.

Lemma ltb_spec (a b : R) :
  (Num.ltb a b = true /\ a < b) \/ (Num.ltb a b = false /\ b <= a).
Proof.
  unfold Num.ltb. destruct (Rlt_dec a b); [left|right]; split;
    try reflexivity; lra.
Qed.

(** X20.  [clampUniformScale] on a positive scale, between a positive
    minimum and a maximum that is nowhere below it: the result is the scale
    times one positive factor, so the proportions of the object are kept,
    and no axis of the result is below the minimum. *)
Theorem clamp_keeps_proportions_and_meets_the_minimum :
  forall s lo hi,
    0 < vx s -> 0 < vy s -> 0 < vz s ->
    0 < vx lo <= vx hi -> 0 < vy lo <= vy hi -> 0 < vz lo <= vz hi ->
    let result := fst (clampUniformScale s lo hi) in
    (exists k, 0 < k /\ result = Vec3.uniformScale s k) /\
    vx lo <= vx result /\ vy lo <= vy result /\ vz lo <= vz result.
Proof.
  intros s lo hi Hx Hy Hz [Lx Bx] [Ly By] [Lz Bz]. cbv zeta.
  unfold clampUniformScale. cbv zeta.
  destruct (min3_bounds (vx s / vx lo) (vy s / vy lo) (vz s / vz lo))
    as (Ax & Ay & Az & Apos).
  destruct (min3_bounds (vx s / vx hi) (vy s / vy hi) (vz s / vz hi))
    as (Mx & My & Mz & Mpos).
  assert (Hm : 0 < Num.min3 (vx s / vx lo) (vy s / vy lo) (vz s / vz lo))
    by (apply Apos; apply div_pos; assumption).
  assert (HM : 0 < Num.min3 (vx s / vx hi) (vy s / vy hi) (vz s / vz hi))
    by (apply Mpos; apply div_pos; lra).
  assert (HMm : Num.min3 (vx s / vx hi) (vy s / vy hi) (vz s / vz hi)
                <= Num.min3 (vx s / vx lo) (vy s / vy lo) (vz s / vz lo)).
  { apply SolverFacts.min3_glb.
    - pose proof (div_le_div Hx Lx Bx). lra.
    - pose proof (div_le_div Hy Ly By). lra.
    - pose proof (div_le_div Hz Lz Bz). lra. }
  clear Apos Mpos.
  set (m := Num.min3 (vx s / vx lo) (vy s / vy lo) (vz s / vz lo)) in *.
  set (M := Num.min3 (vx s / vx hi) (vy s / vy hi) (vz s / vz hi)) in *.
  clearbody m M.
  destruct (ltb_spec m 1) as [[-> Hlow] | [-> Hlow]];
    destruct (ltb_spec 1 M) as [[-> Hhigh] | [-> Hhigh]];
    cbn [fst]; try lra.
  - split; [exists (1 / m); split;
              [apply Rdiv_lt_0_compat; lra|reflexivity]|].
    unfold Vec3.uniformScale. cbn [vx vy vz].
    repeat split; apply ratio_bound; assumption.
  - split; [exists (1 / M); split;
              [apply Rdiv_lt_0_compat; lra|reflexivity]|].
    unfold Vec3.uniformScale. cbn [vx vy vz].
    pose proof (@ratio_bound (vx s) (vx hi) M).
    pose proof (@ratio_bound (vy s) (vy hi) M).
    pose proof (@ratio_bound (vz s) (vz hi) M).
    repeat split; lra.
  - split.
    + exists 1. split; [lra|]. destruct s. unfold Vec3.uniformScale.
      cbn. f_equal; ring.
    + pose proof (@ratio_bound (vx s) (vx lo) 1).
      pose proof (@ratio_bound (vy s) (vy lo) 1).
      pose proof (@ratio_bound (vz s) (vz lo) 1).
      repeat split; lra.
Qed.

Lemma clamp_keeps_proportions_and_meets_the_minimum_witness :
  vx (mkVec3 1 1 1)
  <= vx (fst (clampUniformScale (mkVec3 (1 / 2) 3 1) (mkVec3 1 1 1)
                                (mkVec3 2 2 2))).
Proof.
  assert (H : 0 < 1 <= 2) by lra.
  destruct (@clamp_keeps_proportions_and_meets_the_minimum
              (mkVec3 (1 / 2) 3 1) (mkVec3 1 1 1) (mkVec3 2 2 2))
    as (_ & Hmin & _); cbn [vx vy vz]; try lra.
  exact Hmin.
Defined.

Lemma setScale_clamped h env s useFilter this final renewed :
  canScale this = true ->
  clampUniformScale s
    (Vec3.uniformScale (scale (originalLocalTransform this))
                       (minimumScaleFactor (config this)))
    (Vec3.uniformScale (scale (originalLocalTransform this))
                       (maximumScaleFactor (config this)))
  = (final, renewed) ->
  scaleFilter this = None \/ useFilter = false ->
  getLocalScale (fst (setScale h env s useFilter this)) = final /\
  invocations onScaleLimitReached (snd (setScale h env s useFilter this))
  = oneIf renewed.
Proof.
  intros Hcan Hclamp Hfresh. unfold setScale. rewrite Hcan, Hclamp.
  cbn [negb]. unfold filter.
  destruct useFilter;
    [destruct Hfresh as [-> | H]; [|discriminate]|];
    destruct renewed; split; reflexivity.
Qed.

(** X21.  The scale limits hold when the scale at the grab is in proportion
    to the original scale, which is the case as long as only this component
    scales the object.  In a two-interactor frame with both start points
    known, scaling on, positive distances between the interactors at the
    grab and now, a positive original local scale and limits
    [0 < minimumScaleFactor <= maximumScaleFactor], with the scale
    unfiltered or its filter just reset: if the scale at the grab is [c]
    times the original local scale, the local scale after the call is the
    original local scale times [c * currentDistance / initialDistance]
    clamped into [[minimumScaleFactor, maximumScaleFactor]], and
    [onScaleLimitReached] is invoked once if the unclamped factor is
    outside that interval and not at all otherwise. *)
Theorem proportional_scale_stays_within_limits :
  forall h env reference0 reference1 p1 p2 c this,
    startPoint (interactorObject env reference0) = Some p1 ->
    startPoint (interactorObject env reference1) = Some p2 ->
    canScale this = true ->
    0 < initialInteractorDistance this ->
    0 < Vec3.distance p1 p2 ->
    0 < vx (scale (originalLocalTransform this)) ->
    0 < vy (scale (originalLocalTransform this)) ->
    0 < vz (scale (originalLocalTransform this)) ->
    0 < minimumScaleFactor (config this) <= maximumScaleFactor (config this) ->
    0 < c ->
    initialObjectScale this
    = Vec3.uniformScale (scale (originalLocalTransform this)) c ->
    scaleFilter this = None \/ useFilter (config this) = false ->
    let factor :=
      c * (Vec3.distance p1 p2 / initialInteractorDistance this) in
    exists next effects,
      dualInteractorsTransform h env [reference0; reference1] this
      = Some (next, effects) /\
      getLocalScale next
      = Vec3.uniformScale (scale (originalLocalTransform this))
          (MathUtils.clamp factor (minimumScaleFactor (config this))
                           (maximumScaleFactor (config this))) /\
      invocations onScaleLimitReached effects
      = oneIf (Num.ltb factor (minimumScaleFactor (config this))
               || Num.ltb (maximumScaleFactor (config this)) factor).
Proof.
  intros h env r0 r1 p1 p2 c this Hp1 Hp2 Hcan Hd0 Hd Hx Hy Hz [Hlo Hle] Hc
         Hgrab Hfresh factor.
  assert (Hdist : initialInteractorDistance this <> 0) by lra.
  destruct (@SolverFacts.dualInteractorsTransform_scales h env r0 r1 p1 p2
              this Hp1 Hp2 Hcan Hdist)
    as (before & log & Hsame & Hlog & _ & Hrun).
  cbv zeta in Hrun.
  assert (Hprop : updatedObjectScale (Vec3.distance p1 p2) this
                  = Vec3.uniformScale (scale (originalLocalTransform this))
                                      factor).
  { unfold updatedObjectScale, factor. rewrite Hgrab.
    unfold Vec3.uniformScale. cbn [vx vy vz].
    apply SolverFacts.vec3_eq; field; exact Hdist. }
  assert (Hfactor : 0 < factor).
  { unfold factor. apply Rmult_lt_0_compat; [exact Hc|].
    apply Rdiv_lt_0_compat; assumption. }
  clearbody factor. rewrite Hprop in Hrun.
  destruct Hsame as (Bc & _ & Bo & _ & _ & _ & Bf & _).
  destruct (@setScale_clamped h env
              (Vec3.uniformScale (scale (originalLocalTransform this)) factor)
              (useFilter (config this)) before
              (Vec3.uniformScale (scale (originalLocalTransform this))
                 (Rmax (minimumScaleFactor (config this))
                       (Rmin factor (maximumScaleFactor (config this)))))
              (Num.ltb factor (minimumScaleFactor (config this))
               || Num.ltb (maximumScaleFactor (config this)) factor))
    as [Hscale Hlimit].
  - unfold canScale. rewrite Bc. exact Hcan.
  - rewrite Bc, Bo.
    apply SolverFacts.clampUniformScale_proportional; assumption.
  - rewrite Bf. exact Hfresh.
  - eexists _, _. split; [exact Hrun|]. split; [exact Hscale|].
    rewrite !SolverFacts.invocations_app, (SolverFacts.invocations_logs _ Hlog),
      Hlimit.
    cbn [invocations nameOf eventNameEqb eventCode Nat.eqb]. lia.
Qed.

Lemma proportional_scale_stays_within_limits_witness :
  exists next effects,
    dualInteractorsTransform Sample.host
      (Sample.frame [Sample.left; Sample.rightFar]) [0%nat; 1%nat]
      Sample.grabbedBoth = Some (next, effects) /\
    getLocalScale next
    = Vec3.uniformScale (scale (originalLocalTransform Sample.grabbedBoth))
        (MathUtils.clamp
           (1 * (Vec3.distance (mkVec3 0 0 0) (mkVec3 160 0 0)
                 / initialInteractorDistance Sample.grabbedBoth))
           (minimumScaleFactor (config Sample.grabbedBoth))
           (maximumScaleFactor (config Sample.grabbedBoth))) /\
    invocations onScaleLimitReached effects
    = oneIf (Num.ltb
               (1 * (Vec3.distance (mkVec3 0 0 0) (mkVec3 160 0 0)
                     / initialInteractorDistance Sample.grabbedBoth))
               (minimumScaleFactor (config Sample.grabbedBoth))
             || Num.ltb (maximumScaleFactor (config Sample.grabbedBoth))
                  (1 * (Vec3.distance (mkVec3 0 0 0) (mkVec3 160 0 0)
                        / initialInteractorDistance Sample.grabbedBoth))).
Proof.
  apply (@proportional_scale_stays_within_limits Sample.host
           (Sample.frame [Sample.left; Sample.rightFar]) 0%nat 1%nat
           (mkVec3 0 0 0) (mkVec3 160 0 0) 1 Sample.grabbedBoth);
    try reflexivity; cbn; try lra.
  - rewrite SolverFacts.distance_0_160. lra.
  - unfold Vec3.uniformScale, Vec3.one. cbn.
    apply SolverFacts.vec3_eq; ring.
  - left. reflexivity.
Defined.

End LimitFacts.

(** ** InteractableManipulation: what a restart captures *)

Module RestartFacts.
Import InteractableManipulation OneEuro ManipulationRuns.
Local Open Scope R_scope.

(** The direction the solve returns depends on the inputs, the persisted up
    vector and the persisted sign only. *)
Lemma getDualInteractorDirection_direction h i1 i2 a b :
  config a = config b ->
  currentUp a = currentUp b ->
  currentRotationSign a = currentRotationSign b ->
  snd (fst (getDualInteractorDirection h i1 i2 a))
  = snd (fst (getDualInteractorDirection h i1 i2 b)).
Proof.
  intros Hc Hu Hs. unfold getDualInteractorDirection.
  destruct (startPoint i1), (startPoint i2); try reflexivity.
  rewrite Hc, Hs.
  destruct (rotationAxis (config b)); cbv zeta beta iota;
    match goal with
    | |- context [Num.eqb ?s (currentRotationSign b)] =>
        destruct (Num.eqb s (currentRotationSign b))
    end;
    cbn [fst snd]; unfold limitQuatRotation, canRotate;
    cbn [config currentUp withCurrentRotationSign withCurrentUp];
    rewrite Hc, Hu; reflexivity.
Qed.

(** At one valid interactor [updateStartValues] caches its targeting mode
    and captures the offsets from it: in Direct mode from its start point and
    orientation, otherwise from its ray and the camera rotation. *)
Lemma updateStartValues_single h env this reference p o :
  interactors this = [reference] ->
  isInteractorValid (interactorObject env reference) = true ->
  startPoint (interactorObject env reference) = Some p ->
  orientation (interactorObject env reference) = Some o ->
  cachedTargetingMode (fst (updateStartValues h env this))
  = activeTargetingMode (interactorObject env reference) /\
  (activeTargetingMode (interactorObject env reference) = Direct ->
   offsetPosition (fst (updateStartValues h env this))
   = Vec3.sub (getWorldPosition this) p /\
   offsetRotation (fst (updateStartValues h env this))
   = Quat.multiply (Quat.invert o) (getWorldRotation this)) /\
  (activeTargetingMode (interactorObject env reference) <> Direct ->
   offsetPosition (fst (updateStartValues h env this))
   = Vec3.sub (getRayPosition (interactorObject env reference)) p /\
   hitPointToTransform (fst (updateStartValues h env this))
   = Vec3.sub (getWorldPosition this)
              (getRayPosition (interactorObject env reference)) /\
   offsetRotation (fst (updateStartValues h env this))
   = Quat.multiply (Quat.invert (cameraWorldRotation env))
                   (getWorldRotation this)).
Proof.
  intros Hlist Hvalid Hp Ho. unfold updateStartValues.
  cbn [interactors withStartTransform withScaleFilter withRotationFilter
       withTranslateFilter withStartStretchInteractorDistance
       withSmoothedStretch withMobileStretch].
  rewrite Hlist. cbn zeta. rewrite Hvalid, Hp, Ho. cbn [negb orElse].
  destruct (activeTargetingMode (interactorObject env reference));
    cbn; (split; [reflexivity|]); split; intros H;
    try discriminate; try congruence; repeat split.
Qed.

(** At two valid interactors [updateStartValues] caches Direct mode if one of
    them targets directly and Indirect mode otherwise, and captures the
    distance between the start points, the local scale of the root, the
    rotation of the root relative to the direction solved from the default
    up vector, and the position of the root relative to the midpoint of the
    start points (in Indirect mode through the midpoint of the rays). *)
Lemma updateStartValues_two h env this reference0 reference1 p1 p2 :
  interactors this = [reference0; reference1] ->
  isInteractorValid (interactorObject env reference0) = true ->
  isInteractorValid (interactorObject env reference1) = true ->
  startPoint (interactorObject env reference0) = Some p1 ->
  startPoint (interactorObject env reference1) = Some p2 ->
  let isDirect :=
    isDirectMode (activeTargetingMode (interactorObject env reference0))
    || isDirectMode (activeTargetingMode (interactorObject env reference1)) in
  let midPoint := Vec3.uniformScale (Vec3.add p1 p2) (5 / 10) in
  let rayPoint :=
    Vec3.uniformScale
      (Vec3.add (getRayPosition (interactorObject env reference0))
                (getRayPosition (interactorObject env reference1)))
      (5 / 10) in
  cachedTargetingMode (fst (updateStartValues h env this))
  = (if isDirect then Direct else Indirect) /\
  initialInteractorDistance (fst (updateStartValues h env this))
  = Vec3.distance p1 p2 /\
  initialObjectScale (fst (updateStartValues h env this))
  = getLocalScale this /\
  (exists solved,
     snd (fst (getDualInteractorDirection h
                 (interactorObject env reference0)
                 (interactorObject env reference1)
                 (withCurrentRotationSign 0 (withCurrentUp Vec3.up this))))
     = Some solved /\
     offsetRotation (fst (updateStartValues h env this))
     = Quat.multiply (Quat.invert solved) (getWorldRotation this)) /\
  offsetPosition (fst (updateStartValues h env this))
  = (if isDirect then Vec3.sub (getWorldPosition this) midPoint
     else Vec3.sub rayPoint midPoint) /\
  (isDirect = false ->
   hitPointToTransform (fst (updateStartValues h env this))
   = Vec3.sub (getWorldPosition this) rayPoint).
Proof.
  intros Hlist Hv0 Hv1 Hp1 Hp2. cbv zeta. unfold updateStartValues.
  cbn [interactors withStartTransform withScaleFilter withRotationFilter
       withTranslateFilter withStartStretchInteractorDistance
       withSmoothedStretch withMobileStretch].
  rewrite Hlist. cbn zeta. rewrite Hv0, Hv1, Hp1, Hp2.
  cbn [negb orb orElse].
  match goal with
  | |- context [getDualInteractorDirection ?h ?a ?b ?s] =>
      pose proof (ToggleFacts.getDualInteractorDirection_frame h a b s) as F;
      pose proof (@getDualInteractorDirection_direction h a b s
                    (withCurrentRotationSign 0 (withCurrentUp Vec3.up this))
                    eq_refl eq_refl eq_refl) as Hsame;
      destruct (@UpdateFacts.getDualInteractorDirection_some h a b p1 p2 s
                  Hp1 Hp2) as [solved Hd];
      destruct (getDualInteractorDirection h a b s) as [[s' d] l]
  end.
  cbn zeta in F. cbn [fst snd] in F, Hd, Hsame. rewrite Hd in *.
  destruct F as (_ & _ & Froot & _ & Fstart & _ & _ & _ & _ & _ & _ & _
                 & Fmode & _).
  unfold getLocalScale.
  destruct (isDirectMode
              (activeTargetingMode (interactorObject env reference0))
            || isDirectMode
                 (activeTargetingMode (interactorObject env reference1)));
    cbn; rewrite ?Fstart, ?Fmode, ?Froot;
    (split; [reflexivity|]); (split; [reflexivity|]);
    (split; [reflexivity|]);
    (split; [exists solved; split; [symmetry; exact Hsame|reflexivity]|]);
    (split; [reflexivity|]); intros H; try discriminate; reflexivity.
Qed.

(** [updateStartValues] returns before it captures anything from the
    interactors when the only interactor is not valid, when one of two is not
    valid, and when there are more than two: the offsets and the cached
    targeting mode stay as they were. *)
Lemma updateStartValues_skipped h env this :
  (exists reference,
     interactors this = [reference] /\
     isInteractorValid (interactorObject env reference) = false) \/
  (exists reference0 reference1,
     interactors this = [reference0; reference1] /\
     isInteractorValid (interactorObject env reference0)
     && isInteractorValid (interactorObject env reference1) = false) \/
  (2 < List.length (interactors this))%nat ->
  offsetPosition (fst (updateStartValues h env this)) = offsetPosition this /\
  offsetRotation (fst (updateStartValues h env this)) = offsetRotation this /\
  hitPointToTransform (fst (updateStartValues h env this))
  = hitPointToTransform this /\
  cachedTargetingMode (fst (updateStartValues h env this))
  = cachedTargetingMode this.
Proof.
  intros Hskip. unfold updateStartValues.
  cbn [interactors withStartTransform withScaleFilter withRotationFilter
       withTranslateFilter withStartStretchInteractorDistance
       withSmoothedStretch withMobileStretch].
  destruct Hskip as [(r & Hlist & Hinvalid)
                    | [(r0 & r1 & Hlist & Hinvalid) | Hmany]].
  - rewrite Hlist. cbn zeta. rewrite Hinvalid. cbn. repeat split.
  - rewrite Hlist. cbn zeta.
    assert (Hone : negb (isInteractorValid (interactorObject env r0))
                   || negb (isInteractorValid (interactorObject env r1))
                   = true).
    { destruct (isInteractorValid (interactorObject env r0)),
        (isInteractorValid (interactorObject env r1));
        cbn in *; congruence. }
    rewrite Hone. cbn. repeat split.
  - destruct (interactors this) as [|i0 [|i1 [|i2 rest]]];
      cbn in Hmany; try lia.
    cbn. repeat split.
Qed.

(** The same through the handler: a toggle that restarts on such a list
    keeps the offsets and the cached targeting mode of the component. *)
Lemma onTriggerToggle_skipped h env this :
  offDuty this = false ->
  getTriggeringInteractors env <> [] ->
  (exists reference,
     getTriggeringInteractors env = [reference] /\
     isInteractorValid (interactorObject env reference) = false) \/
  (exists reference0 reference1,
     getTriggeringInteractors env = [reference0; reference1] /\
     isInteractorValid (interactorObject env reference0)
     && isInteractorValid (interactorObject env reference1) = false) \/
  (2 < List.length (getTriggeringInteractors env))%nat ->
  offsetPosition (fst (onTriggerToggle h env this)) = offsetPosition this /\
  offsetRotation (fst (onTriggerToggle h env this)) = offsetRotation this /\
  hitPointToTransform (fst (onTriggerToggle h env this))
  = hitPointToTransform this /\
  cachedTargetingMode (fst (onTriggerToggle h env this))
  = cachedTargetingMode this.
Proof.
  intros Hduty Hsome Hskip.
  rewrite (@FrameFacts.onTriggerToggle_grab h env this Hduty Hsome).
  destruct (@updateStartValues_skipped h env
              (withInteractors (getTriggeringInteractors env) this) Hskip)
    as (Hp & Hr & Hh & Hm).
  split; [exact Hp|]. split; [exact Hr|]. split; [exact Hh|exact Hm].
Qed.

(** C10, as amended.  On a component that is on duty, every trigger toggle
    that observes a non-empty set of triggering interactors re-runs
    [updateStartValues] on the observed list and then emits the full Start
    event set, also when the count is unchanged; the End event set comes
    first only when the component was manipulating and the count changed, so
    a second toggle under the same observation emits a second Start set with
    no End event.  Every such toggle resets the three filters and recaptures
    [startTransform].  The grab offsets are recaptured when the observed
    interactors are one valid interactor (from its start point and
    orientation in Direct mode, from its ray and the camera rotation
    otherwise) or two valid interactors (from the midpoint of the start
    points, in Indirect mode through the midpoint of the rays, and from the
    direction solved with the default up vector, together with the initial
    distance and scale).  When the only interactor is not valid, when one of
    two is not valid, or when there are more than two, [offsetPosition],
    [offsetRotation], [hitPointToTransform] and [cachedTargetingMode] keep
    the values they had before the toggle. *)
Theorem toggle_restarts_on_every_observation :
  forall h env this,
    offDuty this = false ->
    getTriggeringInteractors env <> [] ->
    let previous := List.length (interactors this) in
    let current := getTriggeringInteractors env in
    let restart := updateStartValues h env (withInteractors current this) in
    let begun :=
      startEvents h (Nat.eqb (List.length current) 2) (fst restart) in
    onTriggerToggle h env this =
      (fst restart,
       (if Nat.ltb 0 previous && negb (Nat.eqb previous (List.length current))
        then endEvents h (Nat.eqb previous 2) this else [])
       ++ snd restart ++ begun) /\
    (onlyLogs (snd restart) /\
     interactors (fst restart) = current /\
     startTransform (fst restart) = snapshot h this /\
     translateFilter (fst restart) = None /\
     rotationFilter (fst restart) = None /\
     scaleFilter (fst restart) = None) /\
    (forall reference p o,
       current = [reference] ->
       isInteractorValid (interactorObject env reference) = true ->
       startPoint (interactorObject env reference) = Some p ->
       orientation (interactorObject env reference) = Some o ->
       cachedTargetingMode (fst restart)
       = activeTargetingMode (interactorObject env reference) /\
       (activeTargetingMode (interactorObject env reference) = Direct ->
        offsetPosition (fst restart) = Vec3.sub (getWorldPosition this) p /\
        offsetRotation (fst restart)
        = Quat.multiply (Quat.invert o) (getWorldRotation this)) /\
       (activeTargetingMode (interactorObject env reference) <> Direct ->
        offsetPosition (fst restart)
        = Vec3.sub (getRayPosition (interactorObject env reference)) p /\
        hitPointToTransform (fst restart)
        = Vec3.sub (getWorldPosition this)
                   (getRayPosition (interactorObject env reference)) /\
        offsetRotation (fst restart)
        = Quat.multiply (Quat.invert (cameraWorldRotation env))
                        (getWorldRotation this))) /\
    (forall reference0 reference1 p1 p2,
       current = [reference0; reference1] ->
       isInteractorValid (interactorObject env reference0) = true ->
       isInteractorValid (interactorObject env reference1) = true ->
       startPoint (interactorObject env reference0) = Some p1 ->
       startPoint (interactorObject env reference1) = Some p2 ->
       let isDirect :=
         isDirectMode
           (activeTargetingMode (interactorObject env reference0))
         || isDirectMode
              (activeTargetingMode (interactorObject env reference1)) in
       let midPoint := Vec3.uniformScale (Vec3.add p1 p2) (5 / 10) in
       let rayPoint :=
         Vec3.uniformScale
           (Vec3.add (getRayPosition (interactorObject env reference0))
                     (getRayPosition (interactorObject env reference1)))
           (5 / 10) in
       cachedTargetingMode (fst restart)
       = (if isDirect then Direct else Indirect) /\
       initialInteractorDistance (fst restart) = Vec3.distance p1 p2 /\
       initialObjectScale (fst restart) = getLocalScale this /\
       (exists solved,
          snd (fst (getDualInteractorDirection h
                      (interactorObject env reference0)
                      (interactorObject env reference1)
                      (withCurrentRotationSign 0
                         (withCurrentUp Vec3.up this))))
          = Some solved /\
          offsetRotation (fst restart)
          = Quat.multiply (Quat.invert solved) (getWorldRotation this)) /\
       offsetPosition (fst restart)
       = (if isDirect then Vec3.sub (getWorldPosition this) midPoint
          else Vec3.sub rayPoint midPoint) /\
       (isDirect = false ->
        hitPointToTransform (fst restart)
        = Vec3.sub (getWorldPosition this) rayPoint)) /\
    ((exists reference,
        current = [reference] /\
        isInteractorValid (interactorObject env reference) = false) \/
     (exists reference0 reference1,
        current = [reference0; reference1] /\
        isInteractorValid (interactorObject env reference0)
        && isInteractorValid (interactorObject env reference1) = false) \/
     (2 < List.length current)%nat ->
     offsetPosition (fst restart) = offsetPosition this /\
     offsetRotation (fst restart) = offsetRotation this /\
     hitPointToTransform (fst restart) = hitPointToTransform this /\
     cachedTargetingMode (fst restart) = cachedTargetingMode this) /\
    (invocations (Translation onTranslationStart) begun
       = oneIf (canTranslate this) /\
     invocations (Rotation onRotationStart) begun = oneIf (canRotate this) /\
     invocations (Scale onScaleStart) begun
       = oneIf (canScale this && Nat.eqb (List.length current) 2) /\
     invocations (Manipulation onManipulationStart) begun = 1%nat /\
     onlyPhase Start begun /\ carries current begun) /\
    (exists again log,
       onTriggerToggle h env (fst restart)
         = (again,
            log ++ startEvents h (Nat.eqb (List.length current) 2) again) /\
       onlyLogs log /\
       invocations (Manipulation onManipulationStart)
         (startEvents h (Nat.eqb (List.length current) 2) again) = 1%nat).
Proof.
  intros h env this Hduty Hsome.
  destruct (ToggleFacts.onTriggerToggle_restart h env this Hduty Hsome)
    as (Hrun & Hreset & _ & Hbegun & Hagain).
  cbv zeta in *.
  split; [exact Hrun|]. split; [exact Hreset|].
  split.
  { intros reference p o Hone Hvalid Hp Ho.
    exact (@updateStartValues_single h env
             (withInteractors (getTriggeringInteractors env) this)
             reference p o Hone Hvalid Hp Ho). }
  split.
  { intros reference0 reference1 p1 p2 Htwo Hv0 Hv1 Hp1 Hp2.
    destruct (@updateStartValues_two h env
                (withInteractors (getTriggeringInteractors env) this)
                reference0 reference1 p1 p2 Htwo Hv0 Hv1 Hp1 Hp2)
      as (Hmode & Hdistance & Hscale & (solved & Hsolved & Hrotation)
          & Hposition & Hhit).
    rewrite (@getDualInteractorDirection_direction h
               (interactorObject env reference0)
               (interactorObject env reference1)
               (withCurrentRotationSign 0
                  (withCurrentUp Vec3.up
                     (withInteractors (getTriggeringInteractors env) this)))
               (withCurrentRotationSign 0 (withCurrentUp Vec3.up this))
               eq_refl eq_refl eq_refl) in Hsolved.
    split; [exact Hmode|]. split; [exact Hdistance|].
    split; [exact Hscale|].
    split; [exists solved; split; [exact Hsolved|exact Hrotation]|].
    split; [exact Hposition|exact Hhit]. }
  split.
  { intros Hskip.
    exact (@updateStartValues_skipped h env
             (withInteractors (getTriggeringInteractors env) this) Hskip). }
  split; [exact Hbegun|exact Hagain].
Qed.

Lemma toggle_restarts_on_every_observation_witness :
  offDuty Sample.holdingLeft = false /\
  getTriggeringInteractors (Sample.frame [Sample.left]) <> [] /\
  offsetPosition
    (fst (updateStartValues Sample.host (Sample.frame [Sample.left])
            (withInteractors
               (getTriggeringInteractors (Sample.frame [Sample.left]))
               Sample.holdingLeft)))
  = Vec3.sub (getWorldPosition Sample.holdingLeft) (mkVec3 0 0 0) /\
  exists again log,
    onTriggerToggle Sample.host (Sample.frame [Sample.left])
      (fst (updateStartValues Sample.host (Sample.frame [Sample.left])
              (withInteractors
                 (getTriggeringInteractors (Sample.frame [Sample.left]))
                 Sample.holdingLeft)))
    = (again,
       log ++ startEvents Sample.host
                (Nat.eqb (List.length
                            (getTriggeringInteractors
                               (Sample.frame [Sample.left]))) 2) again) /\
    onlyLogs log /\
    invocations (Manipulation onManipulationStart)
      (startEvents Sample.host
         (Nat.eqb (List.length
                     (getTriggeringInteractors (Sample.frame [Sample.left])))
                  2) again) = 1%nat.
Proof.
  assert (Hduty : offDuty Sample.holdingLeft = false) by reflexivity.
  assert (Hsome : getTriggeringInteractors (Sample.frame [Sample.left]) <> [])
    by discriminate.
  destruct (toggle_restarts_on_every_observation Sample.host
              (Sample.frame [Sample.left]) Sample.holdingLeft Hduty Hsome)
    as (_ & _ & Hsingle & _ & _ & _ & Hagain).
  split; [exact Hduty|]. split; [exact Hsome|].
  split; [|exact Hagain].
  destruct (Hsingle 0%nat (mkVec3 0 0 0) Quat.quatIdentity
              eq_refl eq_refl eq_refl eq_refl) as (_ & Hdirect & _).
  exact (proj1 (Hdirect eq_refl)).
Defined.

(** C10 as stated fails: not every toggle recaptures the grab offsets.  The
    component holds the right hand, grabbed at [(10, 0, 0)] with the root at
    the origin, so [offsetPosition] is [(0 - 10, 0 - 0, 0 - 0)].  The next
    toggle observes one Direct interactor at the origin whose orientation is
    not known, which makes it invalid: [updateStartValues] logs and returns,
    and [offsetPosition] is still the offset to the right hand, not the
    offset to the interactor observed. *)
Lemma invalid_interactor_toggle_keeps_old_offsets :
  offDuty Scenes.holdingRight = false /\
  getTriggeringInteractors (Sample.frame [Sample.leftUnoriented]) = [0%nat] /\
  offsetPosition
    (fst (onTriggerToggle Sample.host (Sample.frame [Sample.leftUnoriented])
            Scenes.holdingRight))
  = offsetPosition Scenes.holdingRight /\
  ~ (forall h env this reference p,
       offDuty this = false ->
       getTriggeringInteractors env = [reference] ->
       startPoint (interactorObject env reference) = Some p ->
       activeTargetingMode (interactorObject env reference) = Direct ->
       offsetPosition (fst (onTriggerToggle h env this))
       = Vec3.sub (getWorldPosition this) p).
Proof.
  assert (Hduty : offDuty Scenes.holdingRight = false) by reflexivity.
  assert (Hcur : getTriggeringInteractors
                   (Sample.frame [Sample.leftUnoriented]) = [0%nat])
    by reflexivity.
  assert (Hsome : getTriggeringInteractors
                    (Sample.frame [Sample.leftUnoriented]) <> [])
    by (rewrite Hcur; discriminate).
  assert (Hkept :
    offsetPosition
      (fst (onTriggerToggle Sample.host
              (Sample.frame [Sample.leftUnoriented]) Scenes.holdingRight))
    = offsetPosition Scenes.holdingRight).
  { refine (proj1 (@onTriggerToggle_skipped Sample.host
                     (Sample.frame [Sample.leftUnoriented])
                     Scenes.holdingRight Hduty Hsome _)).
    left. exists 0%nat. split; reflexivity. }
  split; [exact Hduty|]. split; [exact Hcur|]. split; [exact Hkept|].
  intros Hall.
  specialize (Hall Sample.host (Sample.frame [Sample.leftUnoriented])
                Scenes.holdingRight 0%nat (mkVec3 0 0 0)
                Hduty Hcur eq_refl eq_refl).
  rewrite Hkept in Hall.
  assert (Hx : vx (offsetPosition Scenes.holdingRight)
               = vx (Vec3.sub (getWorldPosition Scenes.holdingRight)
                              (mkVec3 0 0 0)))
    by (rewrite Hall; reflexivity).
  cbn in Hx. lra.
Qed.

End RestartFacts.
